(** * pyhsmm, [internals/states.py]: message passing and forward sampling

    A shallow embedding of the HMM / HSMM state classes of
    [internals/states.py] and proofs about their backward and forward
    recursions, their forward samplers and the two structural variants
    (possible changepoints, geometric tail).

    Conventions of the embedding.

    - A NumPy [float64] is a value of an abstract carrier [F] with the
      operations of [FloatOps]; theorems that need algebraic laws state
      them.  [ExactReal] is an exact instance (rationals and logarithms of
      rationals) on which the code can be run.
    - A 1-d array is a [list F], a 2-d array the list of its rows.  Shapes
      are preconditions: where NumPy would raise on mismatching shapes the
      theorems assume the shapes the callers build.
    - A Python exception is a value of [exn]; a method that can raise
      returns a [result].
    - An instance ([self]) is a record of its attributes; an attribute that
      [__init__] does not set is an [option], [None] meaning "not set".
    - Random draws come from an explicit stream of uniform variates. *)

From Stdlib Require Import QArith Qcanon.
From stdpp Require Import base list strings gmap.
Local Close Scope Q_scope.

(** ** Python exceptions *)

Inductive exn : Type :=
  | AssertionError
  | AttributeError (name : string)
  | IndexError
  | NameError (name : string)
  | TypeError
  | DegenerateDistributionError
  | FuelExhausted.
  (* [FuelExhausted] is not a Python exception: it marks a [while] loop of
     the embedding that ran out of fuel.  [sample_forwards_fuel] and
     [cp_sample_forwards_fuel] show that the samplers never return it. *)

Definition result (A : Type) : Type := (exn + A)%type.

Definition raise {A : Type} (e : exn) : result A := inl e.

#[global] Instance result_ret : MRet result := λ A x, inr x.

#[global] Instance result_bind : MBind result :=
  λ A B f m, match m with inl e => inl e | inr x => f x end.

(** A run that did not stop for lack of fuel. *)
Definition in_fuel {A : Type} (m : result A) : Prop :=
  m ≠ raise FuelExhausted.

(** [assert b] *)
Definition py_assert (b : bool) : result unit :=
  if b then mret tt else raise AssertionError.

(** [for t in xrange(n-1,-1,-1): s = body t s] *)
Fixpoint down_loop {S : Type} (n : nat) (body : nat → S → S) (s : S) : S :=
  match n with
  | 0 => s
  | S t => down_loop t body (body t s)
  end.

(** The same loop with a body that can raise. *)
Fixpoint down_loopM {S : Type} (n : nat) (body : nat → S → result S) (s : S)
  : result S :=
  match n with
  | 0 => mret s
  | S t => s' ← body t s; down_loopM t body s'
  end.

(** [for t in xrange(n): s = body t s] *)
Definition up_loop {S : Type} (n : nat) (body : nat → S → S) (s : S) : S :=
  foldl (λ s t, body t s) s (seq 0 n).

(** ** Floating-point operations *)

Class FloatOps (F : Type) : Type := {
  fzero : F;                      (* 0. *)
  fone : F;                       (* 1. *)
  neg_inf : F;                    (* -np.inf *)
  fadd : F → F → F;               (* x + y *)
  fsub : F → F → F;               (* x - y *)
  fmul : F → F → F;               (* x * y *)
  fdiv : F → F → F;               (* x / y *)
  fexp : F → F;                   (* np.exp *)
  flog : F → F;                   (* np.log *)
  logaddexp : F → F → F;          (* np.logaddexp *)
  fmax : F → F → F;               (* the binary step of np.amax *)
  feqb : F → F → bool;            (* x == y *)
  fltb : F → F → bool;            (* x < y *)
  fleb : F → F → bool;            (* x <= y *)
  fisnan : F → bool               (* np.isnan *)
}.

(** ** NumPy array operations *)

Section Numpy.
Context {F : Type} `{!FloatOps F}.

(** [np.zeros(n)] and [np.zeros((r,c))] *)
Definition zeros (n : nat) : list F := replicate n fzero.
Definition zeros2 (r c : nat) : list (list F) := replicate r (zeros c).

(** [M[t]] and [v[k]]; out of range NumPy raises [IndexError], here the
    row is empty and the entry [0.]. *)
Definition row (M : list (list F)) (t : nat) : list F := default [] (M !! t).
Definition at_ (v : list F) (k : nat) : F := default fzero (v !! k).

(** [l[start:stop]] for non-negative bounds: clipped at the end. *)
Definition slice {A : Type} (l : list A) (start stop : nat) : list A :=
  take (stop - start) (drop start l).

(** The position a (possibly negative) index denotes in an axis of
    length [n]. *)
Definition wrap_index (n : nat) (i : Z) : nat :=
  Z.to_nat (if (i <? 0)%Z then (Z.of_nat n + i)%Z else i).

(** [l[i] = x] with Python's index convention; [IndexError] out of range. *)
Definition setitem {A : Type} (i : Z) (x : A) (l : list A) : result (list A) :=
  if ((- Z.of_nat (length l) <=? i)%Z && (i <? Z.of_nat (length l))%Z)%bool
  then mret (<[wrap_index (length l) i := x]> l)
  else raise IndexError.

(** [l[i]] for an index that is checked: [IndexError] out of range. *)
Definition getitem {A : Type} (l : list A) (i : nat) : result A :=
  match l !! i with
  | Some x => mret x
  | None => raise IndexError
  end.

(** [l[i]] for a possibly negative index *)
Definition getitem_z {A : Type} (l : list A) (i : Z) : result A :=
  if ((- Z.of_nat (length l) <=? i)%Z && (i <? Z.of_nat (length l))%Z)%bool
  then getitem l (wrap_index (length l) i)
  else raise IndexError.

(** [l[start:stop] = x]: the slice is clipped at the end of [l]. *)
Definition fill {A : Type} (l : list A) (start stop : nat) (x : A) : list A :=
  take start l ++ replicate (length (slice l start stop)) x ++ drop stop l.

(** [l[start:stop]] where [stop] may be [None] *)
Definition slice_from {A : Type} (l : list A) (start : nat)
    (stop : option nat) : list A :=
  match stop with
  | None => drop start l
  | Some stop => slice l start stop
  end.

(** Element-wise [x + y], [x - y], [x * y] on arrays of one shape. *)
Definition vadd : list F → list F → list F := zip_with fadd.
Definition vsub : list F → list F → list F := zip_with fsub.
Definition vmul : list F → list F → list F := zip_with fmul.
Definition madd : list (list F) → list (list F) → list (list F) :=
  zip_with vadd.

(** [np.log], [np.exp] of an array *)
Definition vlog (v : list F) : list F := flog <$> v.
Definition mlog (M : list (list F)) : list (list F) := vlog <$> M.
Definition vexp (v : list F) : list F := fexp <$> v.

(** [np.logaddexp.reduce] of a 1-d array: the fold starts from the first
    entry; an empty reduction gives the identity [-inf]. *)
Definition logsumexp (v : list F) : F :=
  match v with
  | [] => neg_inf
  | x :: xs => foldl logaddexp x xs
  end.

(** [np.logaddexp.reduce(M, axis=1)] *)
Definition logaddexp_reduce_axis1 (M : list (list F)) : list F :=
  logsumexp <$> M.

(** [np.logaddexp.reduce(M, axis=0)] for [M] with [K] columns *)
Definition logaddexp_reduce_axis0 (K : nat) (M : list (list F)) : list F :=
  match M with
  | [] => replicate K neg_inf
  | r :: rs => foldl (zip_with logaddexp) r rs
  end.

(** [np.sum] of a 1-d array *)
Definition np_sum (v : list F) : F :=
  match v with
  | [] => fzero
  | x :: xs => foldl fadd x xs
  end.

(** [np.sum(M, axis=0)] for [M] with [K] columns *)
Definition sum_axis0 (K : nat) (M : list (list F)) : list F :=
  match M with
  | [] => zeros K
  | r :: rs => foldl vadd r rs
  end.

(** [np.sum(M, axis=1)] *)
Definition sum_axis1 (M : list (list F)) : list F := np_sum <$> M.

(** Running accumulation: [scan f a [x1; x2; ...] = [f a x1; f (f a x1) x2; ...]] *)
Fixpoint scan {A : Type} (f : A → A → A) (a : A) (l : list A) : list A :=
  match l with
  | [] => []
  | x :: xs => f a x :: scan f (f a x) xs
  end.

(** [np.cumsum(v)] and [np.cumsum(M, axis=0)] *)
Definition cumsum (v : list F) : list F :=
  match v with
  | [] => []
  | x :: xs => x :: scan fadd x xs
  end.
Definition cumsum_axis0 (M : list (list F)) : list (list F) :=
  match M with
  | [] => []
  | r :: rs => r :: scan vadd r rs
  end.

(** [M[:,k]] *)
Definition column (M : list (list F)) (k : nat) : list F :=
  (λ r, at_ r k) <$> M.

(** [M.T] for a matrix with as many columns as its first row has *)
Definition transpose (M : list (list F)) : list (list F) :=
  column M <$> seq 0 (length (row M 0)).

(** [np.amax(v)] of a non-empty array.  On an empty array [np.amax]
    raises [ValueError]; the arrays the code hands it have one entry per
    state, and the statements on its value assume a non-empty array. *)
Definition amax (v : list F) : F :=
  match v with
  | [] => neg_inf
  | x :: xs => foldl fmax x xs
  end.

End Numpy.

(** ** The model and the state objects *)

Section Objects.
Context {F : Type} `{!FloatOps F} {Obs : Type}.

(** An observation distribution: [log_likelihood(data)] gives one entry
    per observation. *)
Record ObsDistn : Type := { log_likelihood : list Obs → list F }.

(** A duration distribution, evaluated at positive integer durations. *)
Record DurDistn : Type := {
  pmf : nat → F;
  log_pmf : nat → F;
  log_sf : nat → F
}.

(** [self.model].  [trans_distn] stands for the transition distribution
    object: its matrix [A] itself when [TD] is a matrix (the classes that
    only read it), a reference into a store where the object is shared
    and mutated (the geometric-tail class). *)
Record model_of (TD : Type) : Type := {
  state_dim : nat;
  trans_distn : TD;                 (* model.trans_distn(.A) *)
  pi_0 : list F;                    (* model.init_state_distn.pi_0 *)
  obs_distns : list ObsDistn;
  dur_distns : list DurDistn
}.
#[global] Arguments state_dim {TD} _.
#[global] Arguments trans_distn {TD} _.
#[global] Arguments pi_0 {TD} _.
#[global] Arguments obs_distns {TD} _.
#[global] Arguments dur_distns {TD} _.

Definition Model : Type := model_of (list (list F)).

(** The attributes of a states object.  [aBl] is set by [resample] only:
    [None] is "no such attribute", [Some None] the Python value [None].
    The changepoint attributes are read by the methods of
    [HSMMStatesPossibleChangepoints] only. *)
Record states : Type := {
  model : Model;
  T : nat;
  data : option (list Obs);
  stateseq : list nat;
  censoring : bool;
  trunc : option nat;
  stateseq_norep : list nat;
  durations : list nat;
  aBl : option (option (list (list F)));
  changepoints : list (nat * nat);
  startpoints : list nat;
  blocklens : list nat;
  Tblock : nat;
  aBBl : option (list (list F));
  aDl : option (list (list F))
}.

Definition set_stateseq (v : list nat) (self : states) : states :=
  {| model := model self; T := T self; data := data self; stateseq := v;
     censoring := censoring self; trunc := trunc self;
     stateseq_norep := stateseq_norep self; durations := durations self;
     aBl := aBl self; changepoints := changepoints self;
     startpoints := startpoints self; blocklens := blocklens self;
     Tblock := Tblock self; aBBl := aBBl self; aDl := aDl self |}.

Definition set_stateseq_norep (v : list nat) (self : states) : states :=
  {| model := model self; T := T self; data := data self;
     stateseq := stateseq self;
     censoring := censoring self; trunc := trunc self;
     stateseq_norep := v; durations := durations self;
     aBl := aBl self; changepoints := changepoints self;
     startpoints := startpoints self; blocklens := blocklens self;
     Tblock := Tblock self; aBBl := aBBl self; aDl := aDl self |}.

Definition set_durations (v : list nat) (self : states) : states :=
  {| model := model self; T := T self; data := data self;
     stateseq := stateseq self;
     censoring := censoring self; trunc := trunc self;
     stateseq_norep := stateseq_norep self; durations := v;
     aBl := aBl self; changepoints := changepoints self;
     startpoints := startpoints self; blocklens := blocklens self;
     Tblock := Tblock self; aBBl := aBBl self; aDl := aDl self |}.

Definition set_trunc (v : option nat) (self : states) : states :=
  {| model := model self; T := T self; data := data self;
     stateseq := stateseq self;
     censoring := censoring self; trunc := v;
     stateseq_norep := stateseq_norep self; durations := durations self;
     aBl := aBl self; changepoints := changepoints self;
     startpoints := startpoints self; blocklens := blocklens self;
     Tblock := Tblock self; aBBl := aBBl self; aDl := aDl self |}.

Definition set_aBl (v : option (option (list (list F)))) (self : states)
  : states :=
  {| model := model self; T := T self; data := data self;
     stateseq := stateseq self;
     censoring := censoring self; trunc := trunc self;
     stateseq_norep := stateseq_norep self; durations := durations self;
     aBl := v; changepoints := changepoints self;
     startpoints := startpoints self; blocklens := blocklens self;
     Tblock := Tblock self; aBBl := aBBl self; aDl := aDl self |}.

Definition set_aBBl (v : option (list (list F))) (self : states) : states :=
  {| model := model self; T := T self; data := data self;
     stateseq := stateseq self;
     censoring := censoring self; trunc := trunc self;
     stateseq_norep := stateseq_norep self; durations := durations self;
     aBl := aBl self; changepoints := changepoints self;
     startpoints := startpoints self; blocklens := blocklens self;
     Tblock := Tblock self; aBBl := v; aDl := aDl self |}.

Definition set_aDl (v : option (list (list F))) (self : states) : states :=
  {| model := model self; T := T self; data := data self;
     stateseq := stateseq self;
     censoring := censoring self; trunc := trunc self;
     stateseq_norep := stateseq_norep self; durations := durations self;
     aBl := aBl self; changepoints := changepoints self;
     startpoints := startpoints self; blocklens := blocklens self;
     Tblock := Tblock self; aBBl := aBBl self; aDl := v |}.

(** Reading [self.aBl] as an array: a missing attribute raises
    [AttributeError], [None] cannot be subscripted. *)
Definition get_self_aBl (self : states) : result (list (list F)) :=
  match aBl self with
  | None => raise (AttributeError "aBl")
  | Some None => raise TypeError
  | Some (Some m) => mret m
  end.

Definition get_self_aBBl (self : states) : result (list (list F)) :=
  match aBBl self with
  | None => raise (AttributeError "aBBl")
  | Some m => mret m
  end.

Definition get_self_aDl (self : states) : result (list (list F)) :=
  match aDl self with
  | None => raise (AttributeError "aDl")
  | Some m => mret m
  end.
End Objects.

Arguments ObsDistn : clear implicits.
Arguments DurDistn : clear implicits.
Arguments model_of : clear implicits.
Arguments Model : clear implicits.
Arguments states : clear implicits.

(** ** Random draws *)

(** The generator behind [numpy.random]: a stream of uniform variates on
    [[0,1)] and the position of the next one. *)
Record rng (F : Type) : Type := { draws : nat → F; pos : nat }.
Arguments draws {F} _ _.
Arguments pos {F} _.

(** [random()] *)
Definition random {F : Type} (g : rng F) : F * rng F :=
  (draws g (pos g), {| draws := draws g; pos := S (pos g) |}).

(** ** The helpers of [util.stats] and [util.general] *)

Section Util.
Context {F : Type} `{!FloatOps F}.

(** The first position whose cumulative weight exceeds [target]. *)
Fixpoint first_above (target : F) (cum : list F) : nat :=
  match cum with
  | [] => 0
  | c :: cs => if fltb target c then 0 else S (first_above target cs)
  end.

(** Modelled from the spec: [util.stats.sample_discrete] is not under
    [src/].  Given a non-negative, not necessarily normalised weight
    vector it returns an index drawn proportionally to the weights
    (here by inverting the cumulative weights at one uniform draw) and
    fails with [DegenerateDistributionError] if all weights are exactly
    zero. *)
Definition sample_discrete (distn : list F) (g : rng F)
  : result (nat * rng F) :=
  if forallb (λ w, feqb w fzero) distn
  then raise DegenerateDistributionError
  else
    let '(u, g) := random g in
    mret (first_above (fmul u (np_sum distn)) (cumsum distn), g).

(** Modelled from the spec: [util.stats.sample_discrete_from_log] is not
    under [src/].  It takes log-weights, subtracts the maximum before
    exponentiating and delegates to [sample_discrete]. *)
Definition sample_discrete_from_log (p_log : list F) (g : rng F)
  : result (nat * rng F) :=
  sample_discrete ((λ x, fexp (fsub x (amax p_log))) <$> p_log) g.

(** Modelled from the spec: [util.general.rle] is not under [src/].  The
    run-length encoding of a state sequence: the states of its maximal
    runs and the lengths of the runs. *)
Fixpoint rle (stateseq : list nat) : list nat * list nat :=
  match stateseq with
  | [] => ([], [])
  | x :: xs =>
      match rle xs with
      | (y :: ys, d :: ds) =>
          if decide (x = y) then (y :: ys, S d :: ds)
          else (x :: y :: ys, 1 :: d :: ds)
      | _ => ([x], [1])
      end
  end.
End Util.

(** ** [class HMMStatesPython] *)

Module HMMStatesPython.
Section Methods.
Context {F : Type} `{!FloatOps F} {Obs : Type}.
Abbreviation states := (states F Obs).

(** [get_aBl]: column [idx] of the table is
    [obs_distns[idx].log_likelihood(data)] (for a model with [state_dim]
    observation distributions). *)
Definition get_aBl (self : states) (data : list Obs) : list (list F) :=
  (λ t, (λ o, at_ (log_likelihood o data) t) <$> obs_distns (model self))
    <$> seq 0 (length data).

Definition messages_forwards (self : states) (aBl : list (list F))
  : result (list (list F)) :=
  let T := length aBl in
  let alphal := zeros2 T (state_dim (model self)) in
  let Al := mlog (trans_distn (model self)) in
  match aBl !! 0 with
  | None => raise IndexError
  | Some aBl0 =>
      let alphal := <[0 := vadd (vlog (pi_0 (model self))) aBl0]> alphal in
      mret (up_loop (T - 1) (λ t alphal,
              <[S t := vadd (logaddexp_reduce_axis1
                               (vadd (row alphal t) <$> transpose Al))
                            (row aBl (S t))]> alphal)
            alphal)
  end.

Definition messages_backwards (self : states) (aBl : list (list F))
  : list (list F) :=
  let betal := zeros2 (length aBl) (length (row aBl 0)) in
  let Al := mlog (trans_distn (model self)) in
  let T := length aBl in
  down_loop (T - 1) (λ t betal,
      <[t := logaddexp_reduce_axis1
               ((λ Alk, vadd (vadd Alk (row betal (S t))) (row aBl (S t)))
                  <$> Al)]> betal)
    betal.

(** The weights the loop of [sample_forwards] draws [stateseq[idx]] from:
    [nextstate_unsmoothed * np.exp(logdomain - np.amax(logdomain))], with
    [logdomain = betal[idx] + aBl[idx]] set to [-inf] where
    [nextstate_unsmoothed] is zero. *)
Definition sample_weights (nextstate_unsmoothed betal_idx aBl_idx : list F)
  : list F :=
  let logdomain := vadd betal_idx aBl_idx in
  let logdomain :=
    zip_with (λ p x, if feqb p fzero then neg_inf else x)
      nextstate_unsmoothed logdomain in
  vmul nextstate_unsmoothed
    ((λ x, fexp (fsub x (amax logdomain))) <$> logdomain).

(** One iteration of the loop of [sample_forwards]. *)
Definition sample_step (self : states) (aBl betal : list (list F))
    (idx : nat) (s : list nat * list F * rng F)
  : result (list nat * list F * rng F) :=
  let '(stateseq, nextstate_unsmoothed, g) := s in
  '(state, g) ← sample_discrete
      (sample_weights nextstate_unsmoothed (row betal idx) (row aBl idx)) g;
  mret (<[idx := state]> stateseq,
        row (trans_distn (model self)) state, g).

Fixpoint up_loopM {S : Type} (body : nat → S → result S) (ts : list nat)
    (s : S) : result S :=
  match ts with
  | [] => mret s
  | t :: ts => s' ← body t s; up_loopM body ts s'
  end.

Definition sample_forwards (self : states) (aBl betal : list (list F))
    (g : rng F) : result (states * rng F) :=
  let T := length aBl in
  let stateseq := replicate T 0 in
  '(stateseq, _, g) ← up_loopM (sample_step self aBl betal) (seq 0 T)
      (stateseq, pi_0 (model self), g);
  mret (set_stateseq stateseq self, g).

Definition resample (self : states) (g : rng F) : result (states * rng F) :=
  match data self with
  | None => raise AssertionError
  | Some data =>
      let aBl := get_aBl self data in
      let betal := messages_backwards self aBl in
      sample_forwards self aBl betal g
  end.

(** One iteration of the loop of [generate_states]:
    [stateseq[idx] = sample_discrete(nextstate_distn)], then
    [nextstate_distn = A[stateseq[idx]]]. *)
Definition generate_step (self : states) (idx : nat)
    (s : list nat * list F * rng F) : result (list nat * list F * rng F) :=
  let '(stateseq, nextstate_distn, g) := s in
  '(state, g) ← sample_discrete nextstate_distn g;
  let stateseq := <[idx := state]> stateseq in
  nextstate_distn ← getitem (trans_distn (model self)) state;
  mret (stateseq, nextstate_distn, g).

(** [generate_states]: sets [self.stateseq] and returns it. *)
Definition generate_states (self : states) (g : rng F)
  : result (states * list nat * rng F) :=
  let T := T self in
  '(stateseq, _, g) ← up_loopM (generate_step self) (seq 0 T)
      (replicate T 0, pi_0 (model self), g);
  mret (set_stateseq stateseq self, stateseq, g).

(** The methods [__init__] calls on [self]; a subclass overrides them. *)
Record init_methods : Type := {
  i_resample : states → rng F → result (states * rng F);
  i_generate_states : states → rng F → result (states * rng F)
}.

(** An object before [__init__] has set any attribute; the fields whose
    type has no value for "not set" hold a placeholder that no method
    reads before it is assigned. *)
Definition blank (m : Model F Obs) : states :=
  {| model := m; T := 0; data := None; stateseq := []; censoring := true;
     trunc := None; stateseq_norep := []; durations := []; aBl := None;
     changepoints := []; startpoints := []; blocklens := []; Tblock := 0;
     aBBl := None; aDl := None |}.

(** [self.model = model; self.T = T; self.data = data] *)
Definition set_model_T_data (m : Model F Obs) (T : nat)
    (data : option (list Obs)) (self : states) : states :=
  {| model := m; T := T; data := data; stateseq := stateseq self;
     censoring := censoring self; trunc := trunc self;
     stateseq_norep := stateseq_norep self; durations := durations self;
     aBl := aBl self; changepoints := changepoints self;
     startpoints := startpoints self; blocklens := blocklens self;
     Tblock := Tblock self; aBBl := aBBl self; aDl := aDl self |}.

(** [__init__(self,model,T,data,stateseq,initialize_from_prior)] on the
    object [self], on which a subclass may have set attributes already. *)
Definition init (cls : init_methods) (self : states) (m : Model F Obs)
    (T : option nat) (data : option (list Obs)) (stateseq : option (list nat))
    (initialize_from_prior : bool) (g : rng F) : result (states * rng F) :=
  py_assert (xorb (if data is None then true else false)
                  (if T is None then true else false));;
  let T := match data with
           | Some d => length d
           | None => default 0 T
           end in
  let self := set_model_T_data m T data self in
  match stateseq with
  | Some stateseq => mret (set_stateseq stateseq self, g)
  | None =>
      match data with
      | Some _ =>
          if negb initialize_from_prior then i_resample cls self g
          else i_generate_states cls self g
      | None => i_generate_states cls self g
      end
  end.

(** The method table of [HMMStatesPython] itself. *)
Definition init_cls : init_methods :=
  {| i_resample := resample;
     i_generate_states := λ self g,
       '(self, _, g) ← generate_states self g; mret (self, g) |}.
End Methods.
End HMMStatesPython.

(** ** [class HSMMStatesPython(HMMStatesPython)] *)

Module HSMMStatesPython.
Section Methods.
Context {F : Type} `{!FloatOps F} {Obs : Type}.
Abbreviation states := (states F Obs).

Definition cumulative_likelihoods (self : states) (start stop : nat)
  : result (list (list F)) :=
  aBl ← get_self_aBl self;
  mret (cumsum_axis0 (slice aBl start stop)).

Definition cumulative_likelihood_state (self : states) (start stop : nat)
    (state : nat) : result (list F) :=
  aBl ← get_self_aBl self;
  mret (cumsum (column (slice aBl start stop) state)).

(** does not include the stop index *)
Definition likelihood_block (self : states) (start : nat)
    (stop : option nat) : result (list F) :=
  aBl ← get_self_aBl self;
  mret (sum_axis0 (length (row aBl 0)) (slice_from aBl start stop)).

Definition likelihood_block_state (self : states) (start stop : nat)
    (state : nat) : result F :=
  aBl ← get_self_aBl self;
  mret (np_sum (column (slice aBl start stop) state)).

(** The body of the loop of [messages_backwards] at time [t]. *)
Definition backwards_step (self : states) (Al aDl aDsl : list (list F))
    (T trunc state_dim : nat) (t : nat)
    (s : list (list F) * list (list F))
  : result (list (list F) * list (list F)) :=
  let '(betal, betastarl) := s in
  cl ← cumulative_likelihoods self t (t + trunc);
  let betastarl :=
    <[t := logaddexp_reduce_axis0 state_dim
             (madd (madd (slice betal t (t + trunc)) cl)
                   (take (trunc `min` (T - t)) aDl))]> betastarl in
  betastarl ←
    (if (T - t <? trunc) && censoring self then
       lb ← likelihood_block self t None;
       mret (<[t := zip_with logaddexp (row betastarl t)
                      (vadd lb (row aDsl (T - t - 1)))]> betastarl)
     else mret betastarl);
  let betal :=
    <[wrap_index T (Z.of_nat t - 1) :=
        logaddexp_reduce_axis1 (vadd (row betastarl t) <$> Al)]> betal in
  mret (betal, betastarl).

Definition messages_backwards (self : states) (Al aDl aDsl : list (list F))
    (trunc : option nat) : result (list (list F) * list (list F)) :=
  let T := length aDl in
  let trunc := default T trunc in
  let state_dim := length Al in
  let betal := zeros2 T state_dim in
  let betastarl := zeros2 T state_dim in
  '(betal, betastarl) ←
    down_loopM T (backwards_step self Al aDl aDsl T trunc state_dim)
      (betal, betastarl);
  betal ← setitem (-1) (zeros state_dim) betal;
  mret (betal, betastarl).

(** [apmf[state_idx] = dur_distn.pmf(arange(1,T+1))] for each duration
    distribution, in a [state_dim] x [T] array. *)
Fixpoint fill_apmf (T : nat) (state_idx : nat) (ds : list (DurDistn F))
    (apmf : list (list F)) : result (list (list F)) :=
  match ds with
  | [] => mret apmf
  | dur_distn :: ds =>
      apmf ← setitem (Z.of_nat state_idx) (pmf dur_distn <$> seq 1 T) apmf;
      fill_apmf T (S state_idx) ds apmf
  end.

(** The inner loop of [sample_forwards], [while durprob > 0], for the
    segment of [state] that starts at [idx].  [dur_distn] is the variable
    the loop over [enumerate(self.model.dur_distns)] above it left bound:
    the last duration distribution.  ([prob_so_far] is never read and is
    left out; [durprob = -1] leaves the loop.) *)
Fixpoint duration_loop (self : states) (betal betastarl apmf : list (list F))
    (dur_distn : option (DurDistn F)) (idx state : nat)
    (fuel : nat) (durprob : F) (dur : nat) (g : rng F)
  : result (nat * rng F) :=
  let T := T self in
  if fltb fzero durprob then
    match fuel with
    | 0 => raise FuelExhausted
    | S fuel =>
        py_assert (dur <? 2 * T);;
        p_d_marg ← (if dur <? T
                    then r ← getitem apmf state; getitem r dur
                    else mret fone);
        py_assert (negb (fisnan p_d_marg));;
        py_assert (fleb fzero p_d_marg);;
        if feqb p_d_marg fzero then
          duration_loop self betal betastarl apmf dur_distn idx state
            fuel durprob (S dur) g
        else if idx + dur <? T then
          lb ← likelihood_block_state self idx (idx + dur + 1) state;
          b ← (r ← getitem betal (idx + dur); getitem r state);
          bs ← (r ← getitem betastarl idx; getitem r state);
          let mess_term := fexp (fsub (fadd lb b) bs) in
          let p_d := fmul mess_term p_d_marg in
          py_assert (negb (fisnan p_d));;
          duration_loop self betal betastarl apmf dur_distn idx state
            fuel (fsub durprob p_d) (S dur) g
        else if censoring self then
          match dur_distn with
          | None => raise (NameError "dur_distn")
          | Some dur_distn =>
              '(k, g) ← sample_discrete
                  (pmf dur_distn <$> seq (dur + 1) (3 * T - (dur + 1))) g;
              mret (dur + k, g)
          end
        else mret (dur + 1, g)
    end
  else mret (dur, g).

(** The distribution the outer loop of [sample_forwards] draws the state
    of the next segment from: [np.exp(logdomain) * nextstate_unsmoothed]
    with [logdomain = betastarl[idx] - np.amax(betastarl[idx])], and
    [np.exp(logdomain)] itself when that product is zero everywhere. *)
Definition nextstate_distr (betastarl_idx nextstate_unsmoothed : list F)
  : list F :=
  let logdomain := (λ x, fsub x (amax betastarl_idx)) <$> betastarl_idx in
  let nextstate_distr := vmul (vexp logdomain) nextstate_unsmoothed in
  if forallb (λ w, feqb w fzero) nextstate_distr
  then vexp logdomain   (* we'll just follow the messages *)
  else nextstate_distr.

(** [len(l) < 2 or l[-1] != l[-2]] *)
Definition last_two_differ (l : list nat) : bool :=
  match reverse l with
  | x :: y :: _ => negb (x =? y)
  | _ => true
  end.

(** One pass of the loop of [sample_forwards] from the point where the
    state of the segment is drawn; [loop] is the rest of the loop. *)
Definition segment_rest (self : states) (betal betastarl apmf : list (list F))
    (dur_distn : option (DurDistn F)) (idx : nat)
    (stateseq stateseq_norep durations : list nat)
    (loop : nat → list nat → list nat → list nat → list F → rng F →
            result (list nat * list nat * list nat * rng F))
    (state : nat) (g : rng F)
  : result (list nat * list nat * list nat * rng F) :=
  let T := T self in
  py_assert (match last stateseq_norep with
             | None => true
             | Some s => negb (state =? s)
             end);;
  let '(durprob, g) := random g in
  '(dur, g) ← duration_loop self betal betastarl apmf dur_distn
                idx state (2 * T + 1) durprob 0 g;
  py_assert (0 <? dur);;
  let stateseq := fill stateseq idx (idx + dur) state in
  let stateseq_norep := stateseq_norep ++ [state] in
  py_assert (last_two_differ stateseq_norep);;
  let durations := durations ++ [dur] in
  nextstate_unsmoothed ← getitem (trans_distn (model self)) state;
  loop (idx + dur) stateseq stateseq_norep durations nextstate_unsmoothed g.

(** The outer loop of [sample_forwards], [while idx < T]. *)
Fixpoint segment_loop (self : states) (betal betastarl apmf : list (list F))
    (dur_distn : option (DurDistn F)) (fuel : nat) (idx : nat)
    (stateseq stateseq_norep durations : list nat)
    (nextstate_unsmoothed : list F) (g : rng F)
  : result (list nat * list nat * list nat * rng F) :=
  if idx <? T self then
    match fuel with
    | 0 => raise FuelExhausted
    | S fuel =>
        bs ← getitem betastarl idx;
        '(state, g) ←
          sample_discrete (nextstate_distr bs nextstate_unsmoothed) g;
        segment_rest self betal betastarl apmf dur_distn idx
          stateseq stateseq_norep durations
          (segment_loop self betal betastarl apmf dur_distn fuel) state g
    end
  else mret (stateseq, stateseq_norep, durations, g).

Definition sample_forwards (self : states) (betal betastarl : list (list F))
    (g : rng F) : result (states * rng F) :=
  let T := T self in
  let state_dim := state_dim (model self) in
  apmf ← fill_apmf T 0 (dur_distns (model self)) (zeros2 state_dim T);
  '(stateseq, stateseq_norep, durations, g) ←
    segment_loop self betal betastarl apmf (last (dur_distns (model self)))
      T 0 (replicate T 0) [] [] (pi_0 (model self)) g;
  mret (set_stateseq_norep stateseq_norep
          (set_durations durations (set_stateseq stateseq self)), g).

(** The methods [resample] calls on [self]; a subclass overrides them. *)
Record methods : Type := {
  m_get_aBl : states → list Obs → result (states * option (list (list F)));
  m_messages_backwards :
    states → list (list F) → list (list F) → list (list F) → option nat →
    result (states * (list (list F) * list (list F)));
  m_sample_forwards :
    states → list (list F) → list (list F) → rng F → result (states * rng F)
}.

Definition resample (cls : methods) (self : states) (g : rng F)
  : result (states * rng F) :=
  match data self with
  | None => raise AssertionError
  | Some data =>
      let Al := mlog (trans_distn (model self)) in
      let T := T self in
      let trunc := default T (trunc self) in
      let self := set_trunc (Some trunc) self in
      (* generate and cache likelihood values *)
      '(self, aBl) ← m_get_aBl cls self data;
      let self := set_aBl (Some aBl) self in
      (* generate duration pmf and sf values *)
      let aDl := (λ d, (λ dur_distn, log_pmf dur_distn (S d))
                         <$> dur_distns (model self)) <$> seq 0 T in
      let aDsl := (λ d, (λ dur_distn, log_sf dur_distn (S d))
                          <$> dur_distns (model self)) <$> seq 0 T in
      (* run backwards message passing *)
      '(self, (betal, betastarl)) ←
        m_messages_backwards cls self Al aDl aDsl (Some trunc);
      (* sample forwards *)
      m_sample_forwards cls self betal betastarl g
  end.

(** The method table of [HSMMStatesPython] itself. *)
Definition cls : methods :=
  {| m_get_aBl := λ self data,
       mret (self, Some (HMMStatesPython.get_aBl self data));
     m_messages_backwards := λ self Al aDl aDsl trunc,
       r ← messages_backwards self Al aDl aDsl trunc; mret (self, r);
     m_sample_forwards := sample_forwards |}.

Section Generate.
(** [dur_distn.rvs()]: the duration distributions are not under [src/];
    the draw of a duration is a parameter. *)
Variable rvs : DurDistn F → rng F → nat * rng F.

(** The loop of [generate_states], [while idx < self.T]. *)
Fixpoint generate_loop (self : states) (fuel : nat) (idx : nat)
    (stateseq durations : list nat) (nextstate_distr : list F) (g : rng F)
  : result (list nat * list nat * rng F) :=
  if idx <? T self then
    match fuel with
    | 0 => raise FuelExhausted
    | S fuel =>
        (* sample a state *)
        '(state, g) ← sample_discrete nextstate_distr g;
        (* sample a duration for that state *)
        dur_distn ← getitem (dur_distns (model self)) state;
        let '(duration, g) := rvs dur_distn g in
        (* save everything *)
        let durations := durations ++ [duration] in
        (* this can run off the end, that's okay *)
        let stateseq := fill stateseq idx (idx + duration) state in
        (* set up next state distribution *)
        nextstate_distr ← getitem (trans_distn (model self)) state;
        (* update index *)
        generate_loop self fuel (idx + duration) stateseq durations
          nextstate_distr g
    end
  else mret (stateseq, durations, g).

(** [generate_states]; [np_empty T] is the array [np.empty(self.T)], of
    arbitrary content. *)
Definition generate_states (fuel : nat) (np_empty : nat → list nat)
    (self : states) (g : rng F) : result (states * rng F) :=
  '(stateseq, durations, g) ←
    generate_loop self fuel 0 (np_empty (T self)) [] (pi_0 (model self)) g;
  mret (set_durations durations
          (set_stateseq_norep (rle stateseq).1
             (set_stateseq stateseq self)), g).

(** The methods [HMMStatesPython.__init__] finds in this class. *)
Definition init_cls (fuel : nat) (np_empty : nat → list nat)
  : HMMStatesPython.init_methods :=
  {| HMMStatesPython.i_resample := resample cls;
     HMMStatesPython.i_generate_states := generate_states fuel np_empty |}.

(** [self.censoring = censoring; self.trunc = trunc] *)
Definition set_censoring_trunc (censoring : bool) (trunc : option nat)
    (self : states) : states :=
  {| model := model self; T := T self; data := data self;
     stateseq := stateseq self;
     censoring := censoring; trunc := trunc;
     stateseq_norep := stateseq_norep self; durations := durations self;
     aBl := aBl self; changepoints := changepoints self;
     startpoints := startpoints self; blocklens := blocklens self;
     Tblock := Tblock self; aBBl := aBBl self; aDl := aDl self |}.

(** [self.stateseq_norep, self.durations = util.rle(self.stateseq)] *)
Definition set_rle (self : states) : states :=
  let '(stateseq_norep, durations) := rle (stateseq self) in
  set_durations durations (set_stateseq_norep stateseq_norep self).

(** [__init__(self,model,censoring,trunc,*args,**kwargs)] on the object
    [self], on which a subclass may have set attributes already. *)
Definition init (icls : HMMStatesPython.init_methods) (self : states)
    (m : Model F Obs) (censoring : bool) (trunc : option nat)
    (T : option nat) (data : option (list Obs)) (stateseq : option (list nat))
    (initialize_from_prior : bool) (g : rng F) : result (states * rng F) :=
  let self := set_censoring_trunc censoring trunc self in
  '(self, g) ← HMMStatesPython.init icls self m T data stateseq
                 initialize_from_prior g;
  mret (set_rle self, g).
End Generate.
End Methods.
End HSMMStatesPython.

(** ** [class HSMMStatesEigen(HSMMStatesPython)] *)

Module HSMMStatesEigen.
Section Methods.
Context {F : Type} `{!FloatOps F} {Obs : Type}.
Abbreviation states := (states F Obs).

(** Modelled from the spec: [cpp_eigen_code/hsmm_sample_forwards.cpp] is
    not under [src/].  The native sampler is a drop-in replacement of the
    sampling loop: it fills the state sequence it is handed from the
    messages and the random draws. *)
Variable hsmm_sample_forwards_codestr :
  list (list F) → list (list F) → list (list F) → list nat →
  list (list F) → list F → list (list F) → nat → nat → rng F →
  list nat * rng F.

Definition sample_forwards (self : states) (betal betastarl : list (list F))
    (g : rng F) : result (states * rng F) :=
  aBl ← match aBl self with
        | None => raise (AttributeError "aBl")
        | Some v => mret v
        end;
  aBl ← match aBl with None => raise TypeError | Some m => mret m end;
  let stateseq := replicate (length betal) 0 in
  let A := trans_distn (model self) in
  let pi0 := pi_0 (model self) in
  let M := state_dim (model self) in
  let T := T self in
  apmf ← HSMMStatesPython.fill_apmf T 0 (dur_distns (model self))
           (zeros2 M T);
  let '(stateseq, g) :=
    hsmm_sample_forwards_codestr betal betastarl aBl stateseq A pi0 apmf
      M T g in
  let '(stateseq_norep, durations) := rle stateseq in
  if censoring self then
    dur ← getitem_z durations (-1);
    s ← getitem_z stateseq_norep (-1);
    dur_distn ← getitem (dur_distns (model self)) s;
    '(k, g) ← sample_discrete
        (pmf dur_distn <$> seq (dur + 1) (3 * T - (dur + 1))) g;
    durations ← setitem (-1) (dur + k) durations;
    mret (set_stateseq stateseq
            (set_durations durations
               (set_stateseq_norep stateseq_norep self)), g)
  else
    mret (set_stateseq stateseq
            (set_durations durations
               (set_stateseq_norep stateseq_norep self)), g).
End Methods.
End HSMMStatesEigen.

(** ** [class HSMMStatesPossibleChangepoints(HSMMStatesPython)] *)

Module HSMMStatesPossibleChangepoints.
Section Methods.
Context {F : Type} `{!FloatOps F} {Obs : Type}.
Abbreviation states := (states F Obs).

(** The attributes [__init__] derives from [changepoints].  A block
    length [stop - start] is a natural number: the definition is that of
    the code for changepoints with [start <= stop], which is what the
    theorems on it assume ([intervals], [tiles], [singletons]). *)
Definition init_changepoints (changepoints : list (nat * nat))
    (self : states) : states :=
  {| model := model self; T := T self; data := data self;
     stateseq := stateseq self; censoring := censoring self;
     trunc := trunc self; stateseq_norep := stateseq_norep self;
     durations := durations self; aBl := aBl self;
     changepoints := changepoints;
     startpoints := fst <$> changepoints;
     blocklens := (λ c, snd c - fst c) <$> changepoints;
     Tblock := length changepoints;
     aBBl := aBBl self; aDl := aDl self |}.

(** [np.cumsum] of an integer array *)
Definition cumsum_int (v : list nat) : list nat :=
  match v with
  | [] => []
  | x :: xs => x :: scan Nat.add x xs
  end.

(** [possible_durations = self.blocklens[tblock:].cumsum()] cut down to
    the entries [< max(trunc,possible_durations[0]+1)] *)
Definition possible_durations (self : states) (trunc tblock : nat)
  : result (list nat) :=
  let possible_durations := cumsum_int (drop tblock (blocklens self)) in
  d0 ← getitem possible_durations 0;
  mret (filter (λ d, d < trunc `max` (d0 + 1)) possible_durations).

(** [aDl[possible_durations-1]] *)
Definition duration_rows (aDl : list (list F)) (possible_durations : list nat)
  : result (list (list F)) :=
  mapM (λ d, getitem_z aDl (Z.of_nat d - 1)) possible_durations.

Definition block_cumulative_likelihoods (self : states)
    (startblock stopblock : nat) (possible_durations : list nat)
  : result (list (list F)) :=
  aBBl ← get_self_aBBl self;
  mret (take (length possible_durations)
          (cumsum_axis0 (slice aBBl startblock stopblock))).

Definition block_cumulative_likelihood_state (self : states)
    (startblock stopblock : nat) (state : nat)
    (possible_durations : list nat) : result (list F) :=
  aBBl ← get_self_aBBl self;
  mret (take (length possible_durations)
          (cumsum (column (slice aBBl startblock stopblock) state))).

(** The body of the loop of [messages_backwards] at block [tblock]. *)
Definition backwards_step (self : states) (Al aDl : list (list F))
    (Tblock trunc state_dim : nat) (tblock : nat)
    (s : list (list F) * list (list F))
  : result (list (list F) * list (list F)) :=
  let '(betal, betastarl) := s in
  possible_durations ← possible_durations self trunc tblock;
  let truncblock := length possible_durations in
  aD ← duration_rows aDl possible_durations;
  let normalizer := logaddexp_reduce_axis0 state_dim aD in
  bcl ← block_cumulative_likelihoods self tblock (tblock + truncblock)
          possible_durations;
  let betastarl :=
    <[tblock := logaddexp_reduce_axis0 state_dim
        ((λ r, vsub r normalizer) <$>
           madd (madd (slice betal tblock (tblock + truncblock)) bcl) aD)]>
      betastarl in
  (* TODO TODO put censoring here, must implement likelihood_block *)
  let betal :=
    <[wrap_index Tblock (Z.of_nat tblock - 1) :=
        logaddexp_reduce_axis1 (vadd (row betastarl tblock) <$> Al)]>
      betal in
  mret (betal, betastarl).

Definition has_nan (M : list (list F)) : bool :=
  existsb (existsb fisnan) M.

Definition messages_backwards (self : states) (Al aDl aDsl : list (list F))
    (trunc : option nat)
  : result (states * (list (list F) * list (list F))) :=
  let Tblock := Tblock self in
  let state_dim := length Al in
  let betal := zeros2 Tblock state_dim in
  let betastarl := zeros2 Tblock state_dim in
  let trunc := default (T self) trunc in
  '(betal, betastarl) ←
    down_loopM Tblock (backwards_step self Al aDl Tblock trunc state_dim)
      (betal, betastarl);
  betal ← setitem (-1) (zeros state_dim) betal;
  py_assert (negb (has_nan betal));;
  py_assert (negb (has_nan betastarl));;
  (* set self.aDl so that this class's sample_forwards() can get it *)
  mret (set_aDl (Some aDl) self, (betal, betastarl)).

(** [aBBl[idx] = aBl[start:stop].sum(0)] for each changepoint *)
Fixpoint fill_aBBl (K : nat) (aBl : list (list F)) (idx : nat)
    (cps : list (nat * nat)) (aBBl : list (list F))
  : result (list (list F)) :=
  match cps with
  | [] => mret aBBl
  | (start, stop) :: cps =>
      aBBl ← setitem (Z.of_nat idx) (sum_axis0 K (slice aBl start stop)) aBBl;
      fill_aBBl K aBl (S idx) cps aBBl
  end.

(** this method also sets self.aBBl for block likelihoods *)
Definition get_aBl (self : states) (data : list Obs)
  : result (states * option (list (list F))) :=
  let aBBl := zeros2 (Tblock self) (state_dim (model self)) in
  let aBl := HMMStatesPython.get_aBl self data in
  aBBl ← fill_aBBl (state_dim (model self)) aBl 0 (changepoints self) aBBl;
  mret (set_aBBl (Some aBBl) self, None).

(** The loop of [sample_forwards], [while tblock < Tblock]. *)
Fixpoint block_loop (self : states) (aDl betal betastarl : list (list F))
    (Tblock trunc : nat) (fuel : nat) (tblock : nat)
    (blockstateseq : list nat) (nextstate_unsmoothed : list F) (g : rng F)
  : result (list nat * rng F) :=
  if tblock <? Tblock then
    match fuel with
    | 0 => raise FuelExhausted
    | S fuel =>
        (* sample the state *)
        bs ← getitem betastarl tblock;
        let logdomain := (λ x, fsub x (amax bs)) <$> bs in
        let nextstate_distr := vmul (vexp logdomain) nextstate_unsmoothed in
        '(state, g) ← sample_discrete nextstate_distr g;
        (* compute possible duration info (indep. of state) *)
        possible_durations ← possible_durations self trunc tblock;
        let truncblock := length possible_durations in
        '(blockdur, g) ←
          (if 1 <? truncblock then
             loglikelihoods ← block_cumulative_likelihood_state self tblock
                                (tblock + truncblock) state possible_durations;
             aD ← mapM (λ d, r ← getitem_z aDl (Z.of_nat d - 1);
                             getitem r state) possible_durations;
             b ← mapM (λ r, getitem r state)
                   (slice betal tblock (tblock + truncblock));
             bst ← getitem bs state;
             let logpmf :=
               (λ x, fsub x bst) <$> vadd (vadd aD loglikelihoods) b in
             '(k, g) ← sample_discrete_from_log logpmf g;
             mret (k + 1, g)
           else mret (1, g));
        (* set block sequence *)
        let blockstateseq :=
          fill blockstateseq tblock (tblock + blockdur) state in
        (* set up next iteration *)
        nextstate_unsmoothed ← getitem (trans_distn (model self)) state;
        block_loop self aDl betal betastarl Tblock trunc fuel
          (tblock + blockdur) blockstateseq nextstate_unsmoothed g
    end
  else mret (blockstateseq, g).

Definition sample_forwards (self : states) (betal betastarl : list (list F))
    (g : rng F) : result (states * rng F) :=
  aDl ← get_self_aDl self;
  let Tblock := length betal in
  py_assert (Tblock =? length (changepoints self));;
  let blockstateseq := replicate Tblock 0 in
  let trunc := default (T self) (trunc self) in
  '(blockstateseq, g) ←
    block_loop self aDl betal betastarl Tblock trunc Tblock 0 blockstateseq
      (pi_0 (model self)) g;
  (* convert block state sequence to full stateseq and stateseq_norep and
     durations *)
  let stateseq :=
    foldl (λ stateseq sc, fill stateseq (fst (snd sc)) (snd (snd sc)) (fst sc))
      (replicate (T self) 0) (zip blockstateseq (changepoints self)) in
  let '(stateseq_norep, durations) := rle stateseq in
  (* clean up the data passed to us from this class's messages_backwards *)
  mret (set_aDl None
          (set_durations durations
             (set_stateseq_norep stateseq_norep
                (set_stateseq stateseq self))), g).

(** The method table of the class: [resample] is inherited. *)
Definition cls : HSMMStatesPython.methods :=
  {| HSMMStatesPython.m_get_aBl := get_aBl;
     HSMMStatesPython.m_messages_backwards := messages_backwards;
     HSMMStatesPython.m_sample_forwards := sample_forwards |}.

Definition resample : states → rng F → result (states * rng F) :=
  HSMMStatesPython.resample cls.

(** [__init__(self,model,changepoints,*args,**kwargs)] *)
Definition init (icls : HMMStatesPython.init_methods) (m : Model F Obs)
    (changepoints : list (nat * nat)) (censoring : bool) (trunc : option nat)
    (T : option nat) (data : option (list Obs)) (stateseq : option (list nat))
    (initialize_from_prior : bool) (g : rng F) : result (states * rng F) :=
  let self := init_changepoints changepoints (HMMStatesPython.blank m) in
  HSMMStatesPython.init icls self m censoring trunc T data stateseq
    initialize_from_prior g.

(** The loop of [generate_states], [while tblock < Tblock]. *)
Fixpoint generate_loop (self : states) (Tblock : nat) (fuel : nat)
    (tblock : nat) (blockstateseq : list nat) (nextstate_distr : list F)
    (g : rng F) : result (list nat * rng F) :=
  if tblock <? Tblock then
    match fuel with
    | 0 => raise FuelExhausted
    | S fuel =>
        (* sample the state *)
        '(state, g) ← sample_discrete nextstate_distr g;
        (* compute possible duration info (indep. of state) *)
        let possible_durations := cumsum_int (drop tblock (blocklens self)) in
        (* compute the pmf over those steps *)
        dur_distn ← getitem (dur_distns (model self)) state;
        let durprobs := pmf dur_distn <$> possible_durations in
        let durprobs := (λ p, fdiv p (np_sum durprobs)) <$> durprobs in
        (* sample it *)
        '(k, g) ← sample_discrete durprobs g;
        let blockdur := k + 1 in
        (* set block sequence *)
        let blockstateseq :=
          fill blockstateseq tblock (tblock + blockdur) state in
        (* set up next iteration *)
        nextstate_distr ← getitem (trans_distn (model self)) state;
        generate_loop self Tblock fuel (tblock + blockdur) blockstateseq
          nextstate_distr g
    end
  else mret (blockstateseq, g).

(** [generate_states]: sets [stateseq], [stateseq_norep] and [durations]
    and returns the state sequence. *)
Definition generate_states (self : states) (g : rng F)
  : result (states * list nat * rng F) :=
  let Tblock := Tblock self in
  py_assert (Tblock =? length (changepoints self));;
  '(blockstateseq, g) ←
    generate_loop self Tblock Tblock 0 (replicate Tblock 0)
      (pi_0 (model self)) g;
  (* convert block state sequence to full stateseq and stateseq_norep and
     durations *)
  let stateseq :=
    foldl (λ stateseq sc, fill stateseq (fst (snd sc)) (snd (snd sc)) (fst sc))
      (replicate (T self) 0) (zip blockstateseq (changepoints self)) in
  let '(stateseq_norep, durations) := rle stateseq in
  mret (set_durations durations
          (set_stateseq_norep stateseq_norep (set_stateseq stateseq self)),
        stateseq, g).

(** The methods [HMMStatesPython.__init__] finds in this class. *)
Definition init_cls : HMMStatesPython.init_methods :=
  {| HMMStatesPython.i_resample := resample;
     HMMStatesPython.i_generate_states := λ self g,
       '(self, _, g) ← generate_states self g; mret (self, g) |}.
End Methods.
End HSMMStatesPossibleChangepoints.

(** ** [class HSMMStatesGeoApproximation(HSMMStatesPython)] *)

Module HSMMStatesGeoApproximation.
Section Methods.
Context {F : Type} `{!FloatOps F} {Obs : Type}.

(** The transition distribution is an object that this class shares and
    assigns to: the store maps each such object to its attribute [A]. *)
Abbreviation loc := nat.
Abbreviation store := (gmap nat (list (list F))).

(** [self._hmm_states], an [HMMStates] object on the same model.
    [HMMStatesPython.__init__] sets no attribute [transition_distn]:
    [hs_transition_distn] is [None] unless a caller has set it. *)
Record hmm_states : Type := {
  hs_model : model_of F Obs loc;
  hs_transition_distn : option loc
}.

(** The attributes of [self] that [messages_backwards] reads.  No method
    of the class hierarchy sets [self.state_dim]: [g_state_dim] is [None]
    unless a caller has set it. *)
Record geo_states : Type := {
  g_model : model_of F Obs loc;
  g_censoring : bool;
  g_aBl : option (option (list (list F)));
  g_state_dim : option nat;
  g_hmm_states : option hmm_states
}.

(** [HMMStates(model=self.model,data=self.data,stateseq=self.stateseq)] *)
Definition init_hmm_states (m : model_of F Obs loc) : hmm_states :=
  {| hs_model := m; hs_transition_distn := None |}.

(** [m.trans_distn.A] *)
Definition get_A (σ : store) (m : model_of F Obs loc)
  : result (list (list F)) :=
  match σ !! trans_distn m with
  | Some A => mret A
  | None => raise (AttributeError "A")
  end.

(** The object as the inherited methods see it, with the matrix [A] of
    its model. *)
Definition as_states (A : list (list F)) (m : model_of F Obs loc)
    (censoring : bool) (aBl : option (option (list (list F))))
  : states F Obs :=
  {| model := {| state_dim := state_dim m; trans_distn := A;
                 pi_0 := pi_0 m; obs_distns := obs_distns m;
                 dur_distns := dur_distns m |};
     T := 0; data := None; stateseq := []; censoring := censoring;
     trunc := None; stateseq_norep := []; durations := [];
     aBl := aBl; changepoints := []; startpoints := []; blocklens := [];
     Tblock := 0; aBBl := None; aDl := None |}.

(** [M.flat[::step] = vals]: entry [p] of the flattened matrix, for [p]
    a multiple of [step], becomes [vals (p / step)]. *)
Definition flat_assign (step : nat) (vals : nat → F) (M : list (list F))
  : list (list F) :=
  let ncols := length (row M 0) in
  imap (λ i r,
      imap (λ j x, let p := i * ncols + j in
                   if decide (p `mod` step = 0) then vals (p `div` step)
                   else x) r) M.

(** [[np.exp(d.log_pmf(trunc+1)-d.log_pmf(trunc))[0] for d in dur_distns]] *)
Definition thediag (ds : list (DurDistn F)) (trunc : nat) : list F :=
  (λ d, fexp (fsub (log_pmf d (trunc + 1)) (log_pmf d trunc))) <$> ds.

(** The matrix [hmm_A] built from [A], [self.state_dim] and [thediag]. *)
Definition build_hmm_A (A : list (list F)) (state_dim : nat)
    (thediag : list F) : list (list F) :=
  let hmm_A := flat_assign (state_dim + 1) (λ _, fzero) A in
  let scale := zip_with fdiv ((λ x, fsub fone x) <$> thediag)
                 (sum_axis1 hmm_A) in
  let hmm_A := zip_with (λ r c, (λ x, fmul x c) <$> r) hmm_A scale in
  flat_assign (state_dim + 1) (at_ thediag) hmm_A.

(** The body of the second loop of [messages_backwards] at time [t]. *)
Definition backwards_step (self : states F Obs)
    (hmm_betal Al aDl aDsl : list (list F))
    (T trunc state_dim : nat) (t : nat)
    (s : list (list F) * list (list F))
  : result (list (list F) * list (list F)) :=
  let '(betal, betastarl) := s in
  cl ← HSMMStatesPython.cumulative_likelihoods self t (t + trunc);
  let betastarl :=
    <[t := logaddexp_reduce_axis0 state_dim
             (madd (madd (slice betal t (t + trunc)) cl)
                   (take (trunc `min` (T - t)) aDl))]> betastarl in
  (* geometric approximation term using HMM messages *)
  betastarl ←
    (if t + trunc <? T then
       lb ← HSMMStatesPython.likelihood_block self t (Some (t + trunc + 1));
       mret (<[t := zip_with logaddexp (row betastarl t)
                      (vadd (vadd lb (row aDsl (trunc - 1)))
                            (row hmm_betal (t + trunc)))]> betastarl)
     else mret betastarl);
  betastarl ←
    (if (T - t <? trunc) && censoring self then
       lb ← HSMMStatesPython.likelihood_block self t None;
       mret (<[t := zip_with logaddexp (row betastarl t)
                      (vadd lb (row aDsl (T - t - 1)))]> betastarl)
     else mret betastarl);
  let betal :=
    <[wrap_index T (Z.of_nat t - 1) :=
        logaddexp_reduce_axis1 (vadd (row betastarl t) <$> Al)]> betal in
  mret (betal, betastarl).

(** approximates duration tails at indices > trunc with geometric tails *)
Definition messages_backwards (σ : store) (self : geo_states)
    (Al aDl aDsl : list (list F)) (trunc : option nat)
  : result (store * (list (list F) * list (list F))) :=
  (* in Python 2 [None > 0] is false *)
  trunc ← match trunc with
          | None => raise AssertionError
          | Some trunc => mret trunc
          end;
  py_assert (0 <? trunc);;
  py_assert (1 <? trunc);;
  (* run HMM message passing for tail approximation *)
  A ← get_A σ (g_model self);
  state_dim ← match g_state_dim self with
              | None => raise (AttributeError "state_dim")
              | Some n => mret n
              end;
  let hmm_A :=
    build_hmm_A A state_dim (thediag (dur_distns (g_model self)) trunc) in
  hs ← match g_hmm_states self with
       | None => raise (AttributeError "_hmm_states")
       | Some hs => mret hs
       end;
  td ← match hs_transition_distn hs with
       | None => raise (AttributeError "transition_distn")
       | Some td => mret td
       end;
  let σ := <[td := hmm_A]> σ in
  aBl ← match g_aBl self with
        | None => raise (AttributeError "aBl")
        | Some None => raise (AttributeError "shape")
        | Some (Some aBl) => mret aBl
        end;
  hmm_model_A ← get_A σ (hs_model hs);
  let hmm_betal :=
    HMMStatesPython.messages_backwards
      (as_states hmm_model_A (hs_model hs) false None) aBl in
  (* run HSMM message passing almost as before *)
  self_A ← get_A σ (g_model self);
  let self' := as_states self_A (g_model self) (g_censoring self)
                 (g_aBl self) in
  let T := length aDl in
  let state_dim := length Al in
  let betal := zeros2 T state_dim in
  let betastarl := zeros2 T state_dim in
  '(betal, betastarl) ←
    down_loopM T (backwards_step self' hmm_betal Al aDl aDsl T trunc state_dim)
      (betal, betastarl);
  betal ← setitem (-1) (zeros state_dim) betal;
  mret (σ, (betal, betastarl)).
(** [self.data] and [self.stateseq] *)
Definition get_data (self : states F Obs) : option (list Obs) := data self.
Definition get_stateseq (self : states F Obs) : list nat := stateseq self.

(** The methods [HMMStatesPython.__init__] finds in this class:
    [generate_states] is the inherited one; [resample] is the inherited
    one on the overridden [messages_backwards]. *)
Definition init_cls (rvs : DurDistn F → rng F → nat * rng F)
    (fuel : nat) (np_empty : nat → list nat)
    (resample : states F Obs → rng F → result (states F Obs * rng F))
  : HMMStatesPython.init_methods :=
  {| HMMStatesPython.i_resample := resample;
     HMMStatesPython.i_generate_states :=
       HSMMStatesPython.generate_states rvs fuel np_empty |}.

(** [__init__(self,*args,**kwargs)], as the inherited constructors see
    the object: it returns [self] and the object [self._hmm_states].
    [HMMStates] is [HMMStatesPython], or [HMMStatesEigen], whose
    [__init__] only calls that of [HMMStatesPython]. *)
Definition init (icls : HMMStatesPython.init_methods)
    (self : states F Obs) (m : Model F Obs) (censoring : bool)
    (trunc : option nat) (T : option nat) (data : option (list Obs))
    (stateseq : option (list nat)) (initialize_from_prior : bool)
    (g : rng F) : result (states F Obs * states F Obs * rng F) :=
  '(self, g) ← HSMMStatesPython.init icls self m censoring trunc T data
                 stateseq initialize_from_prior g;
  '(hmm_states, g) ←
    HMMStatesPython.init HMMStatesPython.init_cls
      (HMMStatesPython.blank (model self)) (model self) None
      (get_data self) (Some (get_stateseq self)) true g;
  mret (self, hmm_states, g).
End Methods.
End HSMMStatesGeoApproximation.

(** ** An exact instance of the arithmetic

    [Lin q] is the rational [q]; [Log q], for [q >= 0], is the natural
    logarithm of [q], with [Log 0] for [-inf]; [ln 1] is [Lin 0].  [NaN]
    stands for not-a-number and for every result outside this fragment of
    the reals (the sum of a rational and a logarithm, a division by zero).
    Inside the fragment the operations are those of real arithmetic, with
    no rounding; every value is kept in lowest terms, so that equal numbers
    are equal terms. *)

Module ExactReal.
Inductive xreal : Type :=
  | Lin (q : Q)
  | Log (q : Q)
  | NaN.

Definition lin (q : Q) : xreal := Lin (Qred q).

Definition mklog (q : Q) : xreal :=
  if Qeq_bool q 1 then Lin 0
  else if Qle_bool 0 q then Log (Qred q) else NaN.

(** [x] as a rational *)
Definition as_lin (x : xreal) : option Q :=
  match x with
  | Lin q => Some q
  | _ => None
  end.

(** [e^x] as a rational *)
Definition as_log (x : xreal) : option Q :=
  match x with
  | Log q => Some q
  | Lin q => if Qeq_bool q 0 then Some 1%Q else None
  | NaN => None
  end.

Definition lift_lin (f : Q → Q → xreal) (x y : xreal) (other : xreal)
  : xreal :=
  match as_lin x, as_lin y with
  | Some a, Some b => f a b
  | _, _ => other
  end.

Definition lift_log (f : Q → Q → xreal) (x y : xreal) : xreal :=
  match as_log x, as_log y with
  | Some a, Some b => f a b
  | _, _ => NaN
  end.

Definition xadd (x y : xreal) : xreal :=
  lift_lin (λ a b, lin (a + b)) x y
    (lift_log (λ a b, mklog (a * b)) x y).

Definition xsub (x y : xreal) : xreal :=
  lift_lin (λ a b, lin (a - b)) x y
    (lift_log (λ a b, if Qeq_bool b 0 then NaN else mklog (a / b)) x y).

Definition xmul (x y : xreal) : xreal :=
  lift_lin (λ a b, lin (a * b)) x y NaN.

Definition xdiv (x y : xreal) : xreal :=
  lift_lin (λ a b, if Qeq_bool b 0 then NaN else lin (a / b)) x y NaN.

Definition xexp (x : xreal) : xreal :=
  match as_log x with
  | Some a => lin a
  | None => NaN
  end.

Definition xlog (x : xreal) : xreal :=
  match x with
  | Lin q => mklog q
  | _ => NaN
  end.

Definition xlogaddexp (x y : xreal) : xreal :=
  lift_log (λ a b, mklog (a + b)) x y.

(** The order of two numbers of the fragment: both rational, or both
    logarithms (the logarithm is increasing). *)
Definition xcompare (x y : xreal) : option comparison :=
  match as_lin x, as_lin y with
  | Some a, Some b => Some (Qcompare a b)
  | _, _ =>
      match as_log x, as_log y with
      | Some a, Some b => Some (Qcompare a b)
      | _, _ => None
      end
  end.

Definition xmax (x y : xreal) : xreal :=
  match xcompare x y with
  | Some Lt => y
  | Some _ => x
  | None => NaN
  end.

Definition xeqb (x y : xreal) : bool :=
  match xcompare x y with Some Eq => true | _ => false end.

Definition xltb (x y : xreal) : bool :=
  match xcompare x y with Some Lt => true | _ => false end.

Definition xleb (x y : xreal) : bool :=
  match xcompare x y with Some Lt | Some Eq => true | _ => false end.

Definition xisnan (x : xreal) : bool :=
  match x with NaN => true | _ => false end.

#[global] Instance xreal_ops : FloatOps xreal := {|
  fzero := Lin 0;
  fone := Lin 1;
  neg_inf := Log 0;
  fadd := xadd;
  fsub := xsub;
  fmul := xmul;
  fdiv := xdiv;
  fexp := xexp;
  flog := xlog;
  logaddexp := xlogaddexp;
  fmax := xmax;
  feqb := xeqb;
  fltb := xltb;
  fleb := xleb;
  fisnan := xisnan
|}.

(** A duration distribution given by its pmf on [1..], of finite
    support: [log_pmf] and [log_sf] are derived from it. *)
Definition pmf_of (ps : list Q) (d : nat) : Q :=
  match d with
  | 0 => 0
  | S i => default 0%Q (ps !! i)
  end.

Definition sf_of (ps : list Q) (d : nat) : Q :=
  foldr Qplus 0%Q (drop d ps).

Definition dur_distn_of (ps : list Q) : DurDistn xreal :=
  {| pmf := λ d, lin (pmf_of ps d);
     log_pmf := λ d, mklog (pmf_of ps d);
     log_sf := λ d, mklog (sf_of ps d) |}.
End ExactReal.

(** ** What the claims talk about *)

Section Specs.
Context {F : Type} `{!FloatOps F}.

(** [M[t,k]] *)
Definition at2 (M : list (list F)) (t k : nat) : F := at_ (row M t) k.

(** [M.shape == (r,c)] *)
Definition has_shape (r c : nat) (M : list (list F)) : bool :=
  (length M =? r) && forallb (λ v, length v =? c) M.

(** [sum_{s=start}^{stop-1} aBl[s,k]]: [cumulative_loglik(start,stop,k)],
    and [likelihood_block(start,stop,k)] *)
Definition cumulative_loglik (aBl : list (list F)) (start stop k : nat) : F :=
  np_sum (column (slice aBl start stop) k).

(** The terms [betal[t+d,k] + cumulative_loglik(t,t+d+1,k) + aDl[d,k]] for
    [d] in [0..n-1]. *)
Definition duration_terms (betal aBl aDl : list (list F)) (t k n : nat)
  : list F :=
  (λ d, fadd (fadd (at2 betal (t + d) k) (cumulative_loglik aBl t (t + d + 1) k))
             (at2 aDl d k)) <$> seq 0 n.

(** The censored term [likelihood_block(t,T,k) + aDsl[T-t-1,k]]. *)
Definition censored_term (aBl aDsl : list (list F)) (T t k : nat) : F :=
  fadd (cumulative_loglik aBl t T k) (at2 aDsl (T - t - 1) k).

(** The value the spec gives [betastarl[t,k]]. *)
Definition betastarl_spec (censoring : bool) (betal aBl aDl aDsl : list (list F))
    (T trunc t k : nat) : F :=
  let base := logsumexp (duration_terms betal aBl aDl t k (trunc `min` (T - t))) in
  if (T - t <? trunc) && censoring
  then logaddexp base (censored_term aBl aDsl T t k)
  else base.

(** [logsumexp_j(betastarl[t,j] + Al[k,j])] *)
Definition mix_next (betastarl Al : list (list F)) (t k : nat) : F :=
  logsumexp (vadd (row betastarl t) (row Al k)).
End Specs.

(** ** The forward recursion and the sum over paths *)

Section ForwardSpec.
Context {F : Type} `{!FloatOps F} {Obs : Type}.

(** [logsumexp_j(alphal[t,j] + Al[j,k])] *)
Definition forward_mix (alphal Al : list (list F)) (t k : nat) : F :=
  logsumexp (vadd (row alphal t) (column Al k)).

(** The state paths [z_0 .. z_n] over [K] states with [z_n = k]. *)
Fixpoint paths_ending (K n k : nat) : list (list nat) :=
  match n with
  | 0 => [[k]]
  | S n => concat ((λ j, (λ z, z ++ [k]) <$> paths_ending K n j) <$> seq 0 K)
  end.

(** All [K^T] state paths of length [T]. *)
Definition all_paths (K T : nat) : list (list nat) :=
  match T with
  | 0 => [[]]
  | S n => concat (paths_ending K n <$> seq 0 K)
  end.

(** The log joint probability of a state path and the observations,
    [log pi0[z_0] + aBl[0,z_0] + sum_t (log A[z_(t-1),z_t] + aBl[t,z_t])],
    for the path given last state first. *)
Fixpoint path_loglik_rev (lpi0 : list F) (Al aBl : list (list F))
    (rz : list nat) : F :=
  match rz with
  | [] => fzero
  | z :: rest =>
      match rest with
      | [] => fadd (at_ lpi0 z) (at2 aBl 0 z)
      | z' :: _ =>
          fadd (fadd (path_loglik_rev lpi0 Al aBl rest) (at2 Al z' z))
               (at2 aBl (length rest) z)
      end
  end.

Definition path_loglik (m : Model F Obs) (aBl : list (list F))
    (z : list nat) : F :=
  path_loglik_rev (vlog (pi_0 m)) (mlog (trans_distn m)) aBl (reverse z).

(** The log marginal likelihood by brute force: the sum over all paths. *)
Definition brute_force_loglik (m : Model F Obs) (aBl : list (list F)) : F :=
  logsumexp (path_loglik m aBl <$> all_paths (state_dim m) (length aBl)).
End ForwardSpec.

(** ** Log-space arithmetic as a semiring of weights

    The numbers [x] of log space in the representation [x ↦ e^x], over the
    rationals: [logaddexp] is the sum of the weights, [+] their product,
    [-inf] the weight [0] and [0.] the weight [1]; [np.log] and [np.exp]
    change the reading of a number and not the weight.  This instance
    interprets the operations on logarithms; it is exact, and the laws of
    a semiring hold in it. *)

Module Weights.
#[global] Instance weight_ops : FloatOps Qc := {|
  fzero := 1%Qc;
  fone := 1%Qc;
  neg_inf := 0%Qc;
  fadd := Qcmult;
  fsub := Qcdiv;
  fmul := Qcmult;
  fdiv := Qcdiv;
  fexp := λ x, x;
  flog := λ x, x;
  logaddexp := Qcplus;
  fmax := λ x y, if Qclt_le_dec x y then y else x;
  feqb := λ x y, if Qc_eq_dec x y then true else false;
  fltb := λ x y, if Qclt_le_dec x y then true else false;
  fleb := λ x y, if Qclt_le_dec y x then false else true;
  fisnan := λ _, false
|}.
End Weights.


(** ** The block recursion on singleton changepoints *)

Section BlockSpec.
Context {F : Type} `{!FloatOps F}.

(** The changepoints [[(0,1),(1,2),...,(T-1,T)]]. *)
Definition singletons (T : nat) : list (nat * nat) :=
  (λ i, (i, S i)) <$> seq 0 T.

(** The number of durations the block recursion admits at [t] when every
    block is one step long: the durations [d+1 < max(trunc,2)] that fit
    before the end of the sequence. *)
Definition cp_horizon (T trunc t : nat) : nat :=
  (trunc `max` 2 - 1) `min` (T - t).

(** [logsumexp_{d<n} aDl[d,k]]: the log of the mass the duration
    distribution gives the admitted durations. *)
Definition cp_normalizer (aDl : list (list F)) (n k : nat) : F :=
  logsumexp ((λ d, at2 aDl d k) <$> seq 0 n).

(** The value of [betastarl[t,k]] in the block recursion on singleton
    changepoints: the terms of the exact recursion, each less the
    normalizer, over the admitted durations; there is no censored term. *)
Definition cp_betastarl_spec (betal aBl aDl : list (list F))
    (T trunc t k : nat) : F :=
  logsumexp
    ((λ x, fsub x (cp_normalizer aDl (cp_horizon T trunc t) k))
       <$> duration_terms betal aBl aDl t k (cp_horizon T trunc t)).
End BlockSpec.



(** ** The block likelihood table *)

Section BlockTable.
Context {F : Type} `{!FloatOps F}.

(** [aBBl[block,k]]: the sum of [aBl] over the block's range. *)
Definition block_sums (K : nat) (aBl : list (list F))
    (changepoints : list (nat * nat)) : list (list F) :=
  (λ c, sum_axis0 K (slice aBl (fst c) (snd c))) <$> changepoints.

End BlockTable.

(** ** The geometric-tail recursion *)

Section GeoSpec.
Context {F : Type} `{!FloatOps F}.

(** The geometric-tail term
    [likelihood_block(t,t+trunc+1,k) + aDsl[trunc-1,k] + hmm_betal[t+trunc,k]]. *)
Definition geo_term (aBl aDsl hmm_betal : list (list F)) (trunc t k : nat)
  : F :=
  fadd (fadd (cumulative_loglik aBl t (t + trunc + 1) k)
             (at2 aDsl (trunc - 1) k))
       (at2 hmm_betal (t + trunc) k).

(** [betastarl[t,k]] of the geometric-tail pass: the truncated sum over
    durations, with the geometric-tail term log-added when
    [t + trunc < T] and the censored term when [T - t < trunc] under
    censoring. *)
Definition geo_betastarl_spec (censoring : bool)
    (betal aBl aDl aDsl hmm_betal : list (list F)) (T trunc t k : nat) : F :=
  let base :=
    logsumexp (duration_terms betal aBl aDl t k (trunc `min` (T - t))) in
  let base :=
    if t + trunc <? T
    then logaddexp base (geo_term aBl aDsl hmm_betal trunc t k)
    else base in
  if (T - t <? trunc) && censoring
  then logaddexp base (censored_term aBl aDsl T t k)
  else base.

(** Row [i] of the auxiliary matrix: the entries of row [i] of [A] off
    the diagonal times [(1 - diag_i) / (their sum)], and [diag_i] on the
    diagonal. *)
Definition aux_row (A : list (list F)) (diag : list F) (i : nat) : list F :=
  let r := <[i := fzero]> (row A i) in
  let c := fdiv (fsub fone (at_ diag i)) (np_sum r) in
  <[i := at_ diag i]> ((λ x, fmul x c) <$> r).

(** The ratio [sf(trunc+1)/sf(trunc)] of a duration distribution, from
    its log survival function. *)
Definition survival_ratio (d : DurDistn F) (trunc : nat) : F :=
  fexp (fsub (log_sf d (trunc + 1)) (log_sf d trunc)).

(** The ratio [pmf(trunc+1)/pmf(trunc)], from its log pmf. *)
Definition pmf_ratio (d : DurDistn F) (trunc : nat) : F :=
  fexp (fsub (log_pmf d (trunc + 1)) (log_pmf d trunc)).
End GeoSpec.

(** ** Run-length encodings *)

(** The state sequence a run-length encoding stands for: each state
    repeated for its duration. *)
Definition expand (stateseq_norep durations : list nat) : list nat :=
  concat (zip_with (λ s d, replicate d s) stateseq_norep durations).

(** Consecutive entries differ. *)
Definition no_repeat (l : list nat) : Prop :=
  ∀ i a b, l !! i = Some a → l !! S i = Some b → a ≠ b.


(** ** Sums over states *)

Section StateSums.
Context {F : Type} `{!FloatOps F}.

(** [logsumexp_{i<K} f(i)] *)
Definition lse (K : nat) (f : nat → F) : F := logsumexp (f <$> seq 0 K).
End StateSums.

(** ** Changepoints *)

(** Every changepoint is an interval [(start,stop)] with [start <= stop]. *)
Definition intervals (cps : list (nat * nat)) : Prop :=
  Forall (λ c, c.1 ≤ c.2) cps.

(** The changepoints come in order and do not overlap: a block stops
    before any later block starts. *)
Definition ordered (cps : list (nat * nat)) : Prop :=
  ∀ i j c c', i < j → cps !! i = Some c → cps !! j = Some c' → c.2 ≤ c'.1.

(** The changepoints tile [[0,T)]: the first block starts at 0, each
    block starts where the one before it stops, the last stops at [T]. *)
Fixpoint tiles (start T : nat) (cps : list (nat * nat)) : Prop :=
  match cps with
  | [] => start = T
  | c :: cps => c.1 = start ∧ start ≤ c.2 ∧ tiles c.2 T cps
  end.

(** ** Chains of states *)

Section Chains.
Context {F : Type} `{!FloatOps F} {Obs : Type}.

(** The first [n] entries of [ss] are a chain of the model drawn from
    [g] on: every state indexes a row of [A], the first state is a draw
    from [pi_0] on [g], each later one a draw from the row of [A] of the
    state before it. *)
Definition chain (m : Model F Obs) (g : rng F) (n : nat) (ss : list nat)
  : Prop :=
  (∀ t s, t < n → ss !! t = Some s → is_Some (trans_distn m !! s)) ∧
  (∀ s, 0 < n → ss !! 0 = Some s →
     ∃ g2, sample_discrete (pi_0 m) g = mret (s, g2)) ∧
  (∀ t s s', S t < n → ss !! t = Some s → ss !! S t = Some s' →
     ∃ row g1 g2, trans_distn m !! s = Some row ∧
                  sample_discrete row g1 = mret (s', g2)).

(** The segments [HSMMStatesPython.generate_states] draws, from the next
    state distribution [nd] and the generator [g] on: each state is the
    draw of [sample_discrete] from the distribution left by the segment
    before ([pi_0] first, then the row of [A] of that segment's state),
    each duration the draw [rvs()] of the duration distribution of its
    state, on the generator as the draws before left it.  [nd'] and [g']
    are the distribution and the generator after the last segment. *)
Fixpoint drawn_segments (rvs : DurDistn F → rng F → nat * rng F)
    (m : Model F Obs) (nd : list F) (g : rng F) (sts ds : list nat)
    (nd' : list F) (g' : rng F) : Prop :=
  match sts, ds with
  | [], [] => nd' = nd ∧ g' = g
  | s :: sts, d :: ds =>
      ∃ g1 dd row,
        sample_discrete nd g = mret (s, g1) ∧
        dur_distns m !! s = Some dd ∧
        (rvs dd g1).1 = d ∧
        trans_distn m !! s = Some row ∧
        drawn_segments rvs m row (rvs dd g1).2 sts ds nd' g'
  | _, _ => False
  end.
End Chains.

(** ** Concrete inputs *)

Module Examples.
Import ExactReal.

(** Two states that alternate; the chain starts in state 1.  State 0
    lasts 1 or 2 steps, state 1 lasts 1 or 5 steps, each with probability
    1/2; every observation has likelihood 1 in both states. *)
Definition D0 : DurDistn xreal := dur_distn_of [(1#2); (1#2)]%Q.
Definition D1 : DurDistn xreal := dur_distn_of [(1#2); 0; 0; 0; (1#2)]%Q.

Definition hsmm_model : Model xreal unit :=
  {| state_dim := 2;
     trans_distn := [[Lin 0; Lin 1]; [Lin 1; Lin 0]];
     pi_0 := [Lin 0; Lin 1];
     obs_distns := [];
     dur_distns := [D0; D1] |}.

Definition hsmm_aBl : list (list xreal) := [[Lin 0; Lin 0]; [Lin 0; Lin 0]].

(** A states object on two observations, after [resample] has cached the
    likelihoods. *)
Definition hsmm_self : states xreal unit :=
  {| model := hsmm_model; T := 2; data := Some [tt; tt]; stateseq := [0; 0];
     censoring := true; trunc := None;
     stateseq_norep := [0]; durations := [2];
     aBl := Some (Some hsmm_aBl);
     changepoints := []; startpoints := []; blocklens := []; Tblock := 0;
     aBBl := None; aDl := None |}.

Definition hsmm_Al : list (list xreal) := mlog (trans_distn hsmm_model).
Definition hsmm_aDl : list (list xreal) :=
  (λ d, (λ dur_distn, log_pmf dur_distn (S d)) <$> dur_distns hsmm_model)
    <$> seq 0 2.
Definition hsmm_aDsl : list (list xreal) :=
  (λ d, (λ dur_distn, log_sf dur_distn (S d)) <$> dur_distns hsmm_model)
    <$> seq 0 2.

(** A two-state HMM in the weights representation: [pi0 = (1/2,1/2)],
    [A = ((3/4,1/4),(1/2,1/2))], three observations with likelihoods
    [(1/2,1/3)], [(1/5,1)], [(1,1/7)]. *)
Definition hmm_model : Model Qc unit :=
  {| state_dim := 2;
     trans_distn := [[Q2Qc (3#4); Q2Qc (1#4)]; [Q2Qc (1#2); Q2Qc (1#2)]];
     pi_0 := [Q2Qc (1#2); Q2Qc (1#2)];
     obs_distns := [];
     dur_distns := [] |}.

Definition hmm_aBl : list (list Qc) :=
  [[Q2Qc (1#2); Q2Qc (1#3)]; [Q2Qc (1#5); Q2Qc 1]; [Q2Qc 1; Q2Qc (1#7)]].

Definition hmm_self : states Qc unit :=
  {| model := hmm_model; T := 3; data := Some [tt; tt; tt];
     stateseq := [0; 0; 0];
     censoring := true; trunc := None;
     stateseq_norep := []; durations := [];
     aBl := None;
     changepoints := []; startpoints := []; blocklens := []; Tblock := 0;
     aBBl := None; aDl := None |}.

(** One state and one observation of likelihood 1; the state lasts 1 or 2
    steps with probability 1/2 each. *)
Definition one_obs : ObsDistn xreal unit :=
  {| log_likelihood := λ data, (λ _, Lin 0) <$> data |}.

Definition one_model : Model xreal unit :=
  {| state_dim := 1;
     trans_distn := [[Lin 1]];
     pi_0 := [Lin 1];
     obs_distns := [one_obs];
     dur_distns := [D0] |}.

Definition one_aBl : list (list xreal) := [[Lin 0]].
Definition one_Al : list (list xreal) := mlog (trans_distn one_model).
Definition one_aDl : list (list xreal) := [[log_pmf D0 1]].
Definition one_aDsl : list (list xreal) := [[log_sf D0 1]].

(** The exact engine's object and the block engine's object on the
    singleton changepoints, for the same model and likelihoods. *)
Definition one_self : states xreal unit :=
  {| model := one_model; T := 1; data := Some [tt]; stateseq := [0];
     censoring := true; trunc := None;
     stateseq_norep := [0]; durations := [1];
     aBl := Some (Some one_aBl);
     changepoints := []; startpoints := []; blocklens := []; Tblock := 0;
     aBBl := None; aDl := None |}.

Definition one_cp_self : states xreal unit :=
  set_aBBl (Some one_aBl)
    (set_aBl (Some None)
       (HSMMStatesPossibleChangepoints.init_changepoints (singletons 1)
          one_self)).

(** Two alternating states whose durations 1, 2, 3 all have positive
    probability, three observations of likelihood 1, and the changepoints
    [[(0,2),(2,3)]]. *)
Definition cp_model : Model xreal unit :=
  {| state_dim := 2;
     trans_distn := [[Lin 0; Lin 1]; [Lin 1; Lin 0]];
     pi_0 := [Lin (1#2); Lin (1#2)];
     obs_distns := [one_obs; one_obs];
     dur_distns := [dur_distn_of [(1#2); (1#4); (1#4)]%Q;
                    dur_distn_of [(1#4); (1#4); (1#2)]%Q] |}.

Definition cp_self : states xreal unit :=
  HSMMStatesPossibleChangepoints.init_changepoints [(0, 2); (2, 3)]
    {| model := cp_model; T := 3; data := Some [tt; tt; tt];
       stateseq := [0; 0; 0];
       censoring := true; trunc := None;
       stateseq_norep := [0]; durations := [3];
       aBl := None;
       changepoints := []; startpoints := []; blocklens := []; Tblock := 0;
       aBBl := None; aDl := None |}.

(** Two alternating states with the durations of [cp_model]; an
    observation is a Boolean, of likelihood 1/2 or 1/4 in state 0 and 1/3
    or 1/2 in state 1.  Three observations on the three singleton
    changepoints [[(0,1),(1,2),(2,3)]], with [trunc = 3] and censoring
    on: the object of the exact engine, the object of the block engine,
    and the inputs [resample] computes for [messages_backwards]. *)
Definition bool_obs (p q : Q) : ObsDistn xreal bool :=
  {| log_likelihood := λ data,
       (λ o : bool, mklog (if o then q else p)) <$> data |}.
Definition three_model : Model xreal bool :=
  {| state_dim := 2;
     trans_distn := [[Lin 0; Lin 1]; [Lin 1; Lin 0]];
     pi_0 := [Lin (1#2); Lin (1#2)];
     obs_distns := [bool_obs (1#2) (1#4); bool_obs (1#3) (1#2)];
     dur_distns := [dur_distn_of [(1#2); (1#4); (1#4)]%Q;
                    dur_distn_of [(1#4); (1#4); (1#2)]%Q] |}.
Definition three_data : list bool := [false; true; false].
Definition three_aBl : list (list xreal) :=
  [[Log (1#2); Log (1#3)]; [Log (1#4); Log (1#2)]; [Log (1#2); Log (1#3)]].
Definition three_exact_self : states xreal bool :=
  {| model := three_model; T := 3; data := Some three_data;
     stateseq := [0; 0; 0];
     censoring := true; trunc := Some 3;
     stateseq_norep := [0]; durations := [3];
     aBl := Some (Some three_aBl);
     changepoints := []; startpoints := []; blocklens := []; Tblock := 0;
     aBBl := None; aDl := None |}.
Definition three_self : states xreal bool :=
  HSMMStatesPossibleChangepoints.init_changepoints (singletons 3)
    (set_aBl None three_exact_self).
Definition three_Al : list (list xreal) := mlog (trans_distn three_model).
(** The same observations on the changepoints [[(0,2),(2,3)]], with
    [trunc = 4]: the object before [get_aBl] has stored the block table,
    and that table. *)
Definition two_blocks_self : states xreal bool :=
  HSMMStatesPossibleChangepoints.init_changepoints [(0, 2); (2, 3)]
    (set_trunc (Some 4) (set_aBl None three_exact_self)).
Definition two_blocks_aBBl : list (list xreal) :=
  [[Log (1#8); Log (1#6)]; [Log (1#2); Log (1#3)]].

Definition three_aDl : list (list xreal) :=
  (λ d, (λ dur_distn, log_pmf dur_distn (S d)) <$> dur_distns three_model)
    <$> seq 0 3.
Definition three_aDsl : list (list xreal) :=
  (λ d, (λ dur_distn, log_sf dur_distn (S d)) <$> dur_distns three_model)
    <$> seq 0 3.

(** Two alternating states, the chain starting in state 0; state 0 lasts
    1 or 2 steps, state 1 lasts 1, 2 or 3 steps; two observations of
    likelihood 1. *)
Definition ov_model : Model xreal unit :=
  {| state_dim := 2;
     trans_distn := [[Lin 0; Lin 1]; [Lin 1; Lin 0]];
     pi_0 := [Lin 1; Lin 0];
     obs_distns := [one_obs; one_obs];
     dur_distns := [dur_distn_of [(1#2); (1#2)]%Q;
                    dur_distn_of [(1#2); (1#4); (1#4)]%Q] |}.

Definition ov_self : states xreal unit :=
  {| model := ov_model; T := 2; data := Some [tt; tt]; stateseq := [0; 0];
     censoring := true; trunc := None;
     stateseq_norep := [0]; durations := [2];
     aBl := Some (Some hsmm_aBl);
     changepoints := []; startpoints := []; blocklens := []; Tblock := 0;
     aBBl := None; aDl := None |}.

(** The messages [resample] computes for [ov_self]. *)
Definition ov_betal : list (list xreal) := [[Lin 0; Lin 0]; [Lin 0; Lin 0]].
Definition ov_betastarl : list (list xreal) :=
  [[Lin 0; Log (3#4)]; [Lin 0; Lin 0]].

(** A generator with the draws 1/2, 1/4, 1/2, 3/4, 9/10 (then 0). *)
Definition five_draws : rng xreal :=
  {| draws := λ n, nth n [Lin (1#2); Lin (1#4); Lin (1#2); Lin (3#4);
                          Lin (9#10)] (Lin 0);
     pos := 0 |}.

(** What [sample_forwards] leaves in [ov_self] on those draws, and the
    generator after the five draws. *)
Definition ov_sampled : states xreal unit :=
  set_stateseq_norep [0; 1] (set_durations [1; 2] (set_stateseq [0; 1] ov_self)).
Definition after_five : rng xreal :=
  {| draws := draws five_draws; pos := 5 |}.

(** A native sampler that leaves the state sequence as it is handed. *)
Definition idle_codestr
    (betal betastarl aBl : list (list xreal)) (stateseq : list nat)
    (A : list (list xreal)) (pi0 : list xreal) (apmf : list (list xreal))
    (M T : nat) (g : rng xreal) : list nat * rng xreal :=
  (stateseq, g).

(** An inconsistent model: the chain starts in state 0, whose
    observations have likelihood 0, while state 1 explains them; both
    states last 1 or 2 steps.  One observation. *)
Definition zero_obs : ObsDistn xreal unit :=
  {| log_likelihood := λ data, (λ _, Log 0) <$> data |}.

Definition deg_model : Model xreal unit :=
  {| state_dim := 2;
     trans_distn := [[Lin 0; Lin 1]; [Lin 1; Lin 0]];
     pi_0 := [Lin 1; Lin 0];
     obs_distns := [zero_obs; one_obs];
     dur_distns := [dur_distn_of [(1#2); (1#2)]%Q;
                    dur_distn_of [(1#2); (1#2)]%Q] |}.

Definition deg_self : states xreal unit :=
  {| model := deg_model; T := 1; data := Some [tt]; stateseq := [0];
     censoring := false; trunc := None;
     stateseq_norep := [0]; durations := [1];
     aBl := None;
     changepoints := []; startpoints := []; blocklens := []; Tblock := 0;
     aBBl := None; aDl := None |}.



(** The two alternating states of [hsmm_model] with observations of
    likelihood 1, censoring on: [resample] computes everything from the
    data. *)
Definition cens_model : Model xreal unit :=
  {| state_dim := 2;
     trans_distn := [[Lin 0; Lin 1]; [Lin 1; Lin 0]];
     pi_0 := [Lin 0; Lin 1];
     obs_distns := [one_obs; one_obs];
     dur_distns := [D0; D1] |}.

Definition cens_self : states xreal unit :=
  {| model := cens_model; T := 2; data := Some [tt; tt]; stateseq := [0; 0];
     censoring := true; trunc := None;
     stateseq_norep := [0]; durations := [2];
     aBl := None;
     changepoints := []; startpoints := []; blocklens := []; Tblock := 0;
     aBBl := None; aDl := None |}.

(** The object when [resample] calls [sample_forwards], the messages and
    the pmf table of that call, and the generator after four draws. *)
Definition cens_cached : states xreal unit :=
  set_aBl (Some (Some [[Lin 0; Lin 0]; [Lin 0; Lin 0]]))
    (set_trunc (Some 2) cens_self).
Definition cens_betal : list (list xreal) := [[Lin 0; Lin 0]; [Lin 0; Lin 0]].
Definition cens_betastarl : list (list xreal) :=
  [[Lin 0; Log (1#2)]; [Lin 0; Lin 0]].
Definition cens_apmf : list (list xreal) :=
  [[Lin (1#2); Lin (1#2)]; [Lin (1#2); Lin 0]].
Definition after_four : rng xreal :=
  {| draws := draws five_draws; pos := 4 |}.

(** A geometric-tail object whose attributes [state_dim] and
    [_hmm_states.transition_distn] a caller has set, the latter to the
    transition distribution of the model (object 0 of the store); three
    observations of likelihood 1.  State 0 lasts 1, 2 or 3 steps with
    probabilities 1/2, 1/3, 1/6; state 1 lasts 1..4 steps with
    probabilities 1/2, 1/4, 1/8, 1/8. *)
Definition geo_model : model_of xreal unit nat :=
  {| state_dim := 2;
     trans_distn := 0;
     pi_0 := [Lin 1; Lin 0];
     obs_distns := [one_obs; one_obs];
     dur_distns := [dur_distn_of [(1#2); (1#3); (1#6)]%Q;
                    dur_distn_of [(1#2); (1#4); (1#8); (1#8)]%Q] |}.

Definition geo_A : list (list xreal) := [[Lin 0; Lin 1]; [Lin 1; Lin 0]].
Definition geo_store : gmap nat (list (list xreal)) := {[ 0 := geo_A ]}.
Definition geo_aBl : list (list xreal) :=
  [[Lin 0; Lin 0]; [Lin 0; Lin 0]; [Lin 0; Lin 0]].

Definition geo_self : HSMMStatesGeoApproximation.geo_states :=
  {| HSMMStatesGeoApproximation.g_model := geo_model;
     HSMMStatesGeoApproximation.g_censoring := true;
     HSMMStatesGeoApproximation.g_aBl := Some (Some geo_aBl);
     HSMMStatesGeoApproximation.g_state_dim := Some 2;
     HSMMStatesGeoApproximation.g_hmm_states :=
       Some {| HSMMStatesGeoApproximation.hs_model := geo_model;
               HSMMStatesGeoApproximation.hs_transition_distn := Some 0 |} |}.

Definition geo_Al : list (list xreal) := mlog geo_A.
Definition geo_aDl : list (list xreal) :=
  (λ d, (λ dur_distn, log_pmf dur_distn (S d)) <$> dur_distns geo_model)
    <$> seq 0 3.
Definition geo_aDsl : list (list xreal) :=
  (λ d, (λ dur_distn, log_sf dur_distn (S d)) <$> dur_distns geo_model)
    <$> seq 0 3.

(** The same object as its constructor leaves it. *)
Definition geo_fresh : HSMMStatesGeoApproximation.geo_states :=
  {| HSMMStatesGeoApproximation.g_model := geo_model;
     HSMMStatesGeoApproximation.g_censoring := true;
     HSMMStatesGeoApproximation.g_aBl := Some (Some geo_aBl);
     HSMMStatesGeoApproximation.g_state_dim := None;
     HSMMStatesGeoApproximation.g_hmm_states :=
       Some (HSMMStatesGeoApproximation.init_hmm_states geo_model) |}.

(** The generator whose every draw is 1/3. *)
Definition thirds : rng xreal := {| draws := λ _, Lin (1#3); pos := 0 |}.

(** [cp_self] when the inherited [resample] calls [sample_forwards], the
    messages of that call, and what the sampler leaves with the draws of
    [thirds]. *)
Definition cp_aDl : list (list xreal) :=
  (λ d, (λ dur_distn, log_pmf dur_distn (S d)) <$> dur_distns cp_model)
    <$> seq 0 3.
Definition cp_ready : states xreal unit :=
  set_aDl (Some cp_aDl)
    (set_aBBl (Some [[Lin 0; Lin 0]; [Lin 0; Lin 0]])
       (set_aBl (Some None) (set_trunc (Some 3) cp_self))).
Definition cp_betal : list (list xreal) := [[Lin 0; Lin 0]; [Lin 0; Lin 0]].
Definition cp_sampled : states xreal unit :=
  set_aDl None
    (set_durations [2; 1]
       (set_stateseq_norep [0; 1] (set_stateseq [0; 0; 1] cp_ready))).
Definition thirds_after (n : nat) : rng xreal :=
  {| draws := draws thirds; pos := n |}.

(** A duration sampler whose every draw is 3, and an [np.empty] that
    holds sevens. *)
Definition three_steps (d : DurDistn xreal) (g : rng xreal)
  : nat * rng xreal := (3, g).
Definition sevens (n : nat) : list nat := replicate n 7.

(** A duration sampler that uses one uniform draw: the duration is 1 when
    the draw is below [pmf(1)], and 2 otherwise. *)
Definition one_or_two (d : DurDistn xreal) (g : rng xreal)
  : nat * rng xreal :=
  let '(u, g) := random g in
  (if fltb u (pmf d 1) then 1 else 2, g).

(** An object on [ov_model] with [T = 3] and no data, before and after
    [HMMStatesPython.generate_states] on the draws of [thirds]. *)
Definition chain_self : states xreal unit :=
  HMMStatesPython.set_model_T_data ov_model 3 None
    (HMMStatesPython.blank ov_model).
Definition chain_generated : states xreal unit :=
  set_stateseq [0; 1; 0] chain_self.

(** What the constructor of the block class builds from [cp_model],
    [T = 3] and the changepoints [[(0,2),(2,3)]] on the draws of
    [thirds]. *)
Definition cp_built : states xreal unit :=
  {| model := cp_model; T := 3; data := None; stateseq := [0; 0; 1];
     censoring := true; trunc := None;
     stateseq_norep := [0; 1]; durations := [2; 1];
     aBl := None;
     changepoints := [(0, 2); (2, 3)]; startpoints := [0; 2];
     blocklens := [2; 1]; Tblock := 2;
     aBBl := None; aDl := None |}.
End Examples.

(** * Proofs *)

(** ** Loops *)

Lemma down_loop_inv {S : Type} (P : nat → S → Prop) (body : nat → S → S)
    (n : nat) (s : S) :
  P n s →
  (∀ t s, t < n → P (Datatypes.S t) s → P t (body t s)) →
  P 0 (down_loop n body s).
Proof.
  revert s. induction n as [|n IH]; intros s Hs Hstep; simpl; [done|].
  apply IH.
  - apply Hstep; [lia | done].
  - intros t s' Ht. apply Hstep. lia.
Qed.

Lemma down_loopM_inv {S : Type} (P : nat → S → Prop)
    (body : nat → S → result S) (n : nat) (s : S) :
  P n s →
  (∀ t s, t < n → P (Datatypes.S t) s → ∃ s', body t s = mret s' ∧ P t s') →
  ∃ s', down_loopM n body s = mret s' ∧ P 0 s'.
Proof.
  revert s. induction n as [|n IH]; intros s Hs Hstep; simpl; [by exists s|].
  destruct (Hstep n s) as (s' & -> & Hs'); [lia | done |]. simpl.
  apply IH; [done|]. intros t s'' Ht. apply Hstep. lia.
Qed.

Lemma down_loopM_ext {S : Type} (body body' : nat → S → result S)
    (n : nat) (s : S) :
  (∀ t s, t < n → body t s = body' t s) →
  down_loopM n body s = down_loopM n body' s.
Proof.
  revert s. induction n as [|n IH]; intros s Hext; simpl; [done|].
  rewrite Hext by lia. destruct (body' n s) as [e|s']; simpl; [done|].
  apply IH. intros t s'' Ht. apply Hext. lia.
Qed.

(** ** Arrays *)

Section ArrayFacts.
Context {F : Type} `{!FloatOps F}.
Implicit Types (M : list (list F)) (v r : list F).

Lemma has_shape_spec (n c : nat) M :
  has_shape n c M = true ↔ length M = n ∧ Forall (λ v, length v = c) M.
Proof.
  unfold has_shape. rewrite andb_true_iff, Nat.eqb_eq, forallb_forall.
  rewrite Forall_forall. split; intros [? Hrows]; split; try done.
  - intros v Hv. apply Nat.eqb_eq, Hrows. by apply list_elem_of_In.
  - intros v Hv. apply Nat.eqb_eq, Hrows. by apply list_elem_of_In.
Qed.

Lemma row_lookup M t r : M !! t = Some r → row M t = r.
Proof. unfold row. by intros ->. Qed.

Lemma at_lookup v k x : v !! k = Some x → at_ v k = x.
Proof. unfold at_. by intros ->. Qed.

Lemma row_length (K : nat) M t :
  Forall (λ v, length v = K) M → t < length M → length (row M t) = K.
Proof.
  intros HM Ht. destruct (lookup_lt_is_Some_2 M t Ht) as [r Hr].
  rewrite (row_lookup _ _ _ Hr). rewrite Forall_lookup in HM. by apply (HM t r).
Qed.

Lemma row_insert_eq M t r : t < length M → row (<[t := r]> M) t = r.
Proof. intros Ht. unfold row. by rewrite list_lookup_insert_eq. Qed.

Lemma row_insert_ne M t t' r : t ≠ t' → row (<[t := r]> M) t' = row M t'.
Proof. intros Ht. unfold row. by rewrite list_lookup_insert_ne. Qed.

Lemma at_zip_with (f : F → F → F) v r k :
  k < length v → k < length r →
  at_ (zip_with f v r) k = f (at_ v k) (at_ r k).
Proof.
  intros Hv Hr. unfold at_. rewrite lookup_zip_with.
  destruct (lookup_lt_is_Some_2 v k Hv) as [x ->].
  by destruct (lookup_lt_is_Some_2 r k Hr) as [y ->].
Qed.

Lemma column_length M k : length (column M k) = length M.
Proof. unfold column. by rewrite length_fmap. Qed.

Lemma column_lookup M k d :
  d < length M → column M k !! d = Some (at2 M d k).
Proof.
  intros Hd. unfold column, at2, row. rewrite list_lookup_fmap.
  by destruct (lookup_lt_is_Some_2 M d Hd) as [r ->].
Qed.

Lemma column_ext M k (n : nat) (f : nat → F) :
  length M = n → (∀ d, d < n → at2 M d k = f d) →
  column M k = f <$> seq 0 n.
Proof.
  intros Hn Hf. apply list_eq. intros d.
  destruct (decide (d < n)) as [Hd|Hd].
  - rewrite column_lookup by lia. rewrite list_lookup_fmap.
    rewrite (proj2 (lookup_seq 0 n d d)) by (split; [done | lia]).
    simpl. by rewrite Hf.
  - rewrite !lookup_ge_None_2; [done | |].
    + rewrite length_fmap, length_seq. lia.
    + rewrite column_length. lia.
Qed.

Lemma column_take M k n : column (take n M) k = take n (column M k).
Proof. unfold column. by rewrite fmap_take. Qed.

Lemma column_cons M k r : column (r :: M) k = at_ r k :: column M k.
Proof. done. Qed.

(** Folding rows element-wise is folding each column. *)
Lemma at_foldl_zip_with (f : F → F → F) (K : nat) r M k :
  length r = K → Forall (λ v, length v = K) M → k < K →
  length (foldl (zip_with f) r M) = K ∧
  at_ (foldl (zip_with f) r M) k = foldl f (at_ r k) (column M k).
Proof.
  revert r. induction M as [|r' M IH]; intros r Hr HM Hk; simpl; [done|].
  apply Forall_cons in HM as [Hr' HM].
  destruct (IH (zip_with f r r')) as [Hlen Hat]; [|done|done|].
  - rewrite length_zip_with. lia.
  - split; [done|]. rewrite Hat. by rewrite at_zip_with by lia.
Qed.

Lemma at_logaddexp_reduce_axis0 (K : nat) M k :
  Forall (λ v, length v = K) M → k < K →
  at_ (logaddexp_reduce_axis0 K M) k = logsumexp (column M k).
Proof.
  intros HM Hk. destruct M as [|r M]; simpl.
  - unfold at_. by rewrite lookup_replicate_2.
  - apply Forall_cons in HM as [Hr HM].
    by apply (at_foldl_zip_with logaddexp K).
Qed.

Lemma length_logaddexp_reduce_axis0 (K : nat) M :
  Forall (λ v, length v = K) M → length (logaddexp_reduce_axis0 K M) = K.
Proof.
  intros HM. destruct M as [|r M]; simpl; [by rewrite length_replicate|].
  apply Forall_cons in HM as [Hr HM].
  destruct K as [|K].
  - clear HM. revert r Hr. induction M as [|r' M IH]; intros r Hr; [done|].
    simpl. apply IH. rewrite length_zip_with. lia.
  - by apply (at_foldl_zip_with logaddexp (S K) r M 0); [| |lia].
Qed.

Lemma at_sum_axis0 (K : nat) M k :
  Forall (λ v, length v = K) M → k < K →
  at_ (sum_axis0 K M) k = np_sum (column M k).
Proof.
  intros HM Hk. destruct M as [|r M]; simpl.
  - unfold at_, zeros. by rewrite lookup_replicate_2.
  - apply Forall_cons in HM as [Hr HM].
    by apply (at_foldl_zip_with fadd K).
Qed.

Lemma scan_length {A : Type} (f : A → A → A) a (l : list A) :
  length (scan f a l) = length l.
Proof. revert a. induction l as [|x l IH]; intros a; simpl; [done|]. by rewrite IH. Qed.

Lemma scan_lookup {A : Type} (f : A → A → A) a (l : list A) d :
  d < length l → scan f a l !! d = Some (foldl f a (take (S d) l)).
Proof.
  revert a d. induction l as [|x l IH]; intros a d Hd; simpl in *; [lia|].
  destruct d as [|d]; simpl.
  - by destruct l.
  - rewrite IH by lia. done.
Qed.


Lemma cumsum_lookup v (d : nat) :
  d < length v → cumsum v !! d = Some (np_sum (take (S d) v)).
Proof.
  intros Hd. destruct v as [|x v]; simpl in *; [lia|].
  destruct d as [|d]; simpl; [by destruct v|].
  rewrite scan_lookup by lia. done.
Qed.

Lemma cumsum_axis0_length M : length (cumsum_axis0 M) = length M.
Proof. destruct M; simpl; [done|]. by rewrite scan_length. Qed.

(** Row [d] of the running sum is the sum of the rows [0..d]. *)
Lemma cumsum_axis0_lookup (K : nat) M d :
  d < length M →
  cumsum_axis0 M !! d = Some (sum_axis0 K (take (S d) M)).
Proof.
  intros Hd. destruct M as [|r M]; simpl in *; [lia|].
  destruct d as [|d]; simpl; [by destruct M|].
  rewrite scan_lookup by lia. done.
Qed.
End ArrayFacts.

Section SliceFacts.
Context {F : Type} `{!FloatOps F}.
Implicit Types (M : list (list F)) (v r : list F).

Lemma slice_length {A : Type} (l : list A) (a b : nat) :
  length (slice l a b) = (b - a) `min` (length l - a).
Proof. unfold slice. by rewrite length_take, length_drop. Qed.

Lemma slice_lookup {A : Type} (l : list A) (a b d : nat) :
  d < b - a → slice l a b !! d = l !! (a + d).
Proof.
  intros Hd. unfold slice. rewrite lookup_take.
  destruct (decide (d < b - a)); [|lia]. by rewrite lookup_drop.
Qed.

Lemma row_slice M (a b d : nat) :
  d < b - a → row (slice M a b) d = row M (a + d).
Proof. intros Hd. unfold row. by rewrite slice_lookup. Qed.

Lemma slice_Forall {A : Type} (P : A → Prop) (l : list A) (a b : nat) :
  Forall P l → Forall P (slice l a b).
Proof. intros Hl. unfold slice. by apply Forall_take, Forall_drop. Qed.

Lemma slice_full {A : Type} (l : list A) (a : nat) :
  slice l a (length l) = drop a l.
Proof.
  unfold slice. apply take_ge. rewrite length_drop. lia.
Qed.

Lemma take_slice {A : Type} (l : list A) (a b n : nat) :
  n ≤ b - a → take n (slice l a b) = slice l a (a + n).
Proof.
  intros Hn. unfold slice. rewrite take_take.
  replace (a + n - a) with n by lia. f_equal. lia.
Qed.

Lemma madd_length M M' : length (madd M M') = length M `min` length M'.
Proof. unfold madd. by rewrite length_zip_with. Qed.

Lemma madd_Forall (K : nat) M M' :
  Forall (λ v, length v = K) M → Forall (λ v, length v = K) M' →
  Forall (λ v, length v = K) (madd M M').
Proof.
  intros HM HM'. apply Forall_lookup. intros d r Hr.
  unfold madd in Hr. rewrite lookup_zip_with in Hr.
  destruct (M !! d) as [x|] eqn:Hx; [|done].
  destruct (M' !! d) as [y|] eqn:Hy; [|done]. simpl in Hr.
  injection Hr as <-. unfold vadd. rewrite length_zip_with.
  rewrite Forall_lookup in HM. rewrite Forall_lookup in HM'.
  rewrite (HM d x Hx), (HM' d y Hy). lia.
Qed.

Lemma row_madd M M' d :
  d < length M → d < length M' →
  row (madd M M') d = vadd (row M d) (row M' d).
Proof.
  intros Hd Hd'. unfold row, madd. rewrite lookup_zip_with.
  destruct (lookup_lt_is_Some_2 M d Hd) as [x ->].
  by destruct (lookup_lt_is_Some_2 M' d Hd') as [y ->].
Qed.

Lemma at2_madd (K : nat) M M' d k :
  Forall (λ v, length v = K) M → Forall (λ v, length v = K) M' →
  d < length M → d < length M' → k < K →
  at2 (madd M M') d k = fadd (at2 M d k) (at2 M' d k).
Proof.
  intros HM HM' Hd Hd' Hk. unfold at2. rewrite row_madd by done.
  unfold vadd. apply at_zip_with.
  - by rewrite (row_length K).
  - by rewrite (row_length K).
Qed.

Lemma cumsum_axis0_Forall (K : nat) M :
  Forall (λ v, length v = K) M → Forall (λ v, length v = K) (cumsum_axis0 M).
Proof.
  intros HM. apply Forall_lookup. intros d r Hr.
  assert (d < length M) as Hd.
  { rewrite <- cumsum_axis0_length. by eapply lookup_lt_Some. }
  rewrite (cumsum_axis0_lookup K) in Hr by done. injection Hr as <-.
  destruct M as [|r0 M]; [simpl in Hd; lia|].
  apply Forall_cons in HM as [Hr0 HM]. simpl.
  destruct K as [|K].
  - clear HM Hd. generalize (take d M). intros l. revert r0 Hr0.
    induction l as [|r' l IH]; intros r0 Hr0; [done|].
    simpl. apply IH. unfold vadd. rewrite length_zip_with. lia.
  - apply (at_foldl_zip_with fadd (S K) r0 (take d M) 0); [done| |lia].
    by apply Forall_take.
Qed.

(** Entry [(d,k)] of the running sum of the rows [start..] is
    [cumulative_loglik(start,start+d+1,k)]. *)
Lemma at2_cumulative_likelihoods (K : nat) M (start stop d k : nat) :
  Forall (λ v, length v = K) M → k < K →
  d < stop - start → start + d < length M →
  at2 (cumsum_axis0 (slice M start stop)) d k
  = cumulative_loglik M start (start + d + 1) k.
Proof.
  intros HM Hk Hd Hlen. unfold at2, cumulative_loglik.
  assert (d < length (slice M start stop)) as Hd'.
  { rewrite slice_length. lia. }
  rewrite (row_lookup _ _ _ (cumsum_axis0_lookup K _ d Hd')).
  rewrite at_sum_axis0; [|by apply Forall_take, slice_Forall|done].
  rewrite take_slice by lia. do 3 f_equal. lia.
Qed.
End SliceFacts.

(** ** The HSMM backward pass *)

Section HSMMBackward.
Context {F : Type} `{!FloatOps F} {Obs : Type}.
Implicit Types (M betal betastarl : list (list F)) (v r : list F).

Variables (aBl0 Al aDl aDsl : list (list F)) (T tr K : nat).

(** The rows the reduction of step [t] adds up. *)
Lemma duration_rows_shape betal t :
  has_shape T K aBl0 = true → has_shape T K aDl = true →
  Forall (λ v, length v = K) betal →
  Forall (λ v, length v = K)
    (madd (madd (slice betal t (t + tr))
                (cumsum_axis0 (slice aBl0 t (t + tr))))
          (take (tr `min` (T - t)) aDl)).
Proof.
  intros HaBl0 HaDl Hrows.
  apply has_shape_spec in HaBl0 as [HlenB HrowsB].
  apply has_shape_spec in HaDl as [HlenD HrowsD].
  repeat apply madd_Forall.
  - by apply slice_Forall.
  - by apply cumsum_axis0_Forall, slice_Forall.
  - by apply Forall_take.
Qed.

(** Their column [k] holds the terms of the duration sum. *)
Lemma duration_sum_column betal t k :
  has_shape T K aBl0 = true → has_shape T K aDl = true →
  length betal = T → Forall (λ v, length v = K) betal →
  t < T → k < K →
  column (madd (madd (slice betal t (t + tr))
                     (cumsum_axis0 (slice aBl0 t (t + tr))))
               (take (tr `min` (T - t)) aDl)) k
  = duration_terms betal aBl0 aDl t k (tr `min` (T - t)).
Proof.
  intros HaBl0 HaDl Hlen Hrows Ht Hk.
  apply has_shape_spec in HaBl0 as [HlenB HrowsB].
  apply has_shape_spec in HaDl as [HlenD HrowsD].
  assert (length (slice betal t (t + tr)) = tr `min` (T - t)) as L1.
  { rewrite slice_length. lia. }
  assert (length (cumsum_axis0 (slice aBl0 t (t + tr))) = tr `min` (T - t))
    as L2.
  { rewrite cumsum_axis0_length, slice_length. lia. }
  assert (length (take (tr `min` (T - t)) aDl) = tr `min` (T - t)) as L3.
  { rewrite length_take. lia. }
  assert (Forall (λ v, length v = K) (slice betal t (t + tr))) as F1
    by by apply slice_Forall.
  assert (Forall (λ v, length v = K) (cumsum_axis0 (slice aBl0 t (t + tr))))
    as F2 by by apply cumsum_axis0_Forall, slice_Forall.
  assert (Forall (λ v, length v = K) (take (tr `min` (T - t)) aDl)) as F3
    by by apply Forall_take.
  apply column_ext.
  - rewrite !madd_length. lia.
  - intros d Hd.
    rewrite (at2_madd K); [|by apply madd_Forall|done|
                            rewrite madd_length; lia|lia|done].
    rewrite (at2_madd K); [|done|done|lia|lia|done].
    f_equal; [f_equal|].
    + unfold at2. rewrite row_slice by lia. done.
    + apply (at2_cumulative_likelihoods K); [done|done|lia|lia].
    + unfold at2, row. rewrite lookup_take.
      by destruct (decide (d < tr `min` (T - t))).
Qed.

(** [betastarl_spec] reads the rows [t..T-1] of [betal] only. *)
Lemma betastarl_spec_ext c betal betal' t k :
  (∀ i, t ≤ i → i < T → row betal i = row betal' i) →
  betastarl_spec c betal aBl0 aDl aDsl T tr t k
  = betastarl_spec c betal' aBl0 aDl aDsl T tr t k.
Proof.
  intros Hagree. unfold betastarl_spec.
  assert (duration_terms betal aBl0 aDl t k (tr `min` (T - t))
          = duration_terms betal' aBl0 aDl t k (tr `min` (T - t))) as ->; [|done].
  unfold duration_terms. apply list_fmap_ext. intros i d Hd.
  apply lookup_seq in Hd as [-> Hd]. simpl.
  unfold at2. rewrite Hagree by lia. done.
Qed.

Lemma mix_next_row v k :
  length Al = K → k < K →
  at_ (logaddexp_reduce_axis1 (vadd v <$> Al)) k
  = logsumexp (vadd v (row Al k)).
Proof.
  intros HAl Hk. unfold logaddexp_reduce_axis1, at_, row.
  rewrite !list_lookup_fmap.
  assert (k < length Al) as Hk' by lia.
  by destruct (lookup_lt_is_Some_2 Al k Hk') as [r ->].
Qed.

Lemma mix_next_length v :
  length Al = K →
  length (logaddexp_reduce_axis1 (vadd v <$> Al)) = K.
Proof. intros HAl. unfold logaddexp_reduce_axis1. by rewrite !length_fmap. Qed.
End HSMMBackward.

Section HSMMBackwardLoop.
Context {F : Type} `{!FloatOps F} {Obs : Type}.
Implicit Types (M betal betastarl : list (list F)) (v r : list F).

Variables (aBl0 aDsl : list (list F)) (T K : nat).

Lemma zeros2_shape (n c : nat) :
  length (zeros2 n c) = n ∧ Forall (λ v : list F, length v = c) (zeros2 n c).
Proof.
  unfold zeros2, zeros. split; [by rewrite length_replicate|].
  apply Forall_replicate. by rewrite length_replicate.
Qed.

Lemma insert_Forall_length (c : nat) M (i : nat) r :
  Forall (λ v, length v = c) M → length r = c →
  Forall (λ v, length v = c) (<[i := r]> M).
Proof. intros HM Hr. by apply Forall_insert. Qed.

Lemma wrap_index_pred (t : nat) :
  t < T → wrap_index T (Z.of_nat t - 1) = if decide (t = 0) then T - 1 else t - 1.
Proof.
  intros Ht. unfold wrap_index. destruct (decide (t = 0)) as [->|Hne].
  - simpl. lia.
  - destruct (Z.ltb_spec (Z.of_nat t - 1) 0); lia.
Qed.

(** The censored term, as the code computes it. *)
Lemma at_censored_term betastarl t k :
  has_shape T K aBl0 = true → has_shape T K aDsl = true →
  length betastarl = T → Forall (λ v, length v = K) betastarl →
  t < T → k < K →
  at_ (zip_with logaddexp (row betastarl t)
         (vadd (sum_axis0 (length (row aBl0 0)) (slice_from aBl0 t None))
               (row aDsl (T - t - 1)))) k
  = logaddexp (at2 betastarl t k) (censored_term aBl0 aDsl T t k).
Proof.
  intros HaBl0 HaDsl Hlen Hrows Ht Hk.
  apply has_shape_spec in HaBl0 as [HlenB HrowsB].
  apply has_shape_spec in HaDsl as [HlenS HrowsS].
  assert (length (row aBl0 0) = K) as -> by (apply row_length; [done|lia]).
  assert (Forall (λ v, length v = K) (drop t aBl0)) as HF by by apply Forall_drop.
  assert (length (sum_axis0 K (drop t aBl0)) = K) as Hsum.
  { destruct (drop t aBl0) as [|r0 l] eqn:Hd.
    - apply (f_equal length) in Hd. rewrite length_drop in Hd. simpl in Hd. lia.
    - simpl. apply Forall_cons in HF as [Hr0 HF].
      destruct K as [|K']; [lia|].
      by apply (at_foldl_zip_with fadd (S K') r0 l 0); [| |lia]. }
  simpl. rewrite at_zip_with.
  - f_equal. unfold vadd. rewrite at_zip_with.
    + unfold censored_term. f_equal.
      rewrite at_sum_axis0 by done. unfold cumulative_loglik.
      by rewrite <- HlenB, slice_full.
    + lia.
    + rewrite (row_length K); [done|done|lia].
  - rewrite (row_length K); [done|done|lia].
  - unfold vadd. rewrite length_zip_with, Hsum.
    rewrite (row_length K); [lia|done|lia].
Qed.

Lemma length_censored_row betastarl t :
  has_shape T K aBl0 = true → has_shape T K aDsl = true →
  length betastarl = T → Forall (λ v, length v = K) betastarl → t < T →
  length (zip_with logaddexp (row betastarl t)
            (vadd (sum_axis0 (length (row aBl0 0)) (slice_from aBl0 t None))
                  (row aDsl (T - t - 1)))) = K.
Proof.
  intros HaBl0 HaDsl Hlen Hrows Ht.
  apply has_shape_spec in HaBl0 as [HlenB HrowsB].
  apply has_shape_spec in HaDsl as [HlenS HrowsS].
  assert (length (row aBl0 0) = K) as -> by (apply row_length; [done|lia]).
  assert (Forall (λ v, length v = K) (drop t aBl0)) as HF by by apply Forall_drop.
  assert (length (sum_axis0 K (drop t aBl0)) = K) as Hsum.
  { destruct (drop t aBl0) as [|r0 l] eqn:Hd.
    - apply (f_equal length) in Hd. rewrite length_drop in Hd. simpl in Hd. lia.
    - simpl. apply Forall_cons in HF as [Hr0 HF].
      destruct K as [|K'].
      + clear HF Hd. revert r0 Hr0. induction l as [|r' l IH]; intros r0 Hr0; [done|].
        simpl. apply IH. unfold vadd. rewrite length_zip_with. lia.
      + by apply (at_foldl_zip_with fadd (S K') r0 l 0); [| |lia]. }
  simpl. unfold vadd. rewrite !length_zip_with, Hsum.
  rewrite !(row_length K); [lia|done|lia|done|lia].
Qed.
End HSMMBackwardLoop.

(** The backward loops of the HSMM classes share their shape: step [t]
    computes a row [X] of [betastarl] from the rows [t..T-1] of [betal],
    stores it, and stores the mix over next segment starts in row [t-1] of
    [betal] (row [-1], the last one, at [t = 0]). *)
Section BackwardLoop.
Context {F : Type} `{!FloatOps F}.
Implicit Types (M betal betastarl : list (list F)) (v r : list F).

Variables (Al : list (list F)) (T K : nat).
Variable step : nat → list (list F) * list (list F) →
                result (list (list F) * list (list F)).
Variable spec : list (list F) → nat → nat → F.
Hypothesis HAl : length Al = K.
Hypothesis spec_ext : ∀ betal betal' t k,
  (∀ i, t ≤ i → i < T → row betal i = row betal' i) →
  spec betal t k = spec betal' t k.
Hypothesis step_ok : ∀ t betal betastarl,
  t < T →
  length betal = T → Forall (λ v, length v = K) betal →
  length betastarl = T → Forall (λ v, length v = K) betastarl →
  ∃ X, length X = K ∧ (∀ k, k < K → at_ X k = spec betal t k) ∧
       step t (betal, betastarl)
       = mret (<[wrap_index T (Z.of_nat t - 1) :=
                  logaddexp_reduce_axis1 (vadd X <$> Al)]> betal,
               <[t := X]> betastarl).

Lemma backward_loop_generic :
  ∃ betal betastarl,
    down_loopM T step (zeros2 T K, zeros2 T K) = mret (betal, betastarl) ∧
    (length betal = T ∧ Forall (λ v, length v = K) betal) ∧
    (length betastarl = T ∧ Forall (λ v, length v = K) betastarl) ∧
    (∀ s k, s < T → k < K →
       at2 betastarl s k = spec (<[T - 1 := zeros K]> betal) s k) ∧
    (∀ s k, S s < T → k < K →
       at2 betal s k = mix_next betastarl Al (S s) k).
Proof.
  pose (P := λ (t : nat) (s : list (list F) * list (list F)),
          t ≤ T ∧
          (length s.1 = T ∧ Forall (λ v, length v = K) s.1) ∧
          (length s.2 = T ∧ Forall (λ v, length v = K) s.2) ∧
          (0 < t → row s.1 (T - 1) = zeros K) ∧
          (∀ i k, t ≤ i → i < T → k < K →
             at2 s.2 i k = spec (<[T - 1 := zeros K]> s.1) i k) ∧
          (∀ i k, t ≤ S i → S i < T → k < K →
             at2 s.1 i k = mix_next s.2 Al (S i) k)).
  destruct (down_loopM_inv P step T (zeros2 T K, zeros2 T K))
    as ([betal betastarl] & Hrun & HP).
  - unfold P. simpl. split; [lia|].
    split; [apply zeros2_shape|]. split; [apply zeros2_shape|].
    split; [|split; intros; lia].
    intros HT. unfold row, zeros2. by rewrite lookup_replicate_2 by lia.
  - intros t [betal betastarl] Ht (_ & [L1 F1] & [L2 F2] & Hlast & Hbs & Hb).
    simpl in *.
    destruct (step_ok t betal betastarl Ht L1 F1 L2 F2) as (X & LX & HX & ->).
    eexists. split; [done|]. unfold P. simpl.
    rewrite (wrap_index_pred T t Ht).
    assert (∀ i, t ≤ i → i < T →
              row (<[T - 1 := zeros K]>
                     (<[(if decide (t = 0) then T - 1 else t - 1) :=
                          logaddexp_reduce_axis1 (vadd X <$> Al)]> betal)) i
              = row (<[T - 1 := zeros K]> betal) i) as Hagree.
    { intros i Hi HiT. destruct (decide (i = T - 1)) as [->|Hne].
      - rewrite !row_insert_eq; [done|lia|rewrite length_insert; lia].
      - rewrite (row_insert_ne _ (T - 1)) by lia.
        rewrite (row_insert_ne betal (T - 1)) by lia.
        apply row_insert_ne. destruct (decide (t = 0)); lia. }
    split; [lia|]. split; [|split; [|split; [|split]]].
    + rewrite length_insert. split; [done|].
      apply insert_Forall_length; [done|]. by apply mix_next_length.
    + rewrite length_insert. split; [done|]. by apply insert_Forall_length.
    + intros Hpos. rewrite row_insert_ne; [apply Hlast; lia|].
      destruct (decide (t = 0)); lia.
    + intros i k Hi HiT Hk. destruct (decide (i = t)) as [->|Hne].
      * unfold at2. rewrite row_insert_eq by lia. rewrite HX by done.
        apply spec_ext. intros j Hj HjT. rewrite Hagree by lia.
        destruct (decide (j = T - 1)) as [->|Hne].
        -- rewrite row_insert_eq by lia. apply Hlast. lia.
        -- by rewrite row_insert_ne by lia.
      * unfold at2. rewrite row_insert_ne by lia.
        fold (at2 betastarl i k). rewrite Hbs by (done || lia).
        apply spec_ext. intros j Hj HjT. by rewrite Hagree by lia.
    + intros i k Hi HiT Hk. destruct (decide (S i = t)) as [<-|Hne].
      * destruct (decide (S i = 0)); [lia|].
        replace (S i - 1) with i by lia.
        unfold at2. rewrite row_insert_eq by lia.
        rewrite (mix_next_row Al K) by done.
        unfold mix_next. by rewrite row_insert_eq by lia.
      * unfold at2. rewrite row_insert_ne by (destruct (decide (t = 0)); lia).
        fold (at2 betal i k). rewrite Hb by (done || lia).
        unfold mix_next. by rewrite row_insert_ne by lia.
  - exists betal, betastarl. destruct HP as (_ & HL1 & HL2 & _ & Hbs & Hb).
    simpl in *. split; [done|]. split; [done|]. split; [done|].
    split.
    + intros s k Hs Hk. apply Hbs; (done || lia).
    + intros s k Hs Hk. apply Hb; (done || lia).
Qed.
End BackwardLoop.

Section HSMMMessages.
Context {F : Type} `{!FloatOps F} {Obs : Type}.
Implicit Types (M betal betastarl : list (list F)) (v r : list F).

Lemma hsmm_step_ok (self : states F Obs) (aBl0 Al aDl aDsl : list (list F))
    (T tr K t : nat) betal betastarl :
  aBl self = Some (Some aBl0) →
  has_shape T K aBl0 = true → has_shape T K aDl = true →
  has_shape T K aDsl = true →
  t < T →
  length betal = T → Forall (λ v, length v = K) betal →
  length betastarl = T → Forall (λ v, length v = K) betastarl →
  ∃ X, length X = K ∧
       (∀ k, k < K →
          at_ X k = betastarl_spec (censoring self) betal aBl0 aDl aDsl T tr t k) ∧
       HSMMStatesPython.backwards_step self Al aDl aDsl T tr K t
         (betal, betastarl)
       = mret (<[wrap_index T (Z.of_nat t - 1) :=
                  logaddexp_reduce_axis1 (vadd X <$> Al)]> betal,
               <[t := X]> betastarl).
Proof.
  intros Hself HaBl0 HaDl HaDsl Ht L1 F1 L2 F2.
  pose proof (duration_rows_shape aBl0 aDl T tr K betal t HaBl0 HaDl F1) as HF.
  pose proof (duration_sum_column aBl0 aDl T tr K betal t) as Hcol.
  unfold HSMMStatesPython.backwards_step,
    HSMMStatesPython.cumulative_likelihoods,
    HSMMStatesPython.likelihood_block, get_self_aBl.
  rewrite Hself. simpl.
  set (rows := madd (madd (slice betal t (t + tr))
                          (cumsum_axis0 (slice aBl0 t (t + tr))))
                    (take (tr `min` (T - t)) aDl)) in *.
  assert (length (logaddexp_reduce_axis0 K rows) = K) as LX0
    by by apply length_logaddexp_reduce_axis0.
  assert (∀ k, k < K → at_ (logaddexp_reduce_axis0 K rows) k
            = logsumexp (duration_terms betal aBl0 aDl t k (tr `min` (T - t))))
    as HX0.
  { intros k Hk. rewrite at_logaddexp_reduce_axis0 by done. f_equal.
    by apply Hcol. }
  unfold betastarl_spec.
  destruct ((T - t <? tr) && censoring self) eqn:Hc; simpl.
  - rewrite list_insert_insert_eq, row_insert_eq by lia.
    eexists. split; [|split; [|reflexivity]].
    + apply (length_censored_row aBl0 aDsl T K); try done.
      * by rewrite length_insert.
      * by apply insert_Forall_length.
    + intros k Hk. rewrite <- HX0 by done.
      rewrite (at_censored_term aBl0 aDsl T K); try done.
      * unfold at2. by rewrite row_insert_eq by lia.
      * by rewrite length_insert.
      * by apply insert_Forall_length.
  - rewrite row_insert_eq by lia.
    eexists. split; [|split; [|reflexivity]]; [done|].
    intros k Hk. by apply HX0.
Qed.
End HSMMMessages.

Section HSMMMessagesSpec.
Context {F : Type} `{!FloatOps F} {Obs : Type}.
Implicit Types (M betal betastarl : list (list F)) (v r : list F).

Lemma setitem_last {A : Type} (x : A) (l : list A) :
  0 < length l → setitem (-1) x l = mret (<[length l - 1 := x]> l).
Proof.
  intros Hl. unfold setitem, wrap_index.
  destruct (Z.leb_spec (- Z.of_nat (length l)) (-1)); [|lia].
  destruct (Z.ltb_spec (-1) (Z.of_nat (length l))); [|lia]. simpl.
  do 2 f_equal. lia.
Qed.

(** The whole of [HSMMStatesPython.messages_backwards]: the loop runs
    without raising, the last row of [betal] is then set to zero, and the
    two matrices satisfy the recursion with that boundary row. *)
Lemma hsmm_messages_backwards_spec (self : states F Obs)
    (aBl0 Al aDl aDsl : list (list F)) (trunc : option nat) (K : nat) :
  aBl self = Some (Some aBl0) →
  has_shape (length aDl) K aBl0 = true →
  has_shape (length aDl) K aDl = true →
  has_shape (length aDl) K aDsl = true →
  length Al = K → 0 < length aDl →
  ∃ betal_loop betal betastarl,
    down_loopM (length aDl)
      (HSMMStatesPython.backwards_step self Al aDl aDsl (length aDl)
         (default (length aDl) trunc) K)
      (zeros2 (length aDl) K, zeros2 (length aDl) K)
    = mret (betal_loop, betastarl) ∧
    betal = <[length aDl - 1 := zeros K]> betal_loop ∧
    HSMMStatesPython.messages_backwards self Al aDl aDsl trunc
    = mret (betal, betastarl) ∧
    has_shape (length aDl) K betal = true ∧
    has_shape (length aDl) K betastarl = true ∧
    row betal (length aDl - 1) = zeros K ∧
    (∀ t k, t < length aDl → k < K →
       at2 betastarl t k
       = betastarl_spec (censoring self) betal aBl0 aDl aDsl (length aDl)
           (default (length aDl) trunc) t k) ∧
    (∀ t k, S t < length aDl → k < K →
       at2 betal t k = mix_next betastarl Al (S t) k).
Proof.
  intros Hself HaBl0 HaDl HaDsl HAl HT.
  set (T := length aDl) in *. set (tr := default T trunc).
  destruct (backward_loop_generic Al T K
              (HSMMStatesPython.backwards_step self Al aDl aDsl T tr K)
              (λ betal t k,
                 betastarl_spec (censoring self) betal aBl0 aDl aDsl T tr t k))
    as (betal & betastarl & Hrun & [L1 F1] & [L2 F2] & Hbs & Hb).
  - done.
  - intros. by apply betastarl_spec_ext.
  - intros t betal betastarl Ht L1 F1 L2 F2.
    by apply (hsmm_step_ok self aBl0 Al aDl aDsl T tr K).
  - exists betal, (<[T - 1 := zeros K]> betal), betastarl.
    split; [done|]. split; [done|]. split.
    { unfold HSMMStatesPython.messages_backwards. fold T. fold tr.
      rewrite HAl, Hrun. simpl.
      rewrite setitem_last by lia. by rewrite L1. }
    split.
    { apply has_shape_spec. rewrite length_insert. split; [done|].
      apply insert_Forall_length; [done|]. unfold zeros.
      by rewrite length_replicate. }
    split; [by apply has_shape_spec|].
    split; [by rewrite row_insert_eq by lia|].
    split; [done|].
    intros t k Ht Hk. unfold at2. rewrite row_insert_ne by lia.
    by apply Hb.
Qed.
End HSMMMessagesSpec.

(** ** The HMM backward pass *)

Section HMMBackward.
Context {F : Type} `{!FloatOps F} {Obs : Type}.

Lemma hmm_messages_backwards_last_row (self : states F Obs)
    (aBl : list (list F)) :
  0 < length aBl →
  length (HMMStatesPython.messages_backwards self aBl) = length aBl ∧
  row (HMMStatesPython.messages_backwards self aBl) (length aBl - 1)
  = zeros (length (row aBl 0)).
Proof.
  intros HT. unfold HMMStatesPython.messages_backwards.
  set (body := λ (t : nat) (betal : list (list F)), <[t := _]> betal).
  apply (down_loop_inv
           (λ t betal, length betal = length aBl ∧
                       row betal (length aBl - 1) = zeros (length (row aBl 0)))
           body).
  - unfold zeros2. rewrite length_replicate. split; [done|].
    unfold row. by rewrite lookup_replicate_2 by lia.
  - intros t betal Ht [Hlen Hrow]. unfold body.
    rewrite length_insert. split; [done|].
    rewrite row_insert_ne by lia. done.
Qed.
End HMMBackward.

(** ** The HMM forward pass *)

Lemma up_loop_inv {S : Type} (P : nat → S → Prop) (body : nat → S → S)
    (n : nat) (s : S) :
  P 0 s →
  (∀ t s, t < n → P t s → P (Datatypes.S t) (body t s)) →
  P n (up_loop n body s).
Proof.
  intros H0 Hstep. unfold up_loop.
  induction n as [|n IH]; [done|].
  rewrite seq_S, foldl_app. simpl. apply Hstep; [lia|].
  apply IH. intros t s' Ht. apply Hstep. lia.
Qed.

Section HMMForward.
Context {F : Type} `{!FloatOps F} {Obs : Type}.
Implicit Types (M alphal : list (list F)) (v r : list F).

Lemma transpose_lookup (K : nat) M k :
  length (row M 0) = K → k < K → transpose M !! k = Some (column M k).
Proof.
  intros HK Hk. unfold transpose. rewrite HK, list_lookup_fmap.
  by rewrite (proj2 (lookup_seq 0 K k k)) by (split; [done|lia]).
Qed.

Lemma transpose_length (K : nat) M :
  length (row M 0) = K → length (transpose M) = K.
Proof. intros HK. unfold transpose. by rewrite length_fmap, length_seq. Qed.

Lemma at_vlog v k : k < length v → at_ (vlog v) k = flog (at_ v k).
Proof.
  intros Hk. unfold at_, vlog. rewrite list_lookup_fmap.
  by destruct (lookup_lt_is_Some_2 v k Hk) as [x ->].
Qed.

(** The forward table: it is returned for a non-empty [aBl], its rows
    have [K] entries, and it satisfies the forward recursion. *)
Lemma hmm_messages_forwards_spec (self : states F Obs)
    (aBl : list (list F)) (K : nat) :
  state_dim (model self) = K →
  length (pi_0 (model self)) = K →
  has_shape K K (trans_distn (model self)) = true →
  has_shape (length aBl) K aBl = true →
  0 < length aBl → 0 < K →
  ∃ alphal,
    HMMStatesPython.messages_forwards self aBl = mret alphal ∧
    has_shape (length aBl) K alphal = true ∧
    (∀ k, k < K →
       at2 alphal 0 k = fadd (flog (at_ (pi_0 (model self)) k)) (at2 aBl 0 k)) ∧
    (∀ t k, S t < length aBl → k < K →
       at2 alphal (S t) k
       = fadd (forward_mix alphal (mlog (trans_distn (model self))) t k)
              (at2 aBl (S t) k)).
Proof.
  intros Hsd Hpi HA HaBl HT HK.
  apply has_shape_spec in HA as [LA FA].
  apply has_shape_spec in HaBl as [_ FB].
  set (T := length aBl) in *.
  set (Al := mlog (trans_distn (model self))).
  assert (length (row Al 0) = K) as HAl0.
  { unfold Al, mlog, row. rewrite list_lookup_fmap.
    assert (0 < length (trans_distn (model self))) as H0 by lia.
    destruct (lookup_lt_is_Some_2 _ 0 H0) as [r Hr]. rewrite Hr. simpl.
    unfold vlog. rewrite length_fmap.
    rewrite Forall_lookup in FA. by apply (FA 0 r). }
  unfold HMMStatesPython.messages_forwards. fold T. fold Al.
  destruct (lookup_lt_is_Some_2 aBl 0 HT) as [aBl0 HaBl0]. rewrite HaBl0.
  assert (length aBl0 = K) as LaBl0.
  { rewrite Forall_lookup in FB. by apply (FB 0 aBl0). }
  eexists. split; [reflexivity|].
  set (body := λ (t : nat) (alphal : list (list F)), <[S t := _]> alphal).
  set (init := <[0 := vadd (vlog (pi_0 (model self))) aBl0]> (zeros2 T _)).
  assert (length init = T ∧ Forall (λ v, length v = K) init) as [Li Fi].
  { unfold init. rewrite length_insert. destruct (zeros2_shape T K) as [? ?].
    rewrite Hsd. split; [done|]. apply insert_Forall_length; [done|].
    unfold vadd, vlog. rewrite length_zip_with, length_fmap. lia. }
  pose (P := λ (n : nat) (alphal : list (list F)),
          (length alphal = T ∧ Forall (λ v, length v = K) alphal) ∧
          (∀ k, k < K →
             at2 alphal 0 k = fadd (flog (at_ (pi_0 (model self)) k)) (at2 aBl 0 k)) ∧
          (∀ t k, S t ≤ n → S t < T → k < K →
             at2 alphal (S t) k
             = fadd (forward_mix alphal Al t k) (at2 aBl (S t) k))).
  assert (P (T - 1) (up_loop (T - 1) body init)) as ([L F'] & H0 & Hrec).
  { apply up_loop_inv.
    - unfold P. split; [done|]. split; [|intros; lia].
      intros k Hk. unfold at2, init. rewrite row_insert_eq.
      + unfold vadd. rewrite at_zip_with.
        * rewrite at_vlog by lia. by rewrite (row_lookup _ _ _ HaBl0).
        * unfold vlog. rewrite length_fmap. lia.
        * lia.
      + destruct (zeros2_shape T (state_dim (model self))) as [-> _]. lia.
    - intros t alphal Ht ([L F'] & H0 & Hrec). unfold P, body.
      assert (length (vadd (logaddexp_reduce_axis1
                              (vadd (row alphal t) <$> transpose Al))
                           (row aBl (S t))) = K) as Lnew.
      { unfold vadd at 1. rewrite length_zip_with.
        unfold logaddexp_reduce_axis1. rewrite !length_fmap.
        rewrite (transpose_length K) by done.
        rewrite (row_length K) by (done || lia). lia. }
      split; [|split].
      + rewrite length_insert. split; [done|].
        by apply insert_Forall_length.
      + intros k Hk. unfold at2. rewrite row_insert_ne by lia. by apply H0.
      + intros t' k Ht' Ht'T Hk. destruct (decide (t' = t)) as [->|Hne].
        * unfold at2. rewrite row_insert_eq by lia.
          unfold vadd at 1. rewrite at_zip_with.
          -- f_equal. unfold forward_mix, logaddexp_reduce_axis1, at_.
             rewrite !list_lookup_fmap.
             rewrite (transpose_lookup K) by done. simpl.
             by rewrite row_insert_ne by lia.
          -- unfold logaddexp_reduce_axis1. rewrite !length_fmap.
             by rewrite (transpose_length K) by done.
          -- rewrite (row_length K) by (done || lia). done.
        * unfold at2, forward_mix. rewrite !row_insert_ne by lia.
          apply Hrec; (done || lia). }
  split; [by apply has_shape_spec|]. split; [done|].
  intros t k Ht Hk. apply Hrec; (done || lia).
Qed.
End HMMForward.

(** ** Sums in log space *)

Section LogSumExp.
Context {F : Type} `{!FloatOps F}.
Implicit Types (l : list F).

Hypothesis logaddexp_assoc : ∀ x y z : F,
  logaddexp (logaddexp x y) z = logaddexp x (logaddexp y z).

Lemma foldl_logaddexp x y l :
  foldl logaddexp (logaddexp x y) l = logaddexp x (foldl logaddexp y l).
Proof.
  revert y. induction l as [|a l IH]; intros y; simpl; [done|].
  by rewrite logaddexp_assoc, IH.
Qed.

Lemma logsumexp_cons x l :
  l ≠ [] → logsumexp (x :: l) = logaddexp x (logsumexp l).
Proof. destruct l as [|y l]; [done|]. intros _. simpl. apply foldl_logaddexp. Qed.

Lemma logsumexp_app l1 l2 :
  l1 ≠ [] → l2 ≠ [] →
  logsumexp (l1 ++ l2) = logaddexp (logsumexp l1) (logsumexp l2).
Proof.
  intros H1 H2. induction l1 as [|x l1 IH]; [done|].
  destruct l1 as [|y l1].
  - simpl app. by apply logsumexp_cons.
  - rewrite <- app_comm_cons. rewrite logsumexp_cons by done.
    rewrite IH by done. rewrite (logsumexp_cons x (y :: l1)) by done.
    by rewrite logaddexp_assoc.
Qed.

Lemma logsumexp_concat (ls : list (list F)) :
  ls ≠ [] → Forall (λ l, l ≠ []) ls →
  logsumexp (concat ls) = logsumexp (logsumexp <$> ls).
Proof.
  intros Hne Hall. induction ls as [|l ls IH]; [done|].
  apply Forall_cons in Hall as [Hl Hls].
  destruct ls as [|l' ls].
  - simpl. by rewrite app_nil_r.
  - change (concat (l :: l' :: ls)) with (l ++ concat (l' :: ls)).
    rewrite logsumexp_app; [|done|].
    + rewrite IH by done.
      change (logsumexp <$> l :: l' :: ls)
        with (logsumexp l :: (logsumexp <$> l' :: ls)).
      by rewrite logsumexp_cons.
    + apply Forall_cons in Hls as [Hl' _]. simpl.
      destruct l'; [done|]. done.
Qed.

Hypothesis fadd_logaddexp_distr : ∀ x y z : F,
  fadd (logaddexp x y) z = logaddexp (fadd x z) (fadd y z).

Lemma logsumexp_fadd l a :
  l ≠ [] → fadd (logsumexp l) a = logsumexp ((λ x, fadd x a) <$> l).
Proof.
  intros Hne. induction l as [|x l IH]; [done|].
  destruct l as [|y l]; [done|].
  rewrite logsumexp_cons by done. rewrite fadd_logaddexp_distr, IH by done.
  change ((λ x, fadd x a) <$> x :: y :: l)
    with (fadd x a :: ((λ x, fadd x a) <$> y :: l)).
  by rewrite logsumexp_cons.
Qed.
End LogSumExp.

(** ** State paths *)

Section Paths.
Context {F : Type} `{!FloatOps F} {Obs : Type}.

Lemma elem_of_concat {A : Type} (x : A) (ls : list (list A)) :
  x ∈ concat ls ↔ ∃ l, x ∈ l ∧ l ∈ ls.
Proof.
  induction ls as [|l ls IH]; simpl.
  - rewrite elem_of_nil. split; [done|]. intros (l & _ & Hl).
    by apply elem_of_nil in Hl.
  - rewrite elem_of_app, IH. split.
    + intros [Hx|(l' & Hx & Hl')].
      * exists l. split; [done|]. apply elem_of_cons. by left.
      * exists l'. split; [done|]. apply elem_of_cons. by right.
    + intros (l' & Hx & Hl'). apply elem_of_cons in Hl' as [->|Hl'].
      * by left.
      * right. by exists l'.
Qed.

Lemma paths_ending_spec (K n k : nat) (z : list nat) :
  z ∈ paths_ending K n k → length z = S n ∧ last z = Some k.
Proof.
  revert k z. induction n as [|n IH]; intros k z Hz; simpl in Hz.
  - apply list_elem_of_singleton in Hz as ->. done.
  - apply elem_of_concat in Hz as (l & Hz & Hl).
    apply list_elem_of_fmap in Hl as (j & -> & _).
    apply list_elem_of_fmap in Hz as (z' & -> & Hz').
    apply IH in Hz' as [Hlen _].
    rewrite length_app, last_snoc. simpl. split; [lia|done].
Qed.

Lemma paths_ending_nonempty (K n k : nat) : 0 < K → paths_ending K n k ≠ [].
Proof.
  intros HK. revert k. induction n as [|n IH]; intros k; simpl; [done|].
  destruct K as [|K]; [lia|]. simpl.
  destruct (paths_ending (S K) n 0) eqn:E; [by apply IH in E|]. done.
Qed.

Lemma path_loglik_snoc (m : Model F Obs) (aBl : list (list F))
    (z : list nat) (n j k : nat) :
  length z = S n → last z = Some j →
  path_loglik m aBl (z ++ [k])
  = fadd (fadd (path_loglik m aBl z) (at2 (mlog (trans_distn m)) j k))
         (at2 aBl (S n) k).
Proof.
  intros Hlen Hlast. unfold path_loglik. rewrite reverse_snoc.
  rewrite <- head_reverse in Hlast.
  destruct (reverse z) as [|j' rest] eqn:E; [done|].
  simpl in Hlast. injection Hlast as ->.
  assert (length (j :: rest) = S n) as Hl.
  { rewrite <- E, length_reverse. done. }
  simpl. simpl in Hl. by rewrite Hl.
Qed.

Lemma fmap_concat {A B : Type} (f : A → B) (ls : list (list A)) :
  f <$> concat ls = concat ((λ l : list A, f <$> l) <$> ls).
Proof.
  induction ls as [|l ls IH]; [done|]. simpl. by rewrite fmap_app, IH.
Qed.

Lemma vadd_as_map (K : nat) (v r : list F) :
  length v = K → length r = K →
  vadd v r = (λ j, fadd (at_ v j) (at_ r j)) <$> seq 0 K.
Proof.
  intros Hv Hr. apply list_eq. intros i. unfold vadd.
  rewrite lookup_zip_with, list_lookup_fmap.
  destruct (decide (i < K)) as [Hi|Hi].
  - rewrite (proj2 (lookup_seq 0 K i i)) by (split; [done|lia]). simpl.
    unfold at_.
    destruct (lookup_lt_is_Some_2 v i) as [x ->]; [lia|].
    by destruct (lookup_lt_is_Some_2 r i) as [y ->]; [lia|].
  - rewrite (lookup_ge_None_2 v) by lia.
    by rewrite (lookup_ge_None_2 (seq 0 K)) by (rewrite length_seq; lia).
Qed.

Lemma row_as_map (K : nat) (M : list (list F)) (t : nat) :
  length (row M t) = K → row M t = (λ k, at2 M t k) <$> seq 0 K.
Proof.
  intros Hlen. apply list_eq. intros i. rewrite list_lookup_fmap.
  destruct (decide (i < K)) as [Hi|Hi].
  - rewrite (proj2 (lookup_seq 0 K i i)) by (split; [done|lia]). simpl.
    unfold at2, at_.
    by destruct (lookup_lt_is_Some_2 (row M t) i) as [x ->]; [lia|].
  - rewrite lookup_ge_None_2 by lia.
    by rewrite (lookup_ge_None_2 (seq 0 K)) by (rewrite length_seq; lia).
Qed.
End Paths.

(** ** The forward table sums over paths *)

Section ForwardPaths.
Context {F : Type} `{!FloatOps F} {Obs : Type}.

Hypothesis logaddexp_assoc : ∀ x y z : F,
  logaddexp (logaddexp x y) z = logaddexp x (logaddexp y z).
Hypothesis fadd_logaddexp_distr : ∀ x y z : F,
  fadd (logaddexp x y) z = logaddexp (fadd x z) (fadd y z).

Variables (m : Model F Obs) (aBl alphal : list (list F)) (K : nat).
Hypothesis HK : 0 < K.
Hypothesis Hpi : length (pi_0 m) = K.
Hypothesis HA : has_shape K K (trans_distn m) = true.
Hypothesis Halphal : has_shape (length aBl) K alphal = true.
Hypothesis Hbase : ∀ k, k < K →
  at2 alphal 0 k = fadd (flog (at_ (pi_0 m) k)) (at2 aBl 0 k).
Hypothesis Hrec : ∀ t k, S t < length aBl → k < K →
  at2 alphal (S t) k
  = fadd (forward_mix alphal (mlog (trans_distn m)) t k) (at2 aBl (S t) k).

Lemma seq_nonempty (n : nat) : 0 < n → seq 0 n ≠ [].
Proof. destruct n; [lia|done]. Qed.

Lemma fmap_nonempty {A B : Type} (f : A → B) (l : list A) :
  l ≠ [] → f <$> l ≠ [].
Proof. by destruct l. Qed.

(** [alphal[n,k]] is the sum over the paths [z_0..z_n] with [z_n = k]. *)
Lemma alphal_paths (n k : nat) :
  n < length aBl → k < K →
  at2 alphal n k = logsumexp (path_loglik m aBl <$> paths_ending K n k).
Proof.
  revert k. induction n as [|n IH]; intros k Hn Hk.
  - rewrite Hbase by done. simpl. unfold path_loglik. simpl.
    by rewrite at_vlog by lia.
  - rewrite Hrec by done. unfold forward_mix.
    apply has_shape_spec in Halphal as [La Fa].
    apply has_shape_spec in HA as [LA FA].
    rewrite (vadd_as_map K).
    2: { apply row_length; [done|lia]. }
    2: { rewrite column_length. unfold mlog. by rewrite length_fmap. }
    rewrite (logsumexp_fadd logaddexp_assoc fadd_logaddexp_distr).
    2: { apply fmap_nonempty, seq_nonempty. done. }
    rewrite <- list_fmap_compose.
    simpl paths_ending. rewrite fmap_concat. rewrite <- list_fmap_compose.
    rewrite (logsumexp_concat logaddexp_assoc).
    2: { apply fmap_nonempty, seq_nonempty. done. }
    2: { apply Forall_fmap, Forall_forall. intros j _. simpl.
         apply fmap_nonempty, fmap_nonempty. by apply paths_ending_nonempty. }
    rewrite <- list_fmap_compose. f_equal.
    apply list_fmap_ext. intros j j' Hj. apply lookup_seq in Hj as [Hjj Hj].
    simpl in Hjj. subst j'.
    simpl. fold (at2 alphal n j). rewrite IH by lia.
    unfold at_ at 1. rewrite column_lookup.
    2: { unfold mlog. rewrite length_fmap. lia. }
    simpl.
    rewrite !(logsumexp_fadd logaddexp_assoc fadd_logaddexp_distr).
    2,3: repeat apply fmap_nonempty; by apply paths_ending_nonempty.
    rewrite <- !list_fmap_compose. f_equal.
    apply Forall_fmap_ext, Forall_forall. intros z Hz. simpl.
    apply paths_ending_spec in Hz as [Hlen Hlast].
    by rewrite (path_loglik_snoc m aBl z n j k).
Qed.

(** [logsumexp(alphal[T-1])] is the sum over all paths. *)
Lemma alphal_brute_force :
  0 < length aBl → state_dim m = K →
  logsumexp (row alphal (length aBl - 1)) = brute_force_loglik m aBl.
Proof.
  intros HT Hsd. unfold brute_force_loglik. rewrite Hsd.
  pose proof Halphal as Hs. apply has_shape_spec in Hs as [La Fa].
  assert (∃ n, length aBl = S n) as [n Hn] by (exists (length aBl - 1); lia).
  rewrite Hn. replace (S n - 1) with n by lia. simpl all_paths.
  rewrite (row_as_map K).
  2: { apply row_length; [done|lia]. }
  rewrite fmap_concat, <- list_fmap_compose.
  rewrite (logsumexp_concat logaddexp_assoc).
  2: { apply fmap_nonempty, seq_nonempty. done. }
  2: { apply Forall_fmap, Forall_forall. intros j _. simpl.
       apply fmap_nonempty. by apply paths_ending_nonempty. }
  rewrite <- list_fmap_compose. f_equal.
  apply list_fmap_ext. intros k k' Hk. apply lookup_seq in Hk as [Hkk Hk].
  simpl in Hkk. subst k'.
  simpl. apply alphal_paths; [lia|done].
Qed.
End ForwardPaths.

(** [all_paths K T] lists the [K^T] state paths of length [T]. *)
Section AllPaths.

Lemma paths_ending_elem (K n k : nat) (z : list nat) :
  z ∈ paths_ending K n k ↔
  ∃ z', z = z' ++ [k] ∧ length z' = n ∧ Forall (λ s, s < K) z'.
Proof.
  revert k z. induction n as [|n IH]; intros k z; simpl.
  - rewrite list_elem_of_singleton. split.
    + intros ->. by exists [].
    + intros (z' & -> & Hlen & _). by destruct z'.
  - rewrite elem_of_concat. split.
    + intros (l & Hz & Hl). apply list_elem_of_fmap in Hl as (j & -> & Hj).
      apply list_elem_of_fmap in Hz as (z' & -> & Hz').
      apply elem_of_seq in Hj. apply IH in Hz' as (z'' & -> & Hlen & Hall).
      exists (z'' ++ [j]). split; [done|].
      rewrite length_app. simpl. split; [lia|].
      apply Forall_app. split; [done|]. apply Forall_singleton. lia.
    + intros (z' & -> & Hlen & Hall).
      destruct (decide (z' = [])) as [->|Hne]; [done|].
      destruct (exists_last Hne) as (z'' & j & ->).
      apply Forall_app in Hall as [Hall Hj].
      rewrite Forall_singleton in Hj.
      rewrite length_app in Hlen. simpl in Hlen.
      exists ((λ z, z ++ [k]) <$> paths_ending K n j). split.
      * apply list_elem_of_fmap. exists (z'' ++ [j]). split; [done|].
        apply IH. exists z''. split; [done|]. split; [lia|done].
      * apply list_elem_of_fmap. exists j. split; [done|].
        apply elem_of_seq. lia.
Qed.

Lemma all_paths_elem (K T : nat) (z : list nat) :
  z ∈ all_paths K T ↔ length z = T ∧ Forall (λ s, s < K) z.
Proof.
  destruct T as [|n]; simpl.
  - rewrite list_elem_of_singleton. split.
    + by intros ->.
    + intros [Hlen _]. by destruct z.
  - rewrite elem_of_concat. split.
    + intros (l & Hz & Hl). apply list_elem_of_fmap in Hl as (k & -> & Hk).
      apply elem_of_seq in Hk.
      apply paths_ending_elem in Hz as (z' & -> & Hlen & Hall).
      rewrite length_app. simpl. split; [lia|].
      apply Forall_app. split; [done|]. apply Forall_singleton. lia.
    + intros [Hlen Hall].
      destruct (decide (z = [])) as [->|Hne]; [done|].
      destruct (exists_last Hne) as (z' & k & ->).
      apply Forall_app in Hall as [Hall Hk]. rewrite Forall_singleton in Hk.
      rewrite length_app in Hlen. simpl in Hlen.
      exists (paths_ending K n k). split.
      * apply paths_ending_elem. exists z'. split; [done|]. split; [lia|done].
      * apply list_elem_of_fmap. exists k. split; [done|].
        apply elem_of_seq. lia.
Qed.

Lemma length_concat_const {A : Type} (ls : list (list A)) (c : nat) :
  Forall (λ l, length l = c) ls → length (concat ls) = length ls * c.
Proof.
  induction 1 as [|l ls Hl _ IH]; simpl; [done|].
  rewrite length_app, IH, Hl. lia.
Qed.

Lemma paths_ending_length (K n k : nat) :
  length (paths_ending K n k) = K ^ n.
Proof.
  revert k. induction n as [|n IH]; intros k; simpl; [done|].
  rewrite (length_concat_const _ (K ^ n)).
  - by rewrite length_fmap, length_seq.
  - apply Forall_fmap, Forall_forall. intros j _. simpl.
    by rewrite length_fmap.
Qed.

Lemma all_paths_length (K T : nat) : length (all_paths K T) = K ^ T.
Proof.
  destruct T as [|n]; simpl; [done|].
  rewrite (length_concat_const _ (K ^ n)).
  - by rewrite length_fmap, length_seq.
  - apply Forall_fmap, Forall_forall. intros k _. simpl.
    apply paths_ending_length.
Qed.
End AllPaths.

(** * The claims *)

Section Claims.
Context {F : Type} `{!FloatOps F} {Obs : Type}.

(** C1.  [HSMMStatesPython.messages_backwards], on tables of [T] rows and
    [K] columns with a positive truncation horizon, returns [betal] and
    [betastarl] such that for every [t < T] and state [k],
    [betastarl[t,k]] is the [logsumexp] over [d] in
    [0..min(trunc,T-t)-1] of
    [betal[t+d,k] + sum_{s=t}^{t+d} aBl[s,k] + aDl[d,k]], and, exactly
    when censoring is enabled and [T-t < trunc], the censored term
    [likelihood_block(t,T,k) + aDsl[T-t-1,k]] is log-added to it. *)
Theorem hsmm_messages_backwards_betastarl (self : states F Obs)
    (aBl0 Al aDl aDsl : list (list F)) (trunc : option nat) (K : nat) :
  aBl self = Some (Some aBl0) →
  has_shape (length aDl) K aBl0 = true →
  has_shape (length aDl) K aDl = true →
  has_shape (length aDl) K aDsl = true →
  length Al = K → 0 < length aDl → 0 < default (length aDl) trunc →
  ∃ betal betastarl,
    HSMMStatesPython.messages_backwards self Al aDl aDsl trunc
    = mret (betal, betastarl) ∧
    ∀ t k, t < length aDl → k < K →
      at2 betastarl t k
      = if (length aDl - t <? default (length aDl) trunc) && censoring self
        then logaddexp
               (logsumexp (duration_terms betal aBl0 aDl t k
                             (default (length aDl) trunc `min` (length aDl - t))))
               (censored_term aBl0 aDsl (length aDl) t k)
        else logsumexp (duration_terms betal aBl0 aDl t k
                          (default (length aDl) trunc `min` (length aDl - t))).
Proof.
  intros Hself HaBl0 HaDl HaDsl HAl HT _.
  destruct (hsmm_messages_backwards_spec self aBl0 Al aDl aDsl trunc K)
    as (betal_loop & betal & betastarl & _ & _ & Hrun & _ & _ & _ & Hbs & _);
    try done.
  exists betal, betastarl. split; [done|].
  intros t k Ht Hk. rewrite Hbs by done. unfold betastarl_spec.
  by destruct ((length aDl - t <? default (length aDl) trunc)
               && censoring self).
Qed.

(** C5.  The last row of the backward messages is zero after the backward
    pass: after [HMMStatesPython.messages_backwards], and after
    [HSMMStatesPython.messages_backwards], where the loop runs first, the
    boundary row is assigned once after it, and the rows the recursion
    computed are those of the recursion with a zero boundary row. *)
Theorem backward_last_row_zero (hmm_self self : states F Obs)
    (aBl' aBl0 Al aDl aDsl : list (list F)) (trunc : option nat) (K : nat) :
  0 < length aBl' →
  aBl self = Some (Some aBl0) →
  has_shape (length aDl) K aBl0 = true →
  has_shape (length aDl) K aDl = true →
  has_shape (length aDl) K aDsl = true →
  length Al = K → 0 < length aDl → 0 < default (length aDl) trunc →
  row (HMMStatesPython.messages_backwards hmm_self aBl') (length aBl' - 1)
  = zeros (length (row aBl' 0)) ∧
  ∃ betal_loop betal betastarl,
    down_loopM (length aDl)
      (HSMMStatesPython.backwards_step self Al aDl aDsl (length aDl)
         (default (length aDl) trunc) K)
      (zeros2 (length aDl) K, zeros2 (length aDl) K)
    = mret (betal_loop, betastarl) ∧
    betal = <[length aDl - 1 := zeros K]> betal_loop ∧
    HSMMStatesPython.messages_backwards self Al aDl aDsl trunc
    = mret (betal, betastarl) ∧
    row betal (length aDl - 1) = zeros K ∧
    (∀ t k, t < length aDl → k < K →
       at2 betastarl t k
       = betastarl_spec (censoring self) betal aBl0 aDl aDsl (length aDl)
           (default (length aDl) trunc) t k) ∧
    (∀ t k, S t < length aDl → k < K →
       at2 betal t k = mix_next betastarl Al (S t) k).
Proof.
  intros HT' Hself HaBl0 HaDl HaDsl HAl HT _. split.
  - by apply hmm_messages_backwards_last_row.
  - destruct (hsmm_messages_backwards_spec self aBl0 Al aDl aDsl trunc K)
      as (betal_loop & betal & betastarl & Hloop & Hset & Hrun & _ & _
          & Hlast & Hbs & Hb); try done.
    by exists betal_loop, betal, betastarl.
Qed.

(** C2.  [HMMStatesPython.messages_forwards], on a table [aBl] of [T >= 1]
    rows and [K] columns, returns [alphal] with
    [alphal[0,k] = log(pi0[k]) + aBl[0,k]] and
    [alphal[t+1,k] = logsumexp_j(alphal[t,j] + log A[j,k]) + aBl[t+1,k]];
    [T] is the number of rows of [aBl], whatever the object stores; and,
    where [logaddexp] is associative and [+] distributes over it,
    [logsumexp(alphal[T-1])] is the log marginal likelihood summed over
    all [K^T] state paths. *)
Theorem hmm_messages_forwards_correct (self : states F Obs)
    (aBl : list (list F)) (K : nat) :
  (∀ x y z : F, logaddexp (logaddexp x y) z = logaddexp x (logaddexp y z)) →
  (∀ x y z : F, fadd (logaddexp x y) z = logaddexp (fadd x z) (fadd y z)) →
  state_dim (model self) = K →
  length (pi_0 (model self)) = K →
  has_shape K K (trans_distn (model self)) = true →
  has_shape (length aBl) K aBl = true →
  0 < length aBl → 0 < K →
  ∃ alphal,
    HMMStatesPython.messages_forwards self aBl = mret alphal ∧
    (∀ self' : states F Obs, model self' = model self →
       HMMStatesPython.messages_forwards self' aBl = mret alphal) ∧
    (∀ k, k < K →
       at2 alphal 0 k = fadd (flog (at_ (pi_0 (model self)) k)) (at2 aBl 0 k)) ∧
    (∀ t k, S t < length aBl → k < K →
       at2 alphal (S t) k
       = fadd (logsumexp (vadd (row alphal t)
                            (column (mlog (trans_distn (model self))) k)))
              (at2 aBl (S t) k)) ∧
    logsumexp (row alphal (length aBl - 1))
    = brute_force_loglik (model self) aBl ∧
    length (all_paths K (length aBl)) = K ^ length aBl.
Proof.
  intros Hassoc Hdistr Hsd Hpi HA HaBl HT HK.
  destruct (hmm_messages_forwards_spec self aBl K)
    as (alphal & Hrun & Hshape & Hbase & Hrec); try done.
  exists alphal. split; [done|]. split.
  { intros self' Hm. rewrite <- Hrun.
    unfold HMMStatesPython.messages_forwards. by rewrite Hm. }
  split; [done|]. split; [done|]. split.
  - by apply (alphal_brute_force Hassoc Hdistr (model self) aBl alphal K).
  - apply all_paths_length.
Qed.
End Claims.

(** ** The claims at concrete inputs *)

Lemma hsmm_messages_backwards_betastarl_witness :
  ∃ betal betastarl,
    HSMMStatesPython.messages_backwards Examples.hsmm_self Examples.hsmm_Al
      Examples.hsmm_aDl Examples.hsmm_aDsl None
    = mret (betal, betastarl) ∧
    ∀ t k, t < length Examples.hsmm_aDl → k < 2 →
      at2 betastarl t k
      = if (length Examples.hsmm_aDl - t
              <? default (length Examples.hsmm_aDl) None)
           && censoring Examples.hsmm_self
        then logaddexp
               (logsumexp (duration_terms betal Examples.hsmm_aBl
                             Examples.hsmm_aDl t k
                             (default (length Examples.hsmm_aDl) None
                                `min` (length Examples.hsmm_aDl - t))))
               (censored_term Examples.hsmm_aBl Examples.hsmm_aDsl
                  (length Examples.hsmm_aDl) t k)
        else logsumexp (duration_terms betal Examples.hsmm_aBl
                          Examples.hsmm_aDl t k
                          (default (length Examples.hsmm_aDl) None
                             `min` (length Examples.hsmm_aDl - t))).
Proof.
  apply (hsmm_messages_backwards_betastarl Examples.hsmm_self
           Examples.hsmm_aBl Examples.hsmm_Al Examples.hsmm_aDl
           Examples.hsmm_aDsl None 2).
  - reflexivity.
  - reflexivity.
  - reflexivity.
  - reflexivity.
  - reflexivity.
  - simpl. lia.
  - simpl. lia.
Defined.

Lemma backward_last_row_zero_witness :
  row (HMMStatesPython.messages_backwards Examples.hsmm_self Examples.hsmm_aBl)
    (length Examples.hsmm_aBl - 1)
  = zeros (length (row Examples.hsmm_aBl 0)) ∧
  ∃ betal_loop betal betastarl,
    down_loopM (length Examples.hsmm_aDl)
      (HSMMStatesPython.backwards_step Examples.hsmm_self Examples.hsmm_Al
         Examples.hsmm_aDl Examples.hsmm_aDsl (length Examples.hsmm_aDl)
         (default (length Examples.hsmm_aDl) None) 2)
      (zeros2 (length Examples.hsmm_aDl) 2, zeros2 (length Examples.hsmm_aDl) 2)
    = mret (betal_loop, betastarl) ∧
    betal = <[length Examples.hsmm_aDl - 1 := zeros 2]> betal_loop ∧
    HSMMStatesPython.messages_backwards Examples.hsmm_self Examples.hsmm_Al
      Examples.hsmm_aDl Examples.hsmm_aDsl None
    = mret (betal, betastarl) ∧
    row betal (length Examples.hsmm_aDl - 1) = zeros 2 ∧
    (∀ t k, t < length Examples.hsmm_aDl → k < 2 →
       at2 betastarl t k
       = betastarl_spec (censoring Examples.hsmm_self) betal
           Examples.hsmm_aBl Examples.hsmm_aDl Examples.hsmm_aDsl
           (length Examples.hsmm_aDl)
           (default (length Examples.hsmm_aDl) None) t k) ∧
    (∀ t k, S t < length Examples.hsmm_aDl → k < 2 →
       at2 betal t k = mix_next betastarl Examples.hsmm_Al (S t) k).
Proof.
  apply (backward_last_row_zero Examples.hsmm_self Examples.hsmm_self
           Examples.hsmm_aBl Examples.hsmm_aBl Examples.hsmm_Al
           Examples.hsmm_aDl Examples.hsmm_aDsl None 2).
  - simpl. lia.
  - reflexivity.
  - reflexivity.
  - reflexivity.
  - reflexivity.
  - reflexivity.
  - simpl. lia.
  - simpl. lia.
Defined.

Lemma hmm_messages_forwards_correct_witness :
  ∃ alphal,
    HMMStatesPython.messages_forwards Examples.hmm_self Examples.hmm_aBl
    = mret alphal ∧
    (∀ self' : states Qc unit, model self' = model Examples.hmm_self →
       HMMStatesPython.messages_forwards self' Examples.hmm_aBl = mret alphal) ∧
    (∀ k, k < 2 →
       at2 alphal 0 k
       = fadd (flog (at_ (pi_0 (model Examples.hmm_self)) k))
              (at2 Examples.hmm_aBl 0 k)) ∧
    (∀ t k, S t < length Examples.hmm_aBl → k < 2 →
       at2 alphal (S t) k
       = fadd (logsumexp
                 (vadd (row alphal t)
                    (column (mlog (trans_distn (model Examples.hmm_self))) k)))
              (at2 Examples.hmm_aBl (S t) k)) ∧
    logsumexp (row alphal (length Examples.hmm_aBl - 1))
    = brute_force_loglik (model Examples.hmm_self) Examples.hmm_aBl ∧
    length (all_paths 2 (length Examples.hmm_aBl)) = 2 ^ length Examples.hmm_aBl.
Proof.
  apply (hmm_messages_forwards_correct Examples.hmm_self Examples.hmm_aBl 2).
  - intros x y z. symmetry. apply Qcplus_assoc.
  - intros x y z. apply Qcmult_plus_distr_l.
  - reflexivity.
  - reflexivity.
  - reflexivity.
  - reflexivity.
  - simpl. lia.
  - lia.
Defined.

(** ** The block recursion on singleton changepoints *)

Section BlockSingletons.
Context {F : Type} `{!FloatOps F} {Obs : Type}.
Implicit Types (M betal betastarl : list (list F)) (v r : list F).

Lemma scan_add_ones (a n : nat) :
  scan Nat.add a (replicate n 1) = seq (S a) n.
Proof.
  revert a. induction n as [|n IH]; intros a; simpl; [done|].
  rewrite Nat.add_1_r. by rewrite IH.
Qed.

Lemma cumsum_int_ones (n : nat) :
  HSMMStatesPossibleChangepoints.cumsum_int (replicate n 1) = seq 1 n.
Proof. destruct n; simpl; [done|]. by rewrite scan_add_ones. Qed.

Lemma filter_lt_seq (a n m : nat) :
  filter (λ d, d < m) (seq a n) = seq a (n `min` (m - a)).
Proof.
  revert a. induction n as [|n IH]; intros a; simpl; [done|].
  rewrite filter_cons. destruct (decide (a < m)) as [Ha|Ha].
  - rewrite IH. replace (m - a) with (S (m - S a)) by lia. done.
  - rewrite IH. replace (m - a) with 0 by lia.
    replace (m - S a) with 0 by lia. by rewrite Nat.min_0_r.
Qed.

Lemma possible_durations_singletons (self : states F Obs) (T tr t : nat) :
  blocklens self = replicate T 1 → t < T →
  HSMMStatesPossibleChangepoints.possible_durations self tr t
  = mret (seq 1 (cp_horizon T tr t)).
Proof.
  intros Hb Ht. unfold HSMMStatesPossibleChangepoints.possible_durations.
  rewrite Hb, drop_replicate, cumsum_int_ones.
  assert (seq 1 (T - t) !! 0 = Some 1) as H0.
  { apply lookup_seq. lia. }
  unfold getitem. rewrite H0. cbn [mbind result_bind mret result_ret].
  rewrite filter_lt_seq. unfold cp_horizon. do 2 f_equal. lia.
Qed.

Lemma drop_lookup_cons {A : Type} (l : list A) (a : nat) (x : A) :
  l !! a = Some x → drop a l = x :: drop (S a) l.
Proof.
  revert a. induction l as [|y l IH]; intros a Hx; [done|].
  destruct a as [|a]; simpl in *; [by injection Hx as ->|]. by apply IH.
Qed.

Lemma getitem_z_pred {A : Type} (l : list A) (a : nat) (x : A) :
  l !! a = Some x → getitem_z l (Z.of_nat (S a) - 1) = mret x.
Proof.
  intros Hx. pose proof (lookup_lt_Some _ _ _ Hx) as Ha.
  unfold getitem_z, wrap_index, getitem.
  destruct (Z.leb_spec (- Z.of_nat (length l)) (Z.of_nat (S a) - 1)); [|lia].
  destruct (Z.ltb_spec (Z.of_nat (S a) - 1) (Z.of_nat (length l))); [|lia].
  simpl andb. cbv iota.
  destruct (Z.ltb_spec (Z.of_nat (S a) - 1) 0); [lia|].
  replace (Z.to_nat (Z.of_nat (S a) - 1)) with a by lia. by rewrite Hx.
Qed.

Lemma duration_rows_seq (aDl : list (list F)) (a n : nat) :
  a + n ≤ length aDl →
  mapM (λ d, getitem_z aDl (Z.of_nat d - 1)) (seq (S a) n)
  = mret (take n (drop a aDl)).
Proof.
  revert a. induction n as [|n IH]; intros a Hn; [done|].
  destruct (lookup_lt_is_Some_2 aDl a) as [x Hx]; [lia|].
  change (seq (S a) (S n)) with (S a :: seq (S (S a)) n).
  cbn [mapM]. rewrite (getitem_z_pred _ _ _ Hx).
  cbn [mbind result_bind mret result_ret].
  rewrite IH by lia. cbn [mbind result_bind mret result_ret].
  by rewrite (drop_lookup_cons _ _ _ Hx).
Qed.

Lemma column_fmap_vsub (K : nat) M (N : list F) k :
  Forall (λ v, length v = K) M → length N = K → k < K →
  column ((λ r, vsub r N) <$> M) k = (λ x, fsub x (at_ N k)) <$> column M k.
Proof.
  intros HM HN Hk. unfold column. rewrite <- !list_fmap_compose.
  apply Forall_fmap_ext. eapply Forall_impl; [exact HM|].
  intros r Hr. simpl in *. unfold vsub. apply at_zip_with; lia.
Qed.

Lemma cp_betastarl_spec_ext betal betal' (aBl0 aDl : list (list F))
    (T tr t k : nat) :
  (∀ i, t ≤ i → i < T → row betal i = row betal' i) →
  cp_betastarl_spec betal aBl0 aDl T tr t k
  = cp_betastarl_spec betal' aBl0 aDl T tr t k.
Proof.
  intros Hagree. unfold cp_betastarl_spec. do 2 f_equal.
  unfold duration_terms. apply list_fmap_ext. intros i d Hd.
  apply lookup_seq in Hd as [Hdd Hd]. simpl in Hdd. subst d.
  unfold at2. rewrite Hagree; [done|lia|]. unfold cp_horizon in Hd. lia.
Qed.

Lemma cp_step_ok (self : states F Obs) (aBl0 Al aDl : list (list F))
    (T tr K t : nat) betal betastarl :
  blocklens self = replicate T 1 →
  aBBl self = Some aBl0 →
  has_shape T K aBl0 = true → has_shape T K aDl = true →
  t < T →
  length betal = T → Forall (λ v, length v = K) betal →
  length betastarl = T → Forall (λ v, length v = K) betastarl →
  ∃ X, length X = K ∧
       (∀ k, k < K → at_ X k = cp_betastarl_spec betal aBl0 aDl T tr t k) ∧
       HSMMStatesPossibleChangepoints.backwards_step self Al aDl T tr K t
         (betal, betastarl)
       = mret (<[wrap_index T (Z.of_nat t - 1) :=
                  logaddexp_reduce_axis1 (vadd X <$> Al)]> betal,
               <[t := X]> betastarl).
Proof.
  intros Hbl HaBBl HaBl0 HaDl Ht L1 F1 L2 F2.
  pose proof HaBl0 as HsB. apply has_shape_spec in HsB as [LB FB].
  pose proof HaDl as HsD. apply has_shape_spec in HsD as [LD FD].
  set (n := cp_horizon T tr t).
  assert (0 < n ∧ n ≤ T - t) as [Hn0 Hn] by (unfold n, cp_horizon; lia).
  unfold HSMMStatesPossibleChangepoints.backwards_step.
  rewrite (possible_durations_singletons self T tr t Hbl Ht).
  cbn [mbind result_bind mret result_ret]. fold n.
  unfold HSMMStatesPossibleChangepoints.duration_rows.
  rewrite (duration_rows_seq aDl 0 n) by lia.
  cbn [mbind result_bind mret result_ret]. rewrite drop_0.
  unfold HSMMStatesPossibleChangepoints.block_cumulative_likelihoods,
    get_self_aBBl. rewrite HaBBl.
  cbn [mbind result_bind mret result_ret]. rewrite length_seq.
  rewrite (take_ge (cumsum_axis0 _)).
  2: { rewrite cumsum_axis0_length, slice_length. lia. }
  rewrite row_insert_eq by lia.
  set (N := logaddexp_reduce_axis0 K (take n aDl)).
  set (R := madd (madd (slice betal t (t + n))
                       (cumsum_axis0 (slice aBl0 t (t + n)))) (take n aDl)).
  assert (Forall (λ v, length v = K) R) as FR.
  { pose proof (duration_rows_shape aBl0 aDl T n K betal t HaBl0 HaDl F1) as H.
    replace (n `min` (T - t)) with n in H by lia. exact H. }
  assert (length N = K) as LN.
  { apply length_logaddexp_reduce_axis0. by apply Forall_take. }
  eexists. split; [|split; [|reflexivity]].
  - apply length_logaddexp_reduce_axis0. apply Forall_fmap.
    eapply Forall_impl; [exact FR|]. intros r Hr. simpl in *.
    unfold vsub. rewrite length_zip_with. lia.
  - intros k Hk. rewrite at_logaddexp_reduce_axis0; [| |done].
    2: { apply Forall_fmap. eapply Forall_impl; [exact FR|].
         intros r Hr. simpl in *. unfold vsub. rewrite length_zip_with. lia. }
    rewrite (column_fmap_vsub K) by done.
    assert (at_ N k = cp_normalizer aDl n k) as ->.
    { unfold N. rewrite at_logaddexp_reduce_axis0;
        [|by apply Forall_take|done].
      unfold cp_normalizer. f_equal. apply column_ext.
      - rewrite length_take. lia.
      - intros d Hd. unfold at2, row. rewrite lookup_take.
        by destruct (decide (d < n)). }
    unfold cp_betastarl_spec. fold n. do 2 f_equal.
    pose proof (duration_sum_column aBl0 aDl T n K betal t k
                  HaBl0 HaDl L1 F1 Ht Hk) as H.
    replace (n `min` (T - t)) with n in H by lia. exact H.
Qed.
End BlockSingletons.

(** ** The block likelihood table *)

Section BlockTableFacts.
Context {F : Type} `{!FloatOps F} {Obs : Type}.
Implicit Types (M : list (list F)).

Lemma setitem_nat {A : Type} (i : nat) (x : A) (l : list A) :
  i < length l → setitem (Z.of_nat i) x l = mret (<[i := x]> l).
Proof.
  intros Hi. unfold setitem, wrap_index.
  destruct (Z.leb_spec (- Z.of_nat (length l)) (Z.of_nat i)); [|lia].
  destruct (Z.ltb_spec (Z.of_nat i) (Z.of_nat (length l))); [|lia].
  destruct (Z.ltb_spec (Z.of_nat i) 0); [lia|]. simpl.
  by rewrite Nat2Z.id.
Qed.

Lemma fill_aBBl_spec (K : nat) (aBl : list (list F)) (idx : nat)
    (cps : list (nat * nat)) M :
  idx + length cps ≤ length M →
  HSMMStatesPossibleChangepoints.fill_aBBl K aBl idx cps M
  = mret (take idx M ++ block_sums K aBl cps ++ drop (idx + length cps) M).
Proof.
  revert idx M. induction cps as [|[start stop] cps IH]; intros idx M Hlen.
  - simpl. rewrite Nat.add_0_r. by rewrite take_drop.
  - simpl in Hlen. simpl.
    rewrite setitem_nat by lia. cbn [mbind result_bind mret result_ret].
    rewrite IH by (rewrite length_insert; lia).
    f_equal.
    rewrite (take_S_r _ _ (sum_axis0 K (slice aBl start stop))).
    2: { apply list_lookup_insert_eq. lia. }
    rewrite take_insert_ge by lia.
    rewrite (drop_insert_lt M (S idx + length cps) idx) by lia.
    rewrite <- app_assoc. simpl. do 4 f_equal. lia.
Qed.

Lemma get_aBl_spec (self : states F Obs) (data : list Obs) :
  Tblock self = length (changepoints self) →
  HSMMStatesPossibleChangepoints.get_aBl self data
  = mret (set_aBBl (Some (block_sums (state_dim (model self))
                            (HMMStatesPython.get_aBl self data)
                            (changepoints self))) self, None).
Proof.
  intros HT. unfold HSMMStatesPossibleChangepoints.get_aBl.
  rewrite fill_aBBl_spec.
  2: { destruct (zeros2_shape (F:=F) (Tblock self) (state_dim (model self)))
         as [-> _]. lia. }
  cbn [mbind result_bind mret result_ret]. rewrite take_0. simpl app.
  rewrite drop_ge.
  2: { destruct (zeros2_shape (F:=F) (Tblock self) (state_dim (model self)))
         as [-> _]. lia. }
  by rewrite app_nil_r.
Qed.

(** On singleton changepoints the block table is the table itself. *)
Lemma block_sums_singletons (K T : nat) (aBl : list (list F)) :
  has_shape T K aBl = true → block_sums K aBl (singletons T) = aBl.
Proof.
  intros Hs. apply has_shape_spec in Hs as [HL HF].
  apply list_eq. intros i. unfold block_sums, singletons.
  rewrite !list_lookup_fmap.
  destruct (decide (i < T)) as [Hi|Hi].
  - rewrite (proj2 (lookup_seq 0 T i i)) by (split; [done|lia]). simpl.
    destruct (lookup_lt_is_Some_2 aBl i) as [r Hr]; [lia|]. rewrite Hr.
    f_equal. unfold slice. replace (S i - i) with 1 by lia.
    rewrite (drop_lookup_cons _ _ _ Hr). done.
  - rewrite (lookup_ge_None_2 (seq 0 T)) by (rewrite length_seq; lia).
    by rewrite lookup_ge_None_2 by lia.
Qed.
End BlockTableFacts.

Section BlockClaims.
Context {F : Type} `{!FloatOps F} {Obs : Type}.

(** C9, amended.  On the [len] singleton changepoints [get_aBl] stores the
    likelihood table itself as [aBBl], and the block backward pass
    computes, for the exact engine's inputs, the exact engine's recursion
    with three differences: only the durations [d+1 < max(trunc,2)] are
    summed, every term is less the normalizer
    [logsumexp_{d<n} aDl[d,k]] of the admitted durations, and no censored
    term is added, whatever the censoring setting.  The last row of
    [betal] is zero and [betal[t,k] = logsumexp_j(betastarl[t+1,j] +
    Al[k,j])]; the matrices are returned unless they hold a NaN. *)
Theorem cp_singletons_messages_backwards (self : states F Obs)
    (data : list Obs) (aBl0 Al aDl aDsl : list (list F))
    (trunc : option nat) (len K : nat) :
  changepoints self = singletons len →
  blocklens self = replicate len 1 →
  Tblock self = len → T self = len →
  state_dim (model self) = K →
  HMMStatesPython.get_aBl self data = aBl0 →
  has_shape len K aBl0 = true → has_shape len K aDl = true →
  length Al = K → 0 < len →
  ∃ betal betastarl,
    HSMMStatesPossibleChangepoints.get_aBl self data
    = mret (set_aBBl (Some aBl0) self, None) ∧
    HSMMStatesPossibleChangepoints.messages_backwards
      (set_aBBl (Some aBl0) self) Al aDl aDsl trunc
    = (py_assert (negb (HSMMStatesPossibleChangepoints.has_nan betal));;
       py_assert (negb (HSMMStatesPossibleChangepoints.has_nan betastarl));;
       mret (set_aDl (Some aDl) (set_aBBl (Some aBl0) self),
             (betal, betastarl))) ∧
    row betal (len - 1) = zeros K ∧
    (∀ t k, t < len → k < K →
       at2 betastarl t k
       = cp_betastarl_spec betal aBl0 aDl len (default len trunc) t k) ∧
    (∀ t k, S t < len → k < K →
       at2 betal t k = mix_next betastarl Al (S t) k).
Proof.
  intros Hcp Hbl HTb HT Hsd Htab HaBl0 HaDl HAl Hlen.
  set (self' := set_aBBl (Some aBl0) self).
  set (tr := default len trunc).
  destruct (backward_loop_generic Al len K
              (HSMMStatesPossibleChangepoints.backwards_step self' Al aDl
                 len tr K)
              (λ betal t k, cp_betastarl_spec betal aBl0 aDl len tr t k))
    as (betal & betastarl & Hrun & [L1 F1] & [L2 F2] & Hbs & Hb).
  - done.
  - intros. by apply cp_betastarl_spec_ext.
  - intros t betal betastarl Ht L1 F1 L2 F2.
    by apply (cp_step_ok self' aBl0 Al aDl len tr K).
  - exists (<[len - 1 := zeros K]> betal), betastarl.
    split.
    { rewrite get_aBl_spec by (rewrite Hcp; unfold singletons;
                               by rewrite length_fmap, length_seq).
      rewrite Hsd, Htab, Hcp. by rewrite (block_sums_singletons K len). }
    split.
    { unfold HSMMStatesPossibleChangepoints.messages_backwards.
      change (Tblock self') with (Tblock self).
      change (T self') with (T self).
      rewrite HTb, HT, HAl. fold tr. rewrite Hrun.
      cbn [mbind result_bind mret result_ret].
      rewrite setitem_last by lia. rewrite L1.
      cbn [mbind result_bind mret result_ret]. done. }
    split; [by rewrite row_insert_eq by lia|].
    split; [done|].
    intros t k Ht Hk. unfold at2. rewrite row_insert_ne by lia.
    by apply Hb.
Qed.
End BlockClaims.

(** C9 as stated fails: one state, one observation, [pmf(1) = 1/2].  The
    exact engine gives [betastarl[0,0] = log(1/2)], the block engine on
    the singleton changepoint gives [0]. *)
Lemma cp_singletons_messages_differ :
  HSMMStatesPython.messages_backwards Examples.one_self Examples.one_Al
    Examples.one_aDl Examples.one_aDsl None
  = mret ([[ExactReal.Lin 0]], [[ExactReal.Log (1 # 2)]]) ∧
  HSMMStatesPossibleChangepoints.messages_backwards Examples.one_cp_self
    Examples.one_Al Examples.one_aDl Examples.one_aDsl None
  = mret (set_aDl (Some Examples.one_aDl) Examples.one_cp_self,
          ([[ExactReal.Lin 0]], [[ExactReal.Lin 0]])) ∧
  ExactReal.Log (1 # 2) ≠ ExactReal.Lin 0.
Proof. split; [reflexivity|]. split; [reflexivity|discriminate]. Qed.

Lemma cp_singletons_messages_backwards_witness :
  ∃ betal betastarl,
    HSMMStatesPossibleChangepoints.get_aBl Examples.three_self
      Examples.three_data
    = mret (set_aBBl (Some Examples.three_aBl) Examples.three_self, None) ∧
    HSMMStatesPossibleChangepoints.messages_backwards
      (set_aBBl (Some Examples.three_aBl) Examples.three_self)
      Examples.three_Al Examples.three_aDl Examples.three_aDsl (Some 3)
    = (py_assert (negb (HSMMStatesPossibleChangepoints.has_nan betal));;
       py_assert (negb (HSMMStatesPossibleChangepoints.has_nan betastarl));;
       mret (set_aDl (Some Examples.three_aDl)
               (set_aBBl (Some Examples.three_aBl) Examples.three_self),
             (betal, betastarl))) ∧
    row betal (3 - 1) = zeros 2 ∧
    (∀ t k, t < 3 → k < 2 →
       at2 betastarl t k
       = cp_betastarl_spec betal Examples.three_aBl Examples.three_aDl 3
           (default 3 (Some 3)) t k) ∧
    (∀ t k, S t < 3 → k < 2 →
       at2 betal t k = mix_next betastarl Examples.three_Al (S t) k).
Proof.
  apply (cp_singletons_messages_backwards Examples.three_self
           Examples.three_data Examples.three_aBl Examples.three_Al
           Examples.three_aDl Examples.three_aDsl (Some 3) 3 2).
  - reflexivity.
  - reflexivity.
  - reflexivity.
  - reflexivity.
  - reflexivity.
  - reflexivity.
  - reflexivity.
  - reflexivity.
  - reflexivity.
  - lia.
Defined.

(** The two engines on three observations, two states and [trunc = 3]:
    the messages of the block engine on the singleton changepoints, and
    those of the exact engine, as logarithms of the rationals shown. *)
Lemma cp_singletons_three_example :
  match HSMMStatesPossibleChangepoints.messages_backwards
          (set_aBBl (Some Examples.three_aBl) Examples.three_self)
          Examples.three_Al Examples.three_aDl Examples.three_aDsl
          (Some 3) with
  | inr (_, r) => Some r
  | inl _ => None
  end
  = Some ([[ExactReal.Log (5 # 24); ExactReal.Log (7 # 72)];
           [ExactReal.Log (1 # 3); ExactReal.Log (1 # 2)];
           [ExactReal.Lin 0; ExactReal.Lin 0]],
          [[ExactReal.Log (1 # 12); ExactReal.Log (25 # 432)];
           [ExactReal.Log (7 # 72); ExactReal.Log (5 # 24)];
           [ExactReal.Log (1 # 2); ExactReal.Log (1 # 3)]]) ∧
  HSMMStatesPython.messages_backwards Examples.three_exact_self
    Examples.three_Al Examples.three_aDl Examples.three_aDsl (Some 3)
  = mret ([[ExactReal.Log (3 # 16); ExactReal.Log (5 # 48)];
           [ExactReal.Log (1 # 3); ExactReal.Log (1 # 2)];
           [ExactReal.Lin 0; ExactReal.Lin 0]],
          [[ExactReal.Log (7 # 96); ExactReal.Log (11 # 192)];
           [ExactReal.Log (5 # 48); ExactReal.Log (3 # 16)];
           [ExactReal.Log (1 # 2); ExactReal.Log (1 # 3)]]).
Proof. split; vm_compute; reflexivity. Qed.

(** ** The block engine does not read [self.aBl] *)


Section BlockFrame.
Context {F : Type} `{!FloatOps F} {Obs : Type}.

Lemma bind_inv {A B : Type} (m : result A) (f : A → result B) (y : B) :
  m ≫= f = mret y → ∃ x, m = mret x ∧ f x = mret y.
Proof. destruct m as [e|x]; [done|]. intros Hf. by exists x. Qed.




End BlockFrame.

Section BlockResample.
Context {F : Type} `{!FloatOps F} {Obs : Type}.

Lemma cp_messages_backwards_self (s s' : states F Obs)
    (Al aDl' aDsl : list (list F)) (trunc : option nat)
    (r : list (list F) * list (list F)) :
  HSMMStatesPossibleChangepoints.messages_backwards s Al aDl' aDsl trunc
  = mret (s', r) →
  s' = set_aDl (Some aDl') s.
Proof.
  unfold HSMMStatesPossibleChangepoints.messages_backwards. intros Hrun.
  apply bind_inv in Hrun as ([betal betastarl] & _ & Hrun).
  apply bind_inv in Hrun as (betal' & _ & Hrun).
  apply bind_inv in Hrun as ([] & _ & Hrun).
  apply bind_inv in Hrun as ([] & _ & Hrun).
  by injection Hrun as <- _.
Qed.







End BlockResample.


(** The lookups on three observations in the blocks [(0,2)] and [(2,3)]:
    [get_aBl] stores the block sums (shown as logarithms of rationals);
    the two helpers return running sums of that table; and on the object
    without the table the backward pass and the sampler stop at the
    lookup. *)
Lemma cp_lookups_example :
  HSMMStatesPossibleChangepoints.get_aBl Examples.two_blocks_self
    Examples.three_data
  = mret (set_aBBl (Some Examples.two_blocks_aBBl) Examples.two_blocks_self,
          None) ∧
  HSMMStatesPossibleChangepoints.block_cumulative_likelihoods
    (set_aBBl (Some Examples.two_blocks_aBBl) Examples.two_blocks_self)
    0 2 [2; 3]
  = mret [[ExactReal.Log (1 # 8); ExactReal.Log (1 # 6)];
          [ExactReal.Log (1 # 16); ExactReal.Log (1 # 18)]] ∧
  HSMMStatesPossibleChangepoints.block_cumulative_likelihood_state
    (set_aBBl (Some Examples.two_blocks_aBBl) Examples.two_blocks_self)
    0 2 1 [2; 3]
  = mret [ExactReal.Log (1 # 6); ExactReal.Log (1 # 18)] ∧
  HSMMStatesPossibleChangepoints.messages_backwards Examples.two_blocks_self
    Examples.three_Al Examples.three_aDl Examples.three_aDsl (Some 4)
  = raise (AttributeError "aBBl") ∧
  HSMMStatesPossibleChangepoints.sample_forwards
    (set_aDl (Some Examples.three_aDl) Examples.two_blocks_self)
    [[fzero; fzero]; [fzero; fzero]] [[fzero; fzero]; [fzero; fzero]]
    Examples.thirds
  = raise (AttributeError "aBBl").
Proof. repeat split; vm_compute; reflexivity. Qed.

(** The inherited [resample] runs to its end on this object: it leaves
    [aBl] at [None], the block table in [aBBl] and a state sequence. *)
Lemma cp_resample_example :
  match HSMMStatesPossibleChangepoints.resample Examples.cp_self
          Examples.thirds with
  | inr (s, _) => Some (aBl s, aBBl s, stateseq s)
  | inl _ => None
  end
  = Some (Some None,
          Some [[ExactReal.Lin 0; ExactReal.Lin 0];
                [ExactReal.Lin 0; ExactReal.Lin 0]],
          [0; 0; 1]).
Proof. vm_compute. reflexivity. Qed.

(** ** Run-length encodings *)

Section RunLengths.

Lemma expand_snoc (nr ds : list nat) (s d : nat) :
  length nr = length ds →
  expand (nr ++ [s]) (ds ++ [d]) = expand nr ds ++ replicate d s.
Proof.
  intros Hlen. unfold expand. rewrite zip_with_app by done.
  rewrite concat_app. simpl. by rewrite app_nil_r.
Qed.

Lemma expand_length (nr ds : list nat) :
  length nr = length ds → length (expand nr ds) = sum_list ds.
Proof.
  revert ds. induction nr as [|s nr IH]; intros [|d ds] Hlen; try done.
  unfold expand. simpl. rewrite length_app, length_replicate.
  f_equal. apply IH. simpl in Hlen. lia.
Qed.

Lemma fill_length {A : Type} (l : list A) (a b : nat) (x : A) :
  a ≤ b → length (fill l a b x) = length l.
Proof.
  intros Hab. unfold fill. rewrite !length_app, length_replicate.
  rewrite slice_length, length_take, length_drop. lia.
Qed.

Lemma fill_take {A : Type} (l e : list A) (idx dur len : nat) (x : A) :
  length l = len → idx < len → length e = idx → take idx l = e →
  take (idx + dur) (fill l idx (idx + dur) x)
  = take len (e ++ replicate dur x).
Proof.
  intros Hl Hidx He Htake. unfold fill. rewrite Htake.
  rewrite slice_length, Hl.
  replace (idx + dur - idx) with dur by lia.
  rewrite !take_app, He, take_replicate, length_replicate.
  rewrite (take_ge e (idx + dur)) by lia.
  rewrite (take_ge e len) by lia.
  replace (idx + dur - idx) with dur by lia.
  destruct (decide (dur ≤ len - idx)) as [Hd|Hd].
  - replace (dur `min` (len - idx)) with dur by lia.
    replace (dur `min` dur) with dur by lia.
    replace (dur - dur) with 0 by lia. rewrite take_0, app_nil_r.
    rewrite take_replicate. do 2 f_equal. lia.
  - rewrite (drop_ge l) by lia. rewrite take_nil, app_nil_r.
    rewrite take_replicate. do 2 f_equal. lia.
Qed.

Lemma no_repeat_nil : no_repeat [].
Proof. intros i a b Ha. done. Qed.

Lemma no_repeat_snoc (nr : list nat) (s : nat) :
  no_repeat nr → (∀ s', last nr = Some s' → s ≠ s') →
  no_repeat (nr ++ [s]).
Proof.
  intros Hnr Hlast i a b Ha Hb.
  destruct (decide (S i < length nr)) as [Hi|Hi].
  - rewrite lookup_app_l in Ha by lia. rewrite lookup_app_l in Hb by lia.
    by apply (Hnr i).
  - assert (S i = length nr) as Hi'.
    { apply lookup_lt_Some in Hb. rewrite length_app in Hb. simpl in Hb. lia. }
    rewrite lookup_app_l in Ha by lia.
    rewrite lookup_app_r in Hb by lia.
    replace (S i - length nr) with 0 in Hb by lia. simpl in Hb.
    injection Hb as <-.
    intros ->. apply (Hlast s); [|done].
    rewrite last_lookup. rewrite <- Hi'. simpl. done.
Qed.

Lemma py_assert_inv (b : bool) : py_assert b = mret tt → b = true.
Proof. by destruct b. Qed.
End RunLengths.

(** ** The sampling loop keeps the run-length encoding consistent *)

Section SamplerInvariant.
Context {F : Type} `{!FloatOps F} {Obs : Type}.

Lemma segment_loop_inv (self : states F Obs)
    (betal betastarl apmf : list (list F)) (dd : option (DurDistn F))
    (fuel : nat) :
  ∀ idx ss nr ds nu g ss' nr' ds' g',
  HSMMStatesPython.segment_loop self betal betastarl apmf dd fuel idx
    ss nr ds nu g = mret (ss', nr', ds', g') →
  length ss = T self → length nr = length ds → sum_list ds = idx →
  no_repeat nr → Forall (λ d, 0 < d) ds →
  take idx ss = take (T self) (expand nr ds) →
  (∀ ds0 d, ds = ds0 ++ [d] → sum_list ds0 < T self) →
  length nr' = length ds' ∧ T self ≤ sum_list ds' ∧ no_repeat nr' ∧
  Forall (λ d, 0 < d) ds' ∧ ss' = take (T self) (expand nr' ds') ∧
  (∀ ds0 d, ds' = ds0 ++ [d] → sum_list ds0 < T self).
Proof.
  assert (Hexit : ∀ idx ss nr ds (g : rng F) ss' nr' ds' g',
    (idx <? T self) = false →
    @mret result _ _ (ss, nr, ds, g) = mret (ss', nr', ds', g') →
    length ss = T self → length nr = length ds → sum_list ds = idx →
    no_repeat nr → Forall (λ d, 0 < d) ds →
    take idx ss = take (T self) (expand nr ds) →
    (∀ ds0 d, ds = ds0 ++ [d] → sum_list ds0 < T self) →
    length nr' = length ds' ∧ T self ≤ sum_list ds' ∧ no_repeat nr' ∧
    Forall (λ d, 0 < d) ds' ∧ ss' = take (T self) (expand nr' ds') ∧
    (∀ ds0 d, ds' = ds0 ++ [d] → sum_list ds0 < T self)).
  { intros idx ss nr ds g ss' nr' ds' g' Hlt Hrun Hss Hlen Hsum Hnr Hpos
      Hexp Hprev.
    apply Nat.ltb_ge in Hlt.
    cbn [mret result_ret] in Hrun. injection Hrun as <- <- <- <-.
    repeat split; try done; [lia|].
    rewrite <- Hexp. by rewrite take_ge by lia. }
  induction fuel as [|fuel IH];
    intros idx ss nr ds nu g ss' nr' ds' g' Hrun Hss Hlen Hsum Hnr Hpos
      Hexp Hprev.
  - cbn [HSMMStatesPython.segment_loop] in Hrun.
    destruct (idx <? T self) eqn:Hlt; [done|]. by eapply Hexit.
  - cbn [HSMMStatesPython.segment_loop] in Hrun.
    destruct (idx <? T self) eqn:Hlt; [|by eapply Hexit].
    apply Nat.ltb_lt in Hlt.
    apply bind_inv in Hrun as (bs & _ & Hrun).
    apply bind_inv in Hrun as ([state g1] & _ & Hrun).
    unfold HSMMStatesPython.segment_rest in Hrun.
    apply bind_inv in Hrun as ([] & Hfresh & Hrun).
    apply py_assert_inv in Hfresh.
    cbn [random] in Hrun.
    apply bind_inv in Hrun as ([dur g2] & _ & Hrun).
    apply bind_inv in Hrun as ([] & Hdur & Hrun).
    apply py_assert_inv, Nat.ltb_lt in Hdur.
    apply bind_inv in Hrun as ([] & _ & Hrun).
    apply bind_inv in Hrun as (nu' & _ & Hrun).
    apply IH in Hrun; [done|..].
    + rewrite fill_length; [done|lia].
    + rewrite !length_app. simpl. lia.
    + rewrite sum_list_with_app. simpl. lia.
    + apply no_repeat_snoc; [done|].
      intros s' Hs'. rewrite Hs' in Hfresh.
      apply negb_true_iff, Nat.eqb_neq in Hfresh. done.
    + apply Forall_app. split; [done|]. by apply Forall_singleton.
    + rewrite expand_snoc by done.
      apply fill_take; [done|lia| |].
      * rewrite expand_length by done. done.
      * rewrite Hexp. apply take_ge. rewrite expand_length by done. lia.
    + intros ds0 d Heq. apply app_inj_tail in Heq as [<- _]. lia.
Qed.

Lemma hsmm_sample_forwards_rle (self self' : states F Obs)
    (betal betastarl : list (list F)) (g g' : rng F) :
  HSMMStatesPython.sample_forwards self betal betastarl g = mret (self', g') →
  T self' = T self ∧
  length (stateseq_norep self') = length (durations self') ∧
  T self ≤ sum_list (durations self') ∧
  no_repeat (stateseq_norep self') ∧
  Forall (λ d, 0 < d) (durations self') ∧
  stateseq self'
  = take (T self) (expand (stateseq_norep self') (durations self')) ∧
  (∀ ds0 d, durations self' = ds0 ++ [d] → sum_list ds0 < T self).
Proof.
  intros Hrun. unfold HSMMStatesPython.sample_forwards in Hrun.
  apply bind_inv in Hrun as (apmf & _ & Hrun).
  apply bind_inv in Hrun as ([[[ss nr] ds] g1] & Hloop & Hrun).
  cbn [mret result_ret] in Hrun. injection Hrun as <- <-.
  split; [done|]. simpl.
  apply segment_loop_inv in Hloop; [done|..].
  - by rewrite length_replicate.
  - done.
  - done.
  - apply no_repeat_nil.
  - constructor.
  - unfold expand. simpl. by rewrite take_0, take_nil.
  - intros [|??] ? ?; done.
Qed.
End SamplerInvariant.

(** ** The loops of the samplers have fuel enough *)

Section Fuel.
Context {F : Type} `{!FloatOps F} {Obs : Type}.

Lemma in_fuel_ret {A : Type} (x : A) : in_fuel (mret x).
Proof. done. Qed.

Lemma in_fuel_bind {A B : Type} (m : result A) (f : A → result B) :
  in_fuel m → (∀ x, m = mret x → in_fuel (f x)) → in_fuel (m ≫= f).
Proof.
  destruct m as [e|x]; [|intros _ Hf; by apply Hf].
  intros Hm _ Heq. apply Hm. unfold raise in *.
  cbn [mbind result_bind] in Heq. congruence.
Qed.

Lemma in_fuel_assert (b : bool) : in_fuel (py_assert b).
Proof. by destruct b. Qed.

Lemma in_fuel_getitem {A : Type} (l : list A) (i : nat) :
  in_fuel (getitem l i).
Proof. unfold getitem. by destruct (l !! i). Qed.

Lemma in_fuel_getitem_z {A : Type} (l : list A) (i : Z) :
  in_fuel (getitem_z l i).
Proof.
  unfold getitem_z. destruct (_ && _); [apply in_fuel_getitem|done].
Qed.

Lemma in_fuel_setitem {A : Type} (i : Z) (x : A) (l : list A) :
  in_fuel (setitem i x l).
Proof. unfold setitem. by destruct (_ && _). Qed.

Lemma in_fuel_sample_discrete (distn : list F) (g : rng F) :
  in_fuel (sample_discrete distn g).
Proof. unfold sample_discrete. by destruct (forallb _ _). Qed.

Lemma in_fuel_mapM {A B : Type} (f : A → result B) (l : list A) :
  (∀ x, in_fuel (f x)) → in_fuel (mapM f l).
Proof.
  intros Hf. induction l as [|x l IH]; [done|].
  cbn [mapM]. apply in_fuel_bind; [done|]. intros y _.
  apply in_fuel_bind; [done|]. intros k _. done.
Qed.

Lemma in_fuel_get_self_aBl (self : states F Obs) :
  in_fuel (get_self_aBl self).
Proof. unfold get_self_aBl. by destruct (aBl self) as [[|]|]. Qed.

Lemma in_fuel_get_self_aBBl (self : states F Obs) :
  in_fuel (get_self_aBBl self).
Proof. unfold get_self_aBBl. by destruct (aBBl self). Qed.

Lemma in_fuel_fill_apmf (len : nat) (ds : list (DurDistn F)) :
  ∀ i apmf, in_fuel (HSMMStatesPython.fill_apmf len i ds apmf).
Proof.
  induction ds as [|d ds IH]; intros i apmf; [done|].
  cbn [HSMMStatesPython.fill_apmf].
  apply in_fuel_bind; [apply in_fuel_setitem|]. intros. apply IH.
Qed.

Lemma duration_loop_in_fuel (self : states F Obs)
    (betal betastarl apmf : list (list F)) (dd : option (DurDistn F))
    (idx state : nat) (fuel : nat) :
  ∀ durprob dur g,
  2 * T self < dur + fuel → dur ≤ 2 * T self →
  in_fuel (HSMMStatesPython.duration_loop self betal betastarl apmf dd
             idx state fuel durprob dur g).
Proof.
  induction fuel as [|fuel IH]; intros durprob dur g Hfuel Hdur.
  { lia. }
  cbn [HSMMStatesPython.duration_loop].
  destruct (fltb fzero durprob); [|done].
  apply in_fuel_bind; [apply in_fuel_assert|].
  intros [] Hlt. apply py_assert_inv, Nat.ltb_lt in Hlt.
  apply in_fuel_bind.
  { destruct (dur <? T self); [|done].
    apply in_fuel_bind; [apply in_fuel_getitem|].
    intros. apply in_fuel_getitem. }
  intros p_d_marg _.
  apply in_fuel_bind; [apply in_fuel_assert|]. intros _ _.
  apply in_fuel_bind; [apply in_fuel_assert|]. intros _ _.
  destruct (feqb p_d_marg fzero); [apply IH; lia|].
  destruct (idx + dur <? T self).
  - apply in_fuel_bind.
    { unfold HSMMStatesPython.likelihood_block_state.
      apply in_fuel_bind; [apply in_fuel_get_self_aBl|done]. }
    intros lb _.
    apply in_fuel_bind.
    { apply in_fuel_bind; [apply in_fuel_getitem|].
      intros. apply in_fuel_getitem. }
    intros b _.
    apply in_fuel_bind.
    { apply in_fuel_bind; [apply in_fuel_getitem|].
      intros. apply in_fuel_getitem. }
    intros bs _.
    apply in_fuel_bind; [apply in_fuel_assert|]. intros _ _.
    apply IH; lia.
  - destruct (censoring self); [|done].
    destruct dd as [d|]; [|done].
    apply in_fuel_bind; [apply in_fuel_sample_discrete|].
    by intros [k g'] _.
Qed.

Lemma segment_loop_in_fuel (self : states F Obs)
    (betal betastarl apmf : list (list F)) (dd : option (DurDistn F))
    (fuel : nat) :
  ∀ idx ss nr ds nu g,
  T self ≤ idx + fuel →
  in_fuel (HSMMStatesPython.segment_loop self betal betastarl apmf dd fuel
             idx ss nr ds nu g).
Proof.
  induction fuel as [|fuel IH]; intros idx ss nr ds nu g Hfuel;
    cbn [HSMMStatesPython.segment_loop];
    destruct (idx <? T self) eqn:Hlt; try done.
  { apply Nat.ltb_lt in Hlt. lia. }
  apply in_fuel_bind; [apply in_fuel_getitem|]. intros bs _.
  apply in_fuel_bind; [apply in_fuel_sample_discrete|]. intros [state g1] _.
  unfold HSMMStatesPython.segment_rest.
  apply in_fuel_bind; [apply in_fuel_assert|]. intros _ _.
  cbn [random].
  apply in_fuel_bind; [apply duration_loop_in_fuel; lia|].
  intros [dur g2] _.
  apply in_fuel_bind; [apply in_fuel_assert|].
  intros [] Hdur. apply py_assert_inv, Nat.ltb_lt in Hdur.
  apply in_fuel_bind; [apply in_fuel_assert|]. intros _ _.
  apply in_fuel_bind; [apply in_fuel_getitem|]. intros nu' _.
  apply IH. lia.
Qed.

(** The fuel [sample_forwards] gives its loops is never used up: a state
    that is sampled lasts at least one step, and a duration is found
    before [2*T]. *)
Lemma sample_forwards_fuel (self : states F Obs)
    (betal betastarl : list (list F)) (g : rng F) :
  in_fuel (HSMMStatesPython.sample_forwards self betal betastarl g).
Proof.
  unfold HSMMStatesPython.sample_forwards.
  apply in_fuel_bind; [apply in_fuel_fill_apmf|]. intros apmf _.
  apply in_fuel_bind; [apply segment_loop_in_fuel; lia|].
  by intros [[[ss nr] ds] g1] _.
Qed.

Lemma block_loop_in_fuel (self : states F Obs)
    (aDl betal betastarl : list (list F)) (Tb trunc : nat) (fuel : nat) :
  ∀ tblock bss nu g,
  Tb ≤ tblock + fuel →
  in_fuel (HSMMStatesPossibleChangepoints.block_loop self aDl betal
             betastarl Tb trunc fuel tblock bss nu g).
Proof.
  induction fuel as [|fuel IH]; intros tblock bss nu g Hfuel;
    cbn [HSMMStatesPossibleChangepoints.block_loop];
    destruct (tblock <? Tb) eqn:Hlt; try done.
  { apply Nat.ltb_lt in Hlt. lia. }
  apply in_fuel_bind; [apply in_fuel_getitem|]. intros bs _.
  apply in_fuel_bind; [apply in_fuel_sample_discrete|]. intros [state g1] _.
  apply in_fuel_bind.
  { unfold HSMMStatesPossibleChangepoints.possible_durations.
    apply in_fuel_bind; [apply in_fuel_getitem|done]. }
  intros pd _.
  apply in_fuel_bind.
  { destruct (1 <? length pd); [|done].
    apply in_fuel_bind.
    { unfold HSMMStatesPossibleChangepoints.block_cumulative_likelihood_state.
      apply in_fuel_bind; [apply in_fuel_get_self_aBBl|done]. }
    intros ll _.
    apply in_fuel_bind.
    { apply in_fuel_mapM. intros d.
      apply in_fuel_bind; [apply in_fuel_getitem_z|].
      intros. apply in_fuel_getitem. }
    intros aD _.
    apply in_fuel_bind.
    { apply in_fuel_mapM. intros r. apply in_fuel_getitem. }
    intros b _.
    apply in_fuel_bind; [apply in_fuel_getitem|]. intros bst _.
    apply in_fuel_bind; [apply in_fuel_sample_discrete|].
    by intros [k g2] _. }
  intros [blockdur g2] Hdur.
  assert (0 < blockdur) as Hpos.
  { destruct (1 <? length pd).
    - apply bind_inv in Hdur as (ll & _ & Hdur).
      apply bind_inv in Hdur as (aD & _ & Hdur).
      apply bind_inv in Hdur as (b & _ & Hdur).
      apply bind_inv in Hdur as (bst & _ & Hdur).
      apply bind_inv in Hdur as ([k g3] & _ & Hdur).
      cbn [mret result_ret] in Hdur. injection Hdur as <- <-. lia.
    - cbn [mret result_ret] in Hdur. injection Hdur as <- <-. lia. }
  apply in_fuel_bind; [apply in_fuel_getitem|]. intros nu' _.
  apply IH. lia.
Qed.

(** The same for the block sampler: a block duration is at least 1. *)
Lemma cp_sample_forwards_fuel (self : states F Obs)
    (betal betastarl : list (list F)) (g : rng F) :
  in_fuel (HSMMStatesPossibleChangepoints.sample_forwards self betal
             betastarl g).
Proof.
  unfold HSMMStatesPossibleChangepoints.sample_forwards.
  apply in_fuel_bind.
  { unfold get_self_aDl. by destruct (aDl self). }
  intros aDl0 _.
  apply in_fuel_bind; [apply in_fuel_assert|]. intros _ _.
  apply in_fuel_bind; [apply block_loop_in_fuel; lia|].
  intros [bss g1] _. by destruct (rle _).
Qed.
End Fuel.

(** ** The run-length encoder *)

Section RleFacts.

Lemma no_repeat_cons (x y : nat) (ys : list nat) :
  x ≠ y → no_repeat (y :: ys) → no_repeat (x :: y :: ys).
Proof.
  intros Hxy Hnr [|i] a b Ha Hb.
  - simpl in Ha, Hb. congruence.
  - by apply (Hnr i).
Qed.

Lemma rle_spec (l : list nat) :
  length (rle l).1 = length (rle l).2 ∧
  expand (rle l).1 (rle l).2 = l ∧
  no_repeat (rle l).1 ∧
  Forall (λ d, 0 < d) (rle l).2.
Proof.
  induction l as [|x xs IH].
  { repeat split; [apply no_repeat_nil|constructor]. }
  cbn [rle]. destruct (rle xs) as [nr ds]. simpl in IH.
  destruct IH as (Hlen & Hexp & Hnr & Hpos).
  destruct nr as [|y ys], ds as [|d ds']; try (simpl in Hlen; lia).
  - unfold expand in Hexp. simpl in Hexp. subst xs. simpl.
    repeat split; [|by repeat constructor].
    intros i a b Ha Hb. done.
  - destruct (decide (x = y)) as [->|Hxy]; simpl.
    + repeat split; [done| |done|].
      * rewrite <- Hexp. done.
      * apply Forall_cons in Hpos as [_ Hpos]. constructor; [lia|done].
    + repeat split; [by f_equal| | |].
      * rewrite <- Hexp. done.
      * by apply no_repeat_cons.
      * constructor; [lia|done].
Qed.

Lemma getitem_z_last {A : Type} (l : list A) (x : A) :
  getitem_z l (-1) = mret x → ∃ l0, l = l0 ++ [x].
Proof.
  destruct l as [|y l0 _] using rev_ind.
  { done. }
  intros Hget. exists l0. f_equal.
  unfold getitem_z, wrap_index in Hget. rewrite length_app in Hget.
  simpl in Hget.
  destruct (Z.leb_spec (- Z.of_nat (length l0 + 1)) (-1)); [|lia].
  destruct (Z.ltb_spec (-1) (Z.of_nat (length l0 + 1))); [|lia].
  simpl in Hget. unfold getitem in Hget.
  replace (Z.to_nat (Z.of_nat (length l0 + 1) + -1)) with (length l0 + 0)
    in Hget by lia.
  rewrite lookup_app_r in Hget by lia.
  replace (length l0 + 0 - length l0) with 0 in Hget by lia.
  simpl in Hget. cbn [mret result_ret] in Hget. by injection Hget as ->.
Qed.
End RleFacts.

Section EigenSampler.
Context {F : Type} `{!FloatOps F} {Obs : Type}.

Lemma sum_list_snoc (ds : list nat) (d : nat) :
  sum_list (ds ++ [d]) = sum_list ds + d.
Proof. rewrite sum_list_with_app. simpl. lia. Qed.

(** [HSMMStatesEigen.sample_forwards] encodes the state sequence the
    native sampler filled in and, under censoring, lengthens the last
    duration by a draw. *)
Lemma eigen_sample_forwards_rle
    (codestr : list (list F) → list (list F) → list (list F) → list nat →
               list (list F) → list F → list (list F) → nat → nat → rng F →
               list nat * rng F)
    (self self' : states F Obs) (betal betastarl : list (list F))
    (g g' : rng F) :
  HSMMStatesEigen.sample_forwards codestr self betal betastarl g
  = mret (self', g') →
  length (stateseq_norep self') = length (durations self') ∧
  length (stateseq self') ≤ sum_list (durations self') ∧
  no_repeat (stateseq_norep self') ∧
  Forall (λ d, 0 < d) (durations self') ∧
  stateseq self'
  = take (length (stateseq self'))
      (expand (stateseq_norep self') (durations self')) ∧
  (∀ ds0 d, durations self' = ds0 ++ [d] →
     sum_list ds0 < length (stateseq self')) ∧
  (censoring self = false →
     sum_list (durations self') = length (stateseq self')).
Proof.
  intros Hrun. unfold HSMMStatesEigen.sample_forwards in Hrun.
  apply bind_inv in Hrun as (a1 & _ & Hrun).
  apply bind_inv in Hrun as (a2 & _ & Hrun).
  apply bind_inv in Hrun as (apmf & _ & Hrun).
  destruct (codestr _ _ _ _ _ _ _ _ _ _) as [ss g1].
  pose proof (rle_spec ss) as (Hlen & Hexp & Hnr & Hpos).
  destruct (rle ss) as [nr ds]. simpl in Hlen, Hexp, Hnr, Hpos.
  assert (Hsum : sum_list ds = length ss).
  { rewrite <- (expand_length nr ds) by done. by rewrite Hexp. }
  destruct (censoring self).
  - apply bind_inv in Hrun as (dur & Hdur & Hrun).
    apply bind_inv in Hrun as (s & Hs & Hrun).
    apply bind_inv in Hrun as (dd & _ & Hrun).
    apply bind_inv in Hrun as ([k g2] & _ & Hrun).
    apply bind_inv in Hrun as (ds' & Hset & Hrun).
    cbn [mret result_ret] in Hrun. injection Hrun as <- <-. simpl.
    apply getitem_z_last in Hdur as [ds0 ->].
    apply getitem_z_last in Hs as [nr0 ->].
    rewrite setitem_last in Hset by (rewrite length_app; simpl; lia).
    cbn [mret result_ret] in Hset. injection Hset as <-.
    assert (<[length (ds0 ++ [dur]) - 1 := dur + k]> (ds0 ++ [dur])
            = ds0 ++ [dur + k]) as ->.
    { rewrite length_app. simpl.
      replace (length ds0 + 1 - 1) with (length ds0 + 0) by lia.
      by rewrite insert_app_r. }
    rewrite !length_app in Hlen. simpl in Hlen.
    rewrite sum_list_snoc in Hsum. apply Forall_app in Hpos as [Hpos0 Hd].
    rewrite Forall_singleton in Hd.
    repeat split.
    + rewrite !length_app. simpl. lia.
    + rewrite sum_list_snoc. lia.
    + done.
    + apply Forall_app. split; [done|]. apply Forall_singleton. lia.
    + rewrite expand_snoc by lia. rewrite expand_snoc in Hexp by lia.
      rewrite replicate_add, app_assoc, Hexp. by rewrite take_app_length.
    + intros ds1 d Heq. apply app_inj_tail in Heq as [<- _]. lia.
    + done.
  - cbn [mret result_ret] in Hrun. injection Hrun as <- <-. simpl.
    repeat split; try done.
    + lia.
    + rewrite Hexp. by rewrite take_ge.
    + intros ds1 d ->. rewrite sum_list_snoc in Hsum.
      apply Forall_app in Hpos as [_ Hd]. rewrite Forall_singleton in Hd.
      lia.
Qed.
End EigenSampler.

(** ** The run-length encoding after forward sampling *)

Section RunLengthClaim.
Context {F : Type} `{!FloatOps F} {Obs : Type}.

(** C4, amended.  After a forward-sampling pass of [HSMMStatesPython] or
    of [HSMMStatesEigen] that returns, [stateseq_norep] and [durations]
    have the same length, consecutive entries of [stateseq_norep] differ,
    every duration is at least 1, and the state sequence is the expansion
    of the encoding cut at the length of the sequence: the durations sum
    to at least that length, and only the last segment can run past
    the end (the durations before the last sum to less).  The Python
    sampler's sequence has length [T]; without censoring the encoding of
    the native sampler's sequence sums to its length exactly. *)
Theorem sample_forwards_run_lengths
    (codestr : list (list F) → list (list F) → list (list F) → list nat →
               list (list F) → list F → list (list F) → nat → nat → rng F →
               list nat * rng F)
    (self self' : states F Obs) (betal betastarl : list (list F))
    (g g' : rng F) :
  HSMMStatesPython.sample_forwards self betal betastarl g = mret (self', g') ∨
  HSMMStatesEigen.sample_forwards codestr self betal betastarl g
  = mret (self', g') →
  length (stateseq_norep self') = length (durations self') ∧
  no_repeat (stateseq_norep self') ∧
  Forall (λ d, 0 < d) (durations self') ∧
  length (stateseq self') ≤ sum_list (durations self') ∧
  stateseq self'
  = take (length (stateseq self'))
      (expand (stateseq_norep self') (durations self')) ∧
  (∀ ds0 d, durations self' = ds0 ++ [d] →
     sum_list ds0 < length (stateseq self')) ∧
  (HSMMStatesPython.sample_forwards self betal betastarl g = mret (self', g') →
   length (stateseq self') = T self) ∧
  (HSMMStatesEigen.sample_forwards codestr self betal betastarl g
   = mret (self', g') →
   censoring self = false →
   sum_list (durations self') = length (stateseq self')).
Proof.
  assert (Hpy : HSMMStatesPython.sample_forwards self betal betastarl g
                = mret (self', g') → length (stateseq self') = T self).
  { intros Hrun.
    apply hsmm_sample_forwards_rle in Hrun
      as (_ & Hlen & Hsum & _ & _ & Hexp & _).
    rewrite Hexp, length_take, expand_length by done. lia. }
  intros [Hrun|Hrun].
  - pose proof (Hpy Hrun) as HT.
    pose proof Hrun as Hrun'.
    apply hsmm_sample_forwards_rle in Hrun
      as (_ & Hlen & Hsum & Hnr & Hpos & Hexp & Hprev).
    rewrite HT. repeat split; try done.
    intros Heig Hc.
    apply eigen_sample_forwards_rle in Heig as (_ & _ & _ & _ & _ & _ & Heq).
    rewrite <- HT. by apply Heq.
  - pose proof Hrun as Hrun'.
    apply eigen_sample_forwards_rle in Hrun
      as (Hlen & Hsum & Hnr & Hpos & Hexp & Hprev & Heq).
    repeat split; try done.
Qed.
End RunLengthClaim.

(** C4 as stated fails: two alternating states, two observations,
    censoring on.  With the draws 1/2, 1/4, 1/2, 3/4, 9/10 [resample]
    samples state 0 for one step and then state 1 with duration 2, one
    step past the end of the data: the durations sum to 3, not to
    [T = 2]. *)
Lemma hsmm_durations_exceed_T :
  match HSMMStatesPython.resample HSMMStatesPython.cls Examples.ov_self
          Examples.five_draws with
  | inr (s, _) =>
      Some (T s, stateseq s, stateseq_norep s, durations s,
            sum_list (durations s) =? T s)
  | inl _ => None
  end
  = Some (2, [0; 1], [0; 1], [1; 2], false).
Proof. vm_compute. reflexivity. Qed.

Lemma sample_forwards_run_lengths_witness :
  length (stateseq_norep Examples.ov_sampled)
  = length (durations Examples.ov_sampled) ∧
  no_repeat (stateseq_norep Examples.ov_sampled) ∧
  Forall (λ d, 0 < d) (durations Examples.ov_sampled) ∧
  length (stateseq Examples.ov_sampled)
  ≤ sum_list (durations Examples.ov_sampled) ∧
  stateseq Examples.ov_sampled
  = take (length (stateseq Examples.ov_sampled))
      (expand (stateseq_norep Examples.ov_sampled)
         (durations Examples.ov_sampled)) ∧
  (∀ ds0 d, durations Examples.ov_sampled = ds0 ++ [d] →
     sum_list ds0 < length (stateseq Examples.ov_sampled)) ∧
  (HSMMStatesPython.sample_forwards Examples.ov_self Examples.ov_betal
     Examples.ov_betastarl Examples.five_draws
   = mret (Examples.ov_sampled, Examples.after_five) →
   length (stateseq Examples.ov_sampled) = T Examples.ov_self) ∧
  (HSMMStatesEigen.sample_forwards Examples.idle_codestr Examples.ov_self
     Examples.ov_betal Examples.ov_betastarl Examples.five_draws
   = mret (Examples.ov_sampled, Examples.after_five) →
   censoring Examples.ov_self = false →
   sum_list (durations Examples.ov_sampled)
   = length (stateseq Examples.ov_sampled)).
Proof.
  apply (sample_forwards_run_lengths Examples.idle_codestr Examples.ov_self
           Examples.ov_sampled Examples.ov_betal Examples.ov_betastarl
           Examples.five_draws Examples.after_five).
  left. vm_compute. reflexivity.
Defined.

(** ** Sampling weights that are all zero *)

Section ZeroWeights.
Context {F : Type} `{!FloatOps F} {Obs : Type}.








End ZeroWeights.

(** ** The laws in the exact instance *)

Section ExactLaws.
Import ExactReal.





End ExactLaws.


(** The same model and observation in the two other samplers.  The block
    sampler, on the one changepoint [(0,1)], has the weights [0, 0] at
    its first draw, and [resample] returns the error.  The weights of the
    HMM sampler are not zero but NaN: its logdomain is [-inf] in both
    states, and [-inf - -inf] is NaN. *)
Lemma zero_weights_other_samplers :
  HSMMStatesPossibleChangepoints.resample
    (HSMMStatesPossibleChangepoints.init_changepoints (singletons 1)
       Examples.deg_self) Examples.thirds
  = raise DegenerateDistributionError ∧
  HMMStatesPython.sample_weights (pi_0 Examples.deg_model)
    [ExactReal.Lin 0; ExactReal.Lin 0] [ExactReal.Log 0; ExactReal.Lin 0]
  = [ExactReal.NaN; ExactReal.NaN].
Proof. split; vm_compute; reflexivity. Qed.


(** ** The overflow duration of a censored segment *)

(** C3, at a failing input.  Two alternating states, two observations of
    likelihood 1, censoring on; state 0 lasts 1 or 2 steps, state 1 lasts
    1 or 5 steps.  With the draws 1/2, 1/4, 1/2, 3/4, 9/10 [resample]
    samples state 1 for one step, then state 0, whose segment reaches the
    end of the data.  Its overflow is drawn from [dur_distn], the
    variable the loop over [enumerate(self.model.dur_distns)] left bound
    to the distribution of state 1: the duration becomes 4, which has
    probability 0 for state 0.  With the distribution of state 0 the
    same draw gives the duration 1. *)
Lemma hsmm_overflow_from_last_distn :
  match HSMMStatesPython.resample HSMMStatesPython.cls Examples.cens_self
          Examples.five_draws with
  | inr (s, g) => Some (stateseq s, stateseq_norep s, durations s, pos g)
  | inl _ => None
  end
  = Some ([1; 0], [1; 0], [1; 4], 5) ∧
  HSMMStatesPython.messages_backwards Examples.cens_cached
    (mlog (trans_distn Examples.cens_model))
    ((λ d, (λ dd, log_pmf dd (S d)) <$> dur_distns Examples.cens_model)
       <$> seq 0 2)
    ((λ d, (λ dd, log_sf dd (S d)) <$> dur_distns Examples.cens_model)
       <$> seq 0 2) (Some 2)
  = mret (Examples.cens_betal, Examples.cens_betastarl) ∧
  HSMMStatesPython.fill_apmf 2 0 (dur_distns Examples.cens_model)
    (zeros2 2 2) = mret Examples.cens_apmf ∧
  last (dur_distns Examples.cens_model) = Some Examples.D1 ∧
  dur_distns Examples.cens_model !! 0 = Some Examples.D0 ∧
  match HSMMStatesPython.duration_loop Examples.cens_cached
          Examples.cens_betal Examples.cens_betastarl Examples.cens_apmf
          (Some Examples.D1) 1 0 5 (ExactReal.Lin (3 # 4)) 0
          Examples.after_four with
  | inr (dur, _) => Some dur
  | inl _ => None
  end = Some 4 ∧
  match HSMMStatesPython.duration_loop Examples.cens_cached
          Examples.cens_betal Examples.cens_betastarl Examples.cens_apmf
          (Some Examples.D0) 1 0 5 (ExactReal.Lin (3 # 4)) 0
          Examples.after_four with
  | inr (dur, _) => Some dur
  | inl _ => None
  end = Some 1 ∧
  pmf Examples.D0 4 = ExactReal.Lin 0.
Proof. repeat split; vm_compute; reflexivity. Qed.

(** ** The geometric-tail backward pass *)

Section GeoExact.
Context {F : Type} `{!FloatOps F} {Obs : Type}.

(** Where the guard [t + trunc < T] is false the step of the
    geometric-tail loop is the step of the exact loop. *)
Lemma geo_backwards_step_exact (self : states F Obs)
    (hmm_betal Al aDl aDsl : list (list F)) (len trunc K t : nat)
    (s : list (list F) * list (list F)) :
  len ≤ t + trunc →
  HSMMStatesGeoApproximation.backwards_step self hmm_betal Al aDl aDsl
    len trunc K t s
  = HSMMStatesPython.backwards_step self Al aDl aDsl len trunc K t s.
Proof.
  intros Hguard. destruct s as [betal betastarl].
  unfold HSMMStatesGeoApproximation.backwards_step,
    HSMMStatesPython.backwards_step.
  apply Nat.ltb_ge in Hguard. rewrite Hguard. reflexivity.
Qed.

(** The inherited methods read the likelihoods and the censoring flag of
    the object, not the transition matrix of its model. *)
Lemma hsmm_messages_backwards_as_states (A A' : list (list F))
    (m : model_of F Obs nat) (c : bool)
    (aBl0 : option (option (list (list F))))
    (Al aDl aDsl : list (list F)) (trunc : option nat) :
  HSMMStatesPython.messages_backwards
    (HSMMStatesGeoApproximation.as_states A m c aBl0) Al aDl aDsl trunc
  = HSMMStatesPython.messages_backwards
      (HSMMStatesGeoApproximation.as_states A' m c aBl0) Al aDl aDsl trunc.
Proof. reflexivity. Qed.

Lemma get_A_insert (σ : gmap nat (list (list F)))
    (m : model_of F Obs nat) (td : nat) (A M : list (list F)) :
  σ !! trans_distn m = Some A →
  ∃ A', HSMMStatesGeoApproximation.get_A (<[td := M]> σ) m = mret A'.
Proof.
  intros HA.
  unfold HSMMStatesGeoApproximation.get_A.
  destruct (decide (td = trans_distn m)) as [->|Hne].
  - rewrite lookup_insert_eq. by eexists.
  - rewrite lookup_insert_ne by done. rewrite HA. by eexists.
Qed.
End GeoExact.

Section GeoClaims.
Context {F : Type} `{!FloatOps F} {Obs : Type}.

(** What the pass would compute for [trunc == T] with [T > 1] on an
    object to which a caller has added the attributes [state_dim] and
    [_hmm_states.transition_distn], which no constructor sets: what the
    exact [HSMMStatesPython.messages_backwards] returns on the same
    inputs (messages or exception), next to the store in which the
    auxiliary matrix has been assigned, the guard [t + trunc < T] being
    false at every [t]. *)
Theorem geo_messages_backwards_trunc_T
    (σ : gmap nat (list (list F)))
    (self : HSMMStatesGeoApproximation.geo_states (F := F) (Obs := Obs))
    (hs : HSMMStatesGeoApproximation.hmm_states (F := F) (Obs := Obs))
    (A Al aDl aDsl aBl0 : list (list F)) (K td : nat) :
  1 < length aDl →
  σ !! trans_distn (HSMMStatesGeoApproximation.g_model self) = Some A →
  HSMMStatesGeoApproximation.g_state_dim self = Some K →
  HSMMStatesGeoApproximation.g_hmm_states self = Some hs →
  HSMMStatesGeoApproximation.hs_transition_distn hs = Some td →
  HSMMStatesGeoApproximation.hs_model hs
  = HSMMStatesGeoApproximation.g_model self →
  HSMMStatesGeoApproximation.g_aBl self = Some (Some aBl0) →
  HSMMStatesGeoApproximation.messages_backwards σ self Al aDl aDsl
    (Some (length aDl))
  = (r ← HSMMStatesPython.messages_backwards
           (HSMMStatesGeoApproximation.as_states A
              (HSMMStatesGeoApproximation.g_model self)
              (HSMMStatesGeoApproximation.g_censoring self)
              (HSMMStatesGeoApproximation.g_aBl self))
           Al aDl aDsl (Some (length aDl));
     mret (<[td := HSMMStatesGeoApproximation.build_hmm_A A K
                      (HSMMStatesGeoApproximation.thediag
                         (dur_distns (HSMMStatesGeoApproximation.g_model self))
                         (length aDl))]> σ, r)).
Proof.
  intros HT HA HK Hhs Htd Hm HaBl.
  unfold HSMMStatesGeoApproximation.messages_backwards.
  cbn [mbind result_bind mret result_ret].
  assert ((0 <? length aDl) = true) as -> by (apply Nat.ltb_lt; lia).
  assert ((1 <? length aDl) = true) as -> by (apply Nat.ltb_lt; lia).
  cbn [py_assert mbind result_bind mret result_ret].
  assert (HgA : HSMMStatesGeoApproximation.get_A σ
                  (HSMMStatesGeoApproximation.g_model self) = mret A).
  { unfold HSMMStatesGeoApproximation.get_A. by rewrite HA. }
  rewrite HgA, HK, Hhs. cbn [mbind result_bind mret result_ret].
  rewrite Htd, HaBl. cbn [mbind result_bind mret result_ret].
  set (hmm_A := HSMMStatesGeoApproximation.build_hmm_A A K _).
  rewrite Hm.
  destruct (get_A_insert σ (HSMMStatesGeoApproximation.g_model self) td A
              hmm_A HA) as [A' HA'].
  rewrite !HA'. cbn [mbind result_bind mret result_ret].
  rewrite <- HaBl.
  rewrite (hsmm_messages_backwards_as_states A A').
  unfold HSMMStatesPython.messages_backwards. simpl default.
  rewrite (down_loopM_ext _
             (HSMMStatesPython.backwards_step
                (HSMMStatesGeoApproximation.as_states A'
                   (HSMMStatesGeoApproximation.g_model self)
                   (HSMMStatesGeoApproximation.g_censoring self)
                   (HSMMStatesGeoApproximation.g_aBl self))
                Al aDl aDsl (length aDl) (length aDl) (length Al))).
  - destruct (down_loopM _ _ _) as [e|[betal betastarl]]; [done|].
    cbn [mbind result_bind mret result_ret].
    by destruct (setitem _ _ _).
  - intros t s Ht. apply geo_backwards_step_exact. lia.
Qed.
End GeoClaims.

(** At [T = trunc = 1], one state and one observation, the exact engine
    returns its messages; the geometric-tail engine stops at
    [assert trunc > 1], whatever the object. *)
Lemma geo_trunc_one_refused :
  HSMMStatesPython.messages_backwards Examples.one_self Examples.one_Al
    Examples.one_aDl Examples.one_aDsl (Some 1)
  = mret ([[ExactReal.Lin 0]], [[ExactReal.Log (1 # 2)]]) ∧
  (∀ (σ : gmap nat (list (list ExactReal.xreal)))
     (self : HSMMStatesGeoApproximation.geo_states
               (F := ExactReal.xreal) (Obs := unit)),
     HSMMStatesGeoApproximation.messages_backwards σ self Examples.one_Al
       Examples.one_aDl Examples.one_aDsl (Some 1)
     = raise AssertionError).
Proof. split; reflexivity. Qed.

Lemma geo_messages_backwards_trunc_T_witness :
  HSMMStatesGeoApproximation.messages_backwards Examples.geo_store
    Examples.geo_self Examples.geo_Al Examples.geo_aDl Examples.geo_aDsl
    (Some (length Examples.geo_aDl))
  = (r ← HSMMStatesPython.messages_backwards
           (HSMMStatesGeoApproximation.as_states Examples.geo_A
              (HSMMStatesGeoApproximation.g_model Examples.geo_self)
              (HSMMStatesGeoApproximation.g_censoring Examples.geo_self)
              (HSMMStatesGeoApproximation.g_aBl Examples.geo_self))
           Examples.geo_Al Examples.geo_aDl Examples.geo_aDsl
           (Some (length Examples.geo_aDl));
     mret (<[0 := HSMMStatesGeoApproximation.build_hmm_A Examples.geo_A 2
                     (HSMMStatesGeoApproximation.thediag
                        (dur_distns
                           (HSMMStatesGeoApproximation.g_model
                              Examples.geo_self))
                        (length Examples.geo_aDl))]> Examples.geo_store, r)).
Proof.
  apply (geo_messages_backwards_trunc_T Examples.geo_store Examples.geo_self
           {| HSMMStatesGeoApproximation.hs_model := Examples.geo_model;
              HSMMStatesGeoApproximation.hs_transition_distn := Some 0 |}
           Examples.geo_A Examples.geo_Al Examples.geo_aDl Examples.geo_aDsl
           Examples.geo_aBl 2 0).
  - simpl. lia.
  - reflexivity.
  - reflexivity.
  - reflexivity.
  - reflexivity.
  - reflexivity.
  - reflexivity.
Defined.

(** The messages of both engines at that input. *)
Lemma geo_trunc_T_example :
  match HSMMStatesGeoApproximation.messages_backwards Examples.geo_store
          Examples.geo_self Examples.geo_Al Examples.geo_aDl
          Examples.geo_aDsl (Some 3) with
  | inr (_, r) => Some r
  | inl _ => None
  end
  = Some ([[ExactReal.Lin 0; ExactReal.Lin 0];
           [ExactReal.Lin 0; ExactReal.Lin 0];
           [ExactReal.Lin 0; ExactReal.Lin 0]],
          [[ExactReal.Lin 0; ExactReal.Log (7 # 8)];
           [ExactReal.Lin 0; ExactReal.Lin 0];
           [ExactReal.Lin 0; ExactReal.Lin 0]]) ∧
  HSMMStatesPython.messages_backwards
    (HSMMStatesGeoApproximation.as_states Examples.geo_A Examples.geo_model
       true (Some (Some Examples.geo_aBl)))
    Examples.geo_Al Examples.geo_aDl Examples.geo_aDsl (Some 3)
  = mret ([[ExactReal.Lin 0; ExactReal.Lin 0];
           [ExactReal.Lin 0; ExactReal.Lin 0];
           [ExactReal.Lin 0; ExactReal.Lin 0]],
          [[ExactReal.Lin 0; ExactReal.Log (7 # 8)];
           [ExactReal.Lin 0; ExactReal.Lin 0];
           [ExactReal.Lin 0; ExactReal.Lin 0]]).
Proof. split; vm_compute; reflexivity. Qed.

(** ** The auxiliary transition matrix *)

Section AuxMatrix.
Context {F : Type} `{!FloatOps F}.
Implicit Types (M A : list (list F)) (v r : list F).

(** In a [K] x [K] matrix the flat positions that are multiples of
    [K + 1] are the diagonal. *)
Lemma diag_position (K i j : nat) :
  i < K → j < K →
  ((i * K + j) `mod` (K + 1) = 0 ↔ i = j) ∧
  (i = j → (i * K + j) `div` (K + 1) = i).
Proof.
  intros Hi Hj. split; [split|].
  - intros Hmod. destruct (decide (i = j)) as [|Hne]; [done|]. exfalso.
    destruct (decide (i < j)) as [Hlt|Hge].
    + assert ((i * K + j) `mod` (K + 1) = j - i) as Hm.
      { symmetry. apply (Nat.mod_unique _ _ i); nia. }
      lia.
    + assert ((i * K + j) `mod` (K + 1) = K + 1 + j - i) as Hm.
      { symmetry. apply (Nat.mod_unique _ _ (i - 1)); nia. }
      lia.
  - intros <-. symmetry. apply (Nat.mod_unique _ _ i); nia.
  - intros <-. symmetry. apply (Nat.div_unique _ _ _ 0); nia.
Qed.

Lemma flat_assign_diag (K : nat) (vals : nat → F) M :
  length M = K → Forall (λ v, length v = K) M →
  HSMMStatesGeoApproximation.flat_assign (K + 1) vals M
  = imap (λ i r, <[i := vals i]> r) M.
Proof.
  intros HM HF. unfold HSMMStatesGeoApproximation.flat_assign.
  apply list_eq. intros i. rewrite !list_lookup_imap.
  destruct (M !! i) as [r|] eqn:Hr; [|done]. simpl. f_equal.
  assert (i < K) as Hi by (apply lookup_lt_Some in Hr; lia).
  assert (length r = K) as Hlen.
  { rewrite Forall_lookup in HF. by apply (HF i r). }
  assert (length (row M 0) = K) as -> by (apply row_length; [done|lia]).
  apply list_eq. intros j. rewrite list_lookup_imap.
  destruct (decide (j < K)) as [Hj|Hj].
  - destruct (diag_position K i j Hi Hj) as [Hiff Hdiv].
    destruct (decide (i = j)) as [<-|Hne].
    + rewrite list_lookup_insert_eq by lia.
      destruct (lookup_lt_is_Some_2 r i) as [x ->]; [lia|]. simpl.
      destruct (decide _) as [_|Hn]; [by rewrite Hdiv|].
      exfalso. apply Hn. by apply Hiff.
    + rewrite list_lookup_insert_ne by done.
      destruct (r !! j) as [x|]; [|done]. simpl.
      destruct (decide _) as [Hy|_]; [|done].
      exfalso. apply Hne. by apply Hiff.
  - rewrite (lookup_ge_None_2 r j) by lia. simpl.
    symmetry. apply lookup_ge_None_2. rewrite length_insert. lia.
Qed.

Lemma build_hmm_A_rows (K : nat) A (diag : list F) :
  length A = K → Forall (λ v, length v = K) A → length diag = K →
  HSMMStatesGeoApproximation.build_hmm_A A K diag
  = (λ i, aux_row A diag i) <$> seq 0 K.
Proof.
  intros HA HF Hd. unfold HSMMStatesGeoApproximation.build_hmm_A.
  rewrite (flat_assign_diag K _ A) by done.
  set (Z := imap (λ i r, <[i := fzero]> r) A).
  assert (length Z = K) as HZ by (unfold Z; by rewrite length_imap).
  assert (∀ i, i < K → Z !! i = Some (<[i := fzero]> (row A i))) as HZi.
  { intros i Hi. unfold Z. rewrite list_lookup_imap.
    destruct (lookup_lt_is_Some_2 A i) as [r Hr]; [lia|].
    rewrite Hr. simpl. by rewrite (row_lookup _ _ _ Hr). }
  set (S := zip_with fdiv ((λ x, fsub fone x) <$> diag) (sum_axis1 Z)).
  set (W := zip_with (λ r c, (λ x, fmul x c) <$> r) Z S).
  assert (length S = K) as HS.
  { unfold S, sum_axis1. rewrite length_zip_with, !length_fmap. lia. }
  assert (length W = K) as HW by (unfold W; rewrite length_zip_with; lia).
  assert (∀ i, i < K →
            W !! i = Some ((λ x, fmul x (fdiv (fsub fone (at_ diag i))
                                           (np_sum (<[i := fzero]> (row A i)))))
                             <$> <[i := fzero]> (row A i))) as HWi.
  { intros i Hi. unfold W. rewrite lookup_zip_with, (HZi i Hi). simpl.
    unfold S, sum_axis1. rewrite lookup_zip_with, !list_lookup_fmap.
    rewrite (HZi i Hi). unfold at_.
    destruct (lookup_lt_is_Some_2 diag i) as [x ->]; [lia|]. done. }
  rewrite (flat_assign_diag K _ W).
  - apply list_eq. intros i. rewrite list_lookup_imap, list_lookup_fmap.
    destruct (decide (i < K)) as [Hi|Hi].
    + rewrite (HWi i Hi).
      rewrite (proj2 (lookup_seq 0 K i i)) by (split; [done|lia]). done.
    + rewrite (lookup_ge_None_2 W) by lia.
      rewrite (lookup_ge_None_2 (seq 0 K)) by (rewrite length_seq; lia).
      done.
  - done.
  - apply Forall_lookup. intros i r Hr.
    assert (i < K) as Hi by (apply lookup_lt_Some in Hr; lia).
    rewrite (HWi i Hi) in Hr. injection Hr as <-.
    rewrite length_fmap, length_insert. apply row_length; [done|lia].
Qed.

Lemma aux_row_length (K : nat) A (diag : list F) (i : nat) :
  Forall (λ v, length v = K) A → i < length A →
  length (aux_row A diag i) = K.
Proof.
  intros HF Hi. unfold aux_row.
  rewrite length_insert, length_fmap, length_insert.
  by apply row_length.
Qed.

(** The entries of the auxiliary matrix. *)
Lemma build_hmm_A_entries (K : nat) A (ds : list (DurDistn F))
    (trunc : nat) :
  length A = K → Forall (λ v, length v = K) A → length ds = K →
  let hmm_A := HSMMStatesGeoApproximation.build_hmm_A A K
                 (HSMMStatesGeoApproximation.thediag ds trunc) in
  length hmm_A = K ∧ Forall (λ v, length v = K) hmm_A ∧
  (∀ i d, ds !! i = Some d → at2 hmm_A i i = pmf_ratio d trunc) ∧
  (∀ i j d, ds !! i = Some d → j < K → i ≠ j →
     at2 hmm_A i j
     = fmul (at2 A i j)
         (fdiv (fsub fone (pmf_ratio d trunc))
               (np_sum (<[i := fzero]> (row A i))))).
Proof.
  intros HA HF Hds hmm_A. unfold hmm_A.
  rewrite (build_hmm_A_rows K) by
    (done || unfold HSMMStatesGeoApproximation.thediag;
     by rewrite length_fmap).
  assert (∀ i d, ds !! i = Some d →
            at_ (HSMMStatesGeoApproximation.thediag ds trunc) i
            = pmf_ratio d trunc) as Hdiag.
  { intros i d Hd. unfold at_, HSMMStatesGeoApproximation.thediag.
    by rewrite list_lookup_fmap, Hd. }
  assert (∀ i, i < K →
            row ((λ i, aux_row A (HSMMStatesGeoApproximation.thediag ds trunc) i)
                   <$> seq 0 K) i
            = aux_row A (HSMMStatesGeoApproximation.thediag ds trunc) i)
    as Hrow.
  { intros i Hi. unfold row. rewrite list_lookup_fmap.
    by rewrite (proj2 (lookup_seq 0 K i i)) by (split; [done|lia]). }
  split; [by rewrite length_fmap, length_seq|]. split; [|split].
  - apply Forall_fmap, Forall_forall. intros i Hi. simpl.
    apply elem_of_seq in Hi. apply aux_row_length; [done|lia].
  - intros i d Hd.
    assert (i < K) as Hi by (apply lookup_lt_Some in Hd; lia).
    unfold at2. rewrite Hrow by done. unfold aux_row, at_ at 1.
    rewrite list_lookup_insert_eq.
    + simpl. by apply Hdiag.
    + rewrite length_fmap, length_insert.
      rewrite (row_length K); [done|done|lia].
  - intros i j d Hd Hj Hne.
    assert (i < K) as Hi by (apply lookup_lt_Some in Hd; lia).
    unfold at2. rewrite Hrow by done. unfold aux_row, at_ at 1.
    rewrite list_lookup_insert_ne by done.
    rewrite list_lookup_fmap, list_lookup_insert_ne by done.
    rewrite (Hdiag i d Hd). unfold at_.
    destruct (lookup_lt_is_Some_2 (row A i) j) as [x ->]; [|done].
    rewrite (row_length K); [done|done|lia].
Qed.
End AuxMatrix.

(** ** The geometric-tail recursion *)

Section GeoStep.
Context {F : Type} `{!FloatOps F} {Obs : Type}.
Implicit Types (M betal betastarl : list (list F)) (v r : list F).

Lemma length_sum_axis0 (K : nat) M :
  Forall (λ v, length v = K) M → length (sum_axis0 K M) = K.
Proof.
  intros HM. destruct M as [|r M]; simpl.
  { unfold zeros. by rewrite length_replicate. }
  apply Forall_cons in HM as [Hr HM].
  clear -Hr HM. revert r Hr. induction M as [|r' M IH]; intros r Hr; [done|].
  apply Forall_cons in HM as [Hr' HM]. simpl. apply IH; [done|].
  unfold vadd. rewrite length_zip_with. lia.
Qed.

(** The table of HMM backward messages has the shape of the likelihood
    table when the chain has as many states. *)
Lemma hmm_messages_backwards_shape (self : states F Obs) (aBl : list (list F))
    (len K : nat) :
  has_shape len K aBl = true → length (trans_distn (model self)) = K →
  0 < len →
  has_shape len K (HMMStatesPython.messages_backwards self aBl) = true.
Proof.
  intros HaBl HA Hlen. apply has_shape_spec in HaBl as [HL HF].
  apply has_shape_spec. unfold HMMStatesPython.messages_backwards.
  assert (length (row aBl 0) = K) as -> by (apply row_length; [done|lia]).
  set (body := λ (t : nat) (betal : list (list F)), <[t := _]> betal).
  apply (down_loop_inv
           (λ _ betal, length betal = len ∧ Forall (λ v, length v = K) betal)
           body).
  - rewrite HL. apply zeros2_shape.
  - intros t betal Ht [L1 F1]. unfold body. rewrite length_insert.
    split; [done|]. apply Forall_insert; [done|].
    unfold logaddexp_reduce_axis1, mlog. by rewrite !length_fmap.
Qed.

Lemma geo_row (aBl0 aDsl hmm_betal : list (list F)) (len K trunc : nat)
    v (t : nat) :
  has_shape len K aBl0 = true → has_shape len K aDsl = true →
  has_shape len K hmm_betal = true →
  length v = K → 0 < trunc → t + trunc < len →
  length (zip_with logaddexp v
            (vadd (vadd (sum_axis0 (length (row aBl0 0))
                           (slice_from aBl0 t (Some (t + trunc + 1))))
                        (row aDsl (trunc - 1)))
                  (row hmm_betal (t + trunc)))) = K ∧
  ∀ k, k < K →
    at_ (zip_with logaddexp v
           (vadd (vadd (sum_axis0 (length (row aBl0 0))
                          (slice_from aBl0 t (Some (t + trunc + 1))))
                       (row aDsl (trunc - 1)))
                 (row hmm_betal (t + trunc)))) k
    = logaddexp (at_ v k) (geo_term aBl0 aDsl hmm_betal trunc t k).
Proof.
  intros HaBl0 HaDsl Hhmm Hv Htr Ht.
  apply has_shape_spec in HaBl0 as [HlenB HrowsB].
  apply has_shape_spec in HaDsl as [HlenS HrowsS].
  apply has_shape_spec in Hhmm as [HlenH HrowsH].
  assert (length (row aBl0 0) = K) as -> by (apply row_length; [done|lia]).
  cbn [slice_from].
  assert (Forall (λ v, length v = K) (slice aBl0 t (t + trunc + 1))) as HF
    by by apply slice_Forall.
  pose proof (length_sum_axis0 K _ HF) as Hsum.
  assert (length (row aDsl (trunc - 1)) = K) as HrS
    by (apply row_length; [done|lia]).
  assert (length (row hmm_betal (t + trunc)) = K) as HrH
    by (apply row_length; [done|lia]).
  split.
  - unfold vadd. rewrite !length_zip_with. lia.
  - intros k Hk. unfold vadd.
    rewrite at_zip_with; [|lia|rewrite !length_zip_with; lia].
    f_equal.
    rewrite at_zip_with; [|rewrite !length_zip_with; lia|lia].
    rewrite at_zip_with by lia.
    unfold geo_term, at2. do 2 f_equal.
    by rewrite at_sum_axis0.
Qed.

Lemma geo_betastarl_spec_ext (c : bool)
    (aBl0 aDl aDsl hmm_betal : list (list F)) (len tr : nat)
    betal betal' (t k : nat) :
  (∀ i, t ≤ i → i < len → row betal i = row betal' i) →
  geo_betastarl_spec c betal aBl0 aDl aDsl hmm_betal len tr t k
  = geo_betastarl_spec c betal' aBl0 aDl aDsl hmm_betal len tr t k.
Proof.
  intros Hagree. unfold geo_betastarl_spec.
  assert (duration_terms betal aBl0 aDl t k (tr `min` (len - t))
          = duration_terms betal' aBl0 aDl t k (tr `min` (len - t))) as ->;
    [|done].
  unfold duration_terms. apply list_fmap_ext. intros i d Hd.
  apply lookup_seq in Hd as [-> Hd]. simpl.
  unfold at2. rewrite Hagree by lia. done.
Qed.

Lemma geo_step_ok (self : states F Obs)
    (aBl0 hmm_betal Al aDl aDsl : list (list F))
    (len tr K t : nat) betal betastarl :
  aBl self = Some (Some aBl0) →
  has_shape len K aBl0 = true → has_shape len K aDl = true →
  has_shape len K aDsl = true → has_shape len K hmm_betal = true →
  0 < tr → t < len →
  length betal = len → Forall (λ v, length v = K) betal →
  length betastarl = len → Forall (λ v, length v = K) betastarl →
  ∃ X, length X = K ∧
       (∀ k, k < K →
          at_ X k = geo_betastarl_spec (censoring self) betal aBl0 aDl aDsl
                      hmm_betal len tr t k) ∧
       HSMMStatesGeoApproximation.backwards_step self hmm_betal Al aDl aDsl
         len tr K t (betal, betastarl)
       = mret (<[wrap_index len (Z.of_nat t - 1) :=
                  logaddexp_reduce_axis1 (vadd X <$> Al)]> betal,
               <[t := X]> betastarl).
Proof.
  intros Hself HaBl0 HaDl HaDsl Hhmm Htr Ht L1 F1 L2 F2.
  destruct (decide (t + tr < len)) as [Hg|Hg].
  - (* the geometric term is added, the censored one is not *)
    pose proof (duration_rows_shape aBl0 aDl len tr K betal t HaBl0 HaDl F1)
      as HF.
    pose proof (duration_sum_column aBl0 aDl len tr K betal t) as Hcol.
    unfold HSMMStatesGeoApproximation.backwards_step,
      HSMMStatesPython.cumulative_likelihoods,
      HSMMStatesPython.likelihood_block, get_self_aBl.
    rewrite Hself. cbn [mbind result_bind mret result_ret].
    assert ((t + tr <? len) = true) as -> by by apply Nat.ltb_lt.
    assert ((len - t <? tr) = false) as -> by (apply Nat.ltb_ge; lia).
    cbn [andb mbind result_bind mret result_ret].
    set (rows := madd (madd (slice betal t (t + tr))
                            (cumsum_axis0 (slice aBl0 t (t + tr))))
                      (take (tr `min` (len - t)) aDl)) in *.
    assert (length (logaddexp_reduce_axis0 K rows) = K) as LX0
      by by apply length_logaddexp_reduce_axis0.
    rewrite list_insert_insert_eq, !row_insert_eq by lia.
    destruct (geo_row aBl0 aDsl hmm_betal len K tr
                (logaddexp_reduce_axis0 K rows) t) as [LX HX]; try done.
    eexists. split; [exact LX|]. split; [|reflexivity].
    intros k Hk. rewrite HX by done. unfold geo_betastarl_spec.
    assert ((t + tr <? len) = true) as -> by by apply Nat.ltb_lt.
    assert ((len - t <? tr) = false) as -> by (apply Nat.ltb_ge; lia).
    cbn [andb]. f_equal.
    rewrite at_logaddexp_reduce_axis0 by done. f_equal. by apply Hcol.
  - (* the step of the exact loop *)
    rewrite geo_backwards_step_exact by lia.
    destruct (hsmm_step_ok self aBl0 Al aDl aDsl len tr K t betal betastarl)
      as (X & LX & HX & Hrun); try done.
    exists X. split; [done|]. split; [|done].
    intros k Hk. rewrite HX by done.
    unfold geo_betastarl_spec, betastarl_spec.
    assert ((t + tr <? len) = false) as -> by (apply Nat.ltb_ge; lia).
    done.
Qed.
End GeoStep.

Section GeoTailClaim.
Context {F : Type} `{!FloatOps F} {Obs : Type}.

(** What the pass would compute on an object to which a caller has added
    the attributes [state_dim] and [_hmm_states.transition_distn], which
    no constructor sets, the latter being the transition distribution of
    the model: it assigns to it the auxiliary matrix: [A] with the diagonal entry of each state set to
    [pmf(trunc+1)/pmf(trunc)] of its duration distribution (computed as
    [exp(log_pmf(trunc+1) - log_pmf(trunc))]) and the other entries of
    row [i] multiplied by [(1 - diag_i) / (their sum)].  [hmm_betal] is
    the HMM backward table of the chain with that matrix, and
    [betastarl[t,k]] is the truncated sum over durations with the term
    [likelihood_block(t,t+trunc+1,k) + aDsl[trunc-1,k] +
    hmm_betal[t+trunc,k]] log-added exactly when [t + trunc < T]; for the
    other [t] it is the value of the exact pass. *)
Theorem geo_messages_backwards_tail
    (σ : gmap nat (list (list F)))
    (self : HSMMStatesGeoApproximation.geo_states (F := F) (Obs := Obs))
    (hs : HSMMStatesGeoApproximation.hmm_states (F := F) (Obs := Obs))
    (A Al aDl aDsl aBl0 : list (list F)) (trunc K : nat) :
  1 < trunc →
  σ !! trans_distn (HSMMStatesGeoApproximation.g_model self) = Some A →
  HSMMStatesGeoApproximation.g_state_dim self = Some K →
  HSMMStatesGeoApproximation.g_hmm_states self = Some hs →
  HSMMStatesGeoApproximation.hs_model hs
  = HSMMStatesGeoApproximation.g_model self →
  HSMMStatesGeoApproximation.hs_transition_distn hs
  = Some (trans_distn (HSMMStatesGeoApproximation.g_model self)) →
  HSMMStatesGeoApproximation.g_aBl self = Some (Some aBl0) →
  has_shape K K A = true →
  length (dur_distns (HSMMStatesGeoApproximation.g_model self)) = K →
  has_shape (length aDl) K aBl0 = true →
  has_shape (length aDl) K aDl = true →
  has_shape (length aDl) K aDsl = true →
  length Al = K → 0 < length aDl →
  ∃ hmm_A hmm_betal betal betastarl,
    HSMMStatesGeoApproximation.messages_backwards σ self Al aDl aDsl
      (Some trunc)
    = mret (<[trans_distn (HSMMStatesGeoApproximation.g_model self)
                := hmm_A]> σ, (betal, betastarl)) ∧
    has_shape K K hmm_A = true ∧
    (∀ i d,
       dur_distns (HSMMStatesGeoApproximation.g_model self) !! i = Some d →
       at2 hmm_A i i = pmf_ratio d trunc) ∧
    (∀ i j d,
       dur_distns (HSMMStatesGeoApproximation.g_model self) !! i = Some d →
       j < K → i ≠ j →
       at2 hmm_A i j
       = fmul (at2 A i j)
           (fdiv (fsub fone (pmf_ratio d trunc))
                 (np_sum (<[i := fzero]> (row A i))))) ∧
    hmm_betal
    = HMMStatesPython.messages_backwards
        (HSMMStatesGeoApproximation.as_states hmm_A
           (HSMMStatesGeoApproximation.g_model self) false None) aBl0 ∧
    row betal (length aDl - 1) = zeros K ∧
    (∀ t k, t + trunc < length aDl → k < K →
       at2 betastarl t k
       = logaddexp (logsumexp (duration_terms betal aBl0 aDl t k trunc))
           (geo_term aBl0 aDsl hmm_betal trunc t k)) ∧
    (∀ t k, t < length aDl → length aDl ≤ t + trunc → k < K →
       at2 betastarl t k
       = betastarl_spec (HSMMStatesGeoApproximation.g_censoring self)
           betal aBl0 aDl aDsl (length aDl) trunc t k) ∧
    (∀ t k, S t < length aDl → k < K →
       at2 betal t k = mix_next betastarl Al (S t) k).
Proof.
  intros Htr HA HK Hhs Hm Htd HaBl HAsh Hds HaBl0 HaDl HaDsl HAl HT.
  apply has_shape_spec in HAsh as [HAlen HAF].
  set (m := HSMMStatesGeoApproximation.g_model self) in *.
  set (hmm_A := HSMMStatesGeoApproximation.build_hmm_A A K
                  (HSMMStatesGeoApproximation.thediag (dur_distns m) trunc)).
  destruct (build_hmm_A_entries K A (dur_distns m) trunc HAlen HAF Hds)
    as (HhL & HhF & Hdiag & Hoff).
  fold hmm_A in HhL, HhF, Hdiag, Hoff.
  set (hmm_betal := HMMStatesPython.messages_backwards
                      (HSMMStatesGeoApproximation.as_states hmm_A m false None)
                      aBl0).
  assert (has_shape (length aDl) K hmm_betal = true) as Hhmm.
  { apply hmm_messages_backwards_shape; done. }
  set (self' := HSMMStatesGeoApproximation.as_states hmm_A m
                  (HSMMStatesGeoApproximation.g_censoring self)
                  (HSMMStatesGeoApproximation.g_aBl self)).
  set (len := length aDl) in *.
  destruct (backward_loop_generic Al len K
              (HSMMStatesGeoApproximation.backwards_step self' hmm_betal Al
                 aDl aDsl len trunc K)
              (λ betal t k,
                 geo_betastarl_spec (HSMMStatesGeoApproximation.g_censoring self)
                   betal aBl0 aDl aDsl hmm_betal len trunc t k))
    as (betal & betastarl & Hrun & [L1 F1] & [L2 F2] & Hbs & Hb).
  - done.
  - intros. by apply geo_betastarl_spec_ext.
  - intros t betal betastarl Ht L1 F1 L2 F2.
    apply (geo_step_ok self' aBl0 hmm_betal Al aDl aDsl len trunc K);
      try done; lia.
  - exists hmm_A, hmm_betal, (<[len - 1 := zeros K]> betal), betastarl.
    split.
    { unfold HSMMStatesGeoApproximation.messages_backwards.
      cbn [mbind result_bind mret result_ret].
      assert ((0 <? trunc) = true) as -> by (apply Nat.ltb_lt; lia).
      assert ((1 <? trunc) = true) as -> by (apply Nat.ltb_lt; lia).
      cbn [py_assert mbind result_bind mret result_ret].
      fold m.
      assert (HgA : HSMMStatesGeoApproximation.get_A σ m = mret A).
      { unfold HSMMStatesGeoApproximation.get_A. by rewrite HA. }
      rewrite HgA, HK, Hhs. cbn [mbind result_bind mret result_ret].
      rewrite Htd, HaBl. cbn [mbind result_bind mret result_ret].
      fold hmm_A. rewrite Hm.
      assert (HgA' : HSMMStatesGeoApproximation.get_A
                       (<[trans_distn m := hmm_A]> σ) m = mret hmm_A).
      { unfold HSMMStatesGeoApproximation.get_A.
        by rewrite lookup_insert_eq. }
      rewrite !HgA'. cbn [mbind result_bind mret result_ret].
      rewrite <- HaBl. fold self'. fold hmm_betal. fold len.
      rewrite HAl, Hrun. cbn [mbind result_bind mret result_ret].
      rewrite setitem_last by lia. by rewrite L1. }
    split; [by apply has_shape_spec|].
    split; [done|]. split; [done|]. split; [done|].
    split; [by rewrite row_insert_eq by lia|].
    split; [|split].
    + intros t k Hg Hk. rewrite Hbs by (done || lia).
      unfold geo_betastarl_spec.
      assert ((t + trunc <? len) = true) as -> by by apply Nat.ltb_lt.
      assert ((len - t <? trunc) = false) as -> by (apply Nat.ltb_ge; lia).
      cbn [andb]. by replace (trunc `min` (len - t)) with trunc by lia.
    + intros t k Ht Hg Hk. rewrite Hbs by done.
      unfold geo_betastarl_spec, betastarl_spec.
      by assert ((t + trunc <? len) = false) as -> by (apply Nat.ltb_ge; lia).
    + intros t k Ht Hk. unfold at2. rewrite row_insert_ne by lia.
      by apply Hb.
Qed.
End GeoTailClaim.

(** On such a patched object, with three observations, [trunc = 2] and
    state 0 lasting 1, 2 or 3 steps with probabilities 1/2, 1/3, 1/6: the
    survival ratio [sf(3)/sf(2)] of state 0 is 0; the matrix the pass
    assigns has 1/2 on the diagonal of state 0, the ratio
    [pmf(3)/pmf(2)]. *)
Lemma geo_diagonal_not_survival_ratio :
  match HSMMStatesGeoApproximation.messages_backwards Examples.geo_store
          Examples.geo_self Examples.geo_Al Examples.geo_aDl
          Examples.geo_aDsl (Some 2) with
  | inr (σ, _) => σ !! 0
  | inl _ => None
  end
  = Some [[ExactReal.Lin (1 # 2); ExactReal.Lin (1 # 2)];
          [ExactReal.Lin (1 # 2); ExactReal.Lin (1 # 2)]] ∧
  (λ d : DurDistn ExactReal.xreal, survival_ratio d 2)
    <$> dur_distns Examples.geo_model
  = [ExactReal.Lin 0; ExactReal.Lin (1 # 2)] ∧
  (λ d : DurDistn ExactReal.xreal, pmf_ratio d 2)
    <$> dur_distns Examples.geo_model
  = [ExactReal.Lin (1 # 2); ExactReal.Lin (1 # 2)] ∧
  ExactReal.Lin (1 # 2) ≠ ExactReal.Lin 0.
Proof.
  split; [vm_compute; reflexivity|].
  split; [vm_compute; reflexivity|].
  split; [vm_compute; reflexivity|discriminate].
Qed.

Lemma geo_messages_backwards_tail_witness :
  ∃ hmm_A hmm_betal betal betastarl,
    HSMMStatesGeoApproximation.messages_backwards Examples.geo_store
      Examples.geo_self Examples.geo_Al Examples.geo_aDl Examples.geo_aDsl
      (Some 2)
    = mret (<[trans_distn
                (HSMMStatesGeoApproximation.g_model Examples.geo_self)
                := hmm_A]> Examples.geo_store, (betal, betastarl)) ∧
    has_shape 2 2 hmm_A = true ∧
    (∀ i d,
       dur_distns (HSMMStatesGeoApproximation.g_model Examples.geo_self) !! i
       = Some d →
       at2 hmm_A i i = pmf_ratio d 2) ∧
    (∀ i j d,
       dur_distns (HSMMStatesGeoApproximation.g_model Examples.geo_self) !! i
       = Some d →
       j < 2 → i ≠ j →
       at2 hmm_A i j
       = fmul (at2 Examples.geo_A i j)
           (fdiv (fsub fone (pmf_ratio d 2))
                 (np_sum (<[i := fzero]> (row Examples.geo_A i))))) ∧
    hmm_betal
    = HMMStatesPython.messages_backwards
        (HSMMStatesGeoApproximation.as_states hmm_A
           (HSMMStatesGeoApproximation.g_model Examples.geo_self) false None)
        Examples.geo_aBl ∧
    row betal (length Examples.geo_aDl - 1) = zeros 2 ∧
    (∀ t k, t + 2 < length Examples.geo_aDl → k < 2 →
       at2 betastarl t k
       = logaddexp
           (logsumexp (duration_terms betal Examples.geo_aBl
                         Examples.geo_aDl t k 2))
           (geo_term Examples.geo_aBl Examples.geo_aDsl hmm_betal 2 t k)) ∧
    (∀ t k, t < length Examples.geo_aDl →
       length Examples.geo_aDl ≤ t + 2 → k < 2 →
       at2 betastarl t k
       = betastarl_spec
           (HSMMStatesGeoApproximation.g_censoring Examples.geo_self)
           betal Examples.geo_aBl Examples.geo_aDl Examples.geo_aDsl
           (length Examples.geo_aDl) 2 t k) ∧
    (∀ t k, S t < length Examples.geo_aDl → k < 2 →
       at2 betal t k = mix_next betastarl Examples.geo_Al (S t) k).
Proof.
  apply (geo_messages_backwards_tail Examples.geo_store Examples.geo_self
           {| HSMMStatesGeoApproximation.hs_model := Examples.geo_model;
              HSMMStatesGeoApproximation.hs_transition_distn := Some 0 |}
           Examples.geo_A Examples.geo_Al Examples.geo_aDl Examples.geo_aDsl
           Examples.geo_aBl 2 2).
  - lia.
  - reflexivity.
  - reflexivity.
  - reflexivity.
  - reflexivity.
  - reflexivity.
  - reflexivity.
  - reflexivity.
  - reflexivity.
  - reflexivity.
  - reflexivity.
  - reflexivity.
  - reflexivity.
  - simpl. lia.
Defined.

(** The messages at that input: the geometric-tail term enters
    [betastarl[0]], which the exact pass with the same [trunc] leaves
    lower. *)
Lemma geo_messages_example :
  match HSMMStatesGeoApproximation.messages_backwards Examples.geo_store
          Examples.geo_self Examples.geo_Al Examples.geo_aDl
          Examples.geo_aDsl (Some 2) with
  | inr (_, (_, betastarl)) => Some betastarl
  | inl _ => None
  end
  = Some [[ExactReal.Log (7 # 8); ExactReal.Log (11 # 12)];
          [ExactReal.Log (5 # 6); ExactReal.Log (3 # 4)];
          [ExactReal.Lin 0; ExactReal.Lin 0]] ∧
  match HSMMStatesPython.messages_backwards
          (HSMMStatesGeoApproximation.as_states Examples.geo_A
             Examples.geo_model true (Some (Some Examples.geo_aBl)))
          Examples.geo_Al Examples.geo_aDl Examples.geo_aDsl (Some 2) with
  | inr (_, betastarl) => Some betastarl
  | inl _ => None
  end
  = Some [[ExactReal.Log (17 # 24); ExactReal.Log (2 # 3)];
          [ExactReal.Log (5 # 6); ExactReal.Log (3 # 4)];
          [ExactReal.Lin 0; ExactReal.Lin 0]].
Proof. split; vm_compute; reflexivity. Qed.

(** C7, at a failing input.  An object as the constructors leave it, on
    two states and three observations, with the likelihoods cached as
    [resample] caches them, and [trunc = 2], for which the geometric term
    is due at [t = 0].  The pass builds no auxiliary matrix and returns
    no messages: it stops where it reads [self.state_dim], an attribute
    that no class of the file sets (the number of states is
    [self.model.state_dim]). *)
Lemma geo_fresh_object_raises :
  HSMMStatesGeoApproximation.g_state_dim Examples.geo_fresh = None ∧
  0 + 2 < length Examples.geo_aDl ∧
  HSMMStatesGeoApproximation.messages_backwards Examples.geo_store
    Examples.geo_fresh Examples.geo_Al Examples.geo_aDl Examples.geo_aDsl
    (Some 2)
  = raise (AttributeError "state_dim").
Proof. split; [reflexivity|]. split; [simpl; lia|reflexivity]. Qed.

(** C8, at a failing input.  The same object with [trunc = T = 3]: the
    exact engine returns its messages on these inputs; the geometric-tail
    engine returns none, it stops where it reads [self.state_dim]. *)
Lemma geo_trunc_T_fresh_object_raises :
  length Examples.geo_aDl = 3 ∧
  HSMMStatesPython.messages_backwards
    (HSMMStatesGeoApproximation.as_states Examples.geo_A Examples.geo_model
       true (Some (Some Examples.geo_aBl)))
    Examples.geo_Al Examples.geo_aDl Examples.geo_aDsl (Some 3)
  = mret ([[ExactReal.Lin 0; ExactReal.Lin 0];
           [ExactReal.Lin 0; ExactReal.Lin 0];
           [ExactReal.Lin 0; ExactReal.Lin 0]],
          [[ExactReal.Lin 0; ExactReal.Log (7 # 8)];
           [ExactReal.Lin 0; ExactReal.Lin 0];
           [ExactReal.Lin 0; ExactReal.Lin 0]]) ∧
  HSMMStatesGeoApproximation.messages_backwards Examples.geo_store
    Examples.geo_fresh Examples.geo_Al Examples.geo_aDl Examples.geo_aDsl
    (Some 3)
  = raise (AttributeError "state_dim").
Proof.
  split; [reflexivity|]. split; [vm_compute; reflexivity|reflexivity].
Qed.

(** * Further properties of the code *)

(** ** The HMM backward table *)

Section HMMBackwardRecursion.
Context {F : Type} `{!FloatOps F} {Obs : Type}.
Implicit Types (M betal : list (list F)) (v r : list F).

Lemma at_reduce_axis1_fmap (f : list F → list F) M (k : nat) :
  k < length M →
  at_ (logaddexp_reduce_axis1 (f <$> M)) k = logsumexp (f (row M k)).
Proof.
  intros Hk. unfold logaddexp_reduce_axis1, at_, row.
  rewrite !list_lookup_fmap.
  by destruct (lookup_lt_is_Some_2 M k Hk) as [r ->].
Qed.

Lemma hmm_messages_backwards_spec (self : states F Obs)
    (aBl : list (list F)) (K : nat) :
  has_shape (length aBl) K aBl = true →
  length (trans_distn (model self)) = K →
  0 < length aBl →
  has_shape (length aBl) K (HMMStatesPython.messages_backwards self aBl)
  = true ∧
  row (HMMStatesPython.messages_backwards self aBl) (length aBl - 1)
  = zeros K ∧
  ∀ t k, S t < length aBl → k < K →
    at2 (HMMStatesPython.messages_backwards self aBl) t k
    = logsumexp
        (vadd (vadd (row (mlog (trans_distn (model self))) k)
                    (row (HMMStatesPython.messages_backwards self aBl) (S t)))
              (row aBl (S t))).
Proof.
  intros HaBl HA HT. apply has_shape_spec in HaBl as [_ HF].
  set (len := length aBl) in *.
  set (Al := mlog (trans_distn (model self))).
  assert (length Al = K) as HAl by (unfold Al, mlog; by rewrite length_fmap).
  unfold HMMStatesPython.messages_backwards. fold len. fold Al.
  assert (length (row aBl 0) = K) as -> by (apply row_length; [done|lia]).
  set (body := λ (t : nat) betal, <[t := _]> betal).
  pose (P := λ (t : nat) betal,
          length betal = len ∧ Forall (λ v, length v = K) betal ∧
          row betal (len - 1) = zeros K ∧
          ∀ i k, t ≤ i → S i < len → k < K →
            at2 betal i k
            = logsumexp (vadd (vadd (row Al k) (row betal (S i)))
                              (row aBl (S i)))).
  assert (P 0 (down_loop (len - 1) body (zeros2 len K))) as (L & HFb & Hlast & Hrec).
  { apply down_loop_inv.
    - unfold P. destruct (zeros2_shape (F := F) len K) as [L0 F0].
      split; [done|]. split; [done|]. split.
      + unfold row, zeros2. by rewrite lookup_replicate_2 by lia.
      + intros; lia.
    - intros t betal Ht (L & HFb & Hlast & Hrec). unfold P, body.
      rewrite length_insert. split; [done|]. split.
      { apply Forall_insert; [done|].
        unfold logaddexp_reduce_axis1. by rewrite !length_fmap. }
      split; [by rewrite row_insert_ne by lia|].
      intros i k Hi HiT Hk. rewrite (row_insert_ne _ t (S i)) by lia.
      destruct (decide (i = t)) as [->|Hne].
      + unfold at2. rewrite row_insert_eq by lia.
        by rewrite (at_reduce_axis1_fmap
                      (λ Alk, vadd (vadd Alk (row betal (S t))) (row aBl (S t))))
          by lia.
      + unfold at2. rewrite row_insert_ne by lia. apply Hrec; (done || lia). }
  split; [by apply has_shape_spec|]. split; [done|].
  intros t k Ht Hk. apply Hrec; (done || lia).
Qed.

(** [HMMStatesPython.messages_backwards] on a table of [T >= 1] rows and
    [K] columns, for a chain of [K] states: the result has the shape of
    the table, its last row is zero and
    [betal[t,k] = logsumexp_j(log A[k,j] + betal[t+1,j] + aBl[t+1,j])]
    for every [t < T-1]. *)
Theorem hmm_messages_backwards_recursion (self : states F Obs)
    (aBl : list (list F)) (K : nat) :
  has_shape (length aBl) K aBl = true →
  length (trans_distn (model self)) = K →
  0 < length aBl →
  has_shape (length aBl) K (HMMStatesPython.messages_backwards self aBl)
  = true ∧
  row (HMMStatesPython.messages_backwards self aBl) (length aBl - 1)
  = zeros K ∧
  ∀ t k, S t < length aBl → k < K →
    at2 (HMMStatesPython.messages_backwards self aBl) t k
    = logsumexp
        (vadd (vadd (row (mlog (trans_distn (model self))) k)
                    (row (HMMStatesPython.messages_backwards self aBl) (S t)))
              (row aBl (S t))).
Proof.
  intros HaBl HA HT.
  destruct (hmm_messages_backwards_spec self aBl K HaBl HA HT)
    as (Hshape & Hlast & Hrec).
  split; [done|]. split; [done|].
  intros t k Ht Hk. by apply Hrec.
Qed.

(** [messages_forwards] reads row 0 of the table: it raises [IndexError]
    exactly when the table has no rows.  [messages_backwards] returns the
    empty table then, and [resample] on data without observations sets
    the empty state sequence without a draw. *)
Theorem hmm_messages_empty_table (self : states F Obs)
    (aBl : list (list F)) (g : rng F) :
  (HMMStatesPython.messages_forwards self aBl = raise IndexError ↔ aBl = []) ∧
  HMMStatesPython.messages_backwards self [] = [] ∧
  (data self = Some [] →
   HMMStatesPython.resample self g = mret (set_stateseq [] self, g)).
Proof.
  split; [|split; [reflexivity|]].
  - unfold HMMStatesPython.messages_forwards.
    destruct aBl as [|r aBl]; simpl.
    + done.
    + split; [discriminate|done].
  - intros Hd. unfold HMMStatesPython.resample. by rewrite Hd.
Qed.
End HMMBackwardRecursion.

Lemma hmm_messages_backwards_recursion_witness :
  has_shape (length Examples.hmm_aBl) 2
    (HMMStatesPython.messages_backwards Examples.hmm_self Examples.hmm_aBl)
  = true ∧
  row (HMMStatesPython.messages_backwards Examples.hmm_self Examples.hmm_aBl)
    (length Examples.hmm_aBl - 1)
  = zeros 2 ∧
  ∀ t k, S t < length Examples.hmm_aBl → k < 2 →
    at2 (HMMStatesPython.messages_backwards Examples.hmm_self
           Examples.hmm_aBl) t k
    = logsumexp
        (vadd (vadd (row (mlog (trans_distn (model Examples.hmm_self))) k)
                    (row (HMMStatesPython.messages_backwards Examples.hmm_self
                            Examples.hmm_aBl) (S t)))
              (row Examples.hmm_aBl (S t))).
Proof.
  apply (hmm_messages_backwards_recursion Examples.hmm_self Examples.hmm_aBl 2).
  - reflexivity.
  - reflexivity.
  - simpl. lia.
Defined.

(** ** What the HMM sampler changes *)

Section HMMResample.
Context {F : Type} `{!FloatOps F} {Obs : Type}.

Lemma up_loopM_inv {S : Type} (P : S → Prop) (body : nat → S → result S)
    (ts : list nat) :
  ∀ s s', P s →
  (∀ t s s', body t s = mret s' → P s → P s') →
  HMMStatesPython.up_loopM body ts s = mret s' → P s'.
Proof.
  induction ts as [|t ts IH]; intros s s' Hs Hstep Hrun.
  - cbn [HMMStatesPython.up_loopM mret result_ret] in Hrun.
    by injection Hrun as <-.
  - cbn [HMMStatesPython.up_loopM] in Hrun.
    apply bind_inv in Hrun as (s1 & Hbody & Hrun).
    apply (IH s1 s'); [|done|done]. by apply (Hstep t s).
Qed.

Lemma hmm_sample_forwards_length (self self' : states F Obs)
    (aBl betal : list (list F)) (g g' : rng F) :
  HMMStatesPython.sample_forwards self aBl betal g = mret (self', g') →
  self' = set_stateseq (stateseq self') self ∧
  length (stateseq self') = length aBl.
Proof.
  intros Hrun. unfold HMMStatesPython.sample_forwards in Hrun.
  apply bind_inv in Hrun as ([[ss nu] g1] & Hloop & Hrun).
  cbn [mret result_ret] in Hrun. injection Hrun as <- <-.
  split; [done|]. simpl.
  apply (up_loopM_inv (λ s, length s.1.1 = length aBl)) in Hloop; [done|..].
  - simpl. by rewrite length_replicate.
  - intros t [[ss0 nu0] g0] [[ss1 nu1] g2] Hstep Hlen. simpl in *.
    unfold HMMStatesPython.sample_step in Hstep.
    apply bind_inv in Hstep as ([state g3] & _ & Hstep).
    cbn [mret result_ret] in Hstep. injection Hstep as <- <- <-.
    by rewrite length_insert.
Qed.

(** [HMMStatesPython.resample] asserts that the object has data, before
    any draw.  When it returns, the object differs from the one it was
    called on in [stateseq] only, and the new state sequence has one
    entry per observation. *)
Theorem hmm_resample_stateseq (self : states F Obs) (g : rng F) :
  (data self = None →
   HMMStatesPython.resample self g = raise AssertionError) ∧
  (∀ dat self' g',
     data self = Some dat →
     HMMStatesPython.resample self g = mret (self', g') →
     self' = set_stateseq (stateseq self') self ∧
     length (stateseq self') = length dat).
Proof.
  split.
  - intros Hd. unfold HMMStatesPython.resample. by rewrite Hd.
  - intros dat self' g' Hd Hrun. unfold HMMStatesPython.resample in Hrun.
    rewrite Hd in Hrun. apply hmm_sample_forwards_length in Hrun as [-> Hlen].
    split; [done|]. rewrite Hlen. unfold HMMStatesPython.get_aBl.
    by rewrite length_fmap, length_seq.
Qed.
End HMMResample.

(** ** What the HSMM [resample] leaves in the object *)

Section HSMMResample.
Context {F : Type} `{!FloatOps F} {Obs : Type}.

Lemma hsmm_sample_forwards_frame (self self' : states F Obs)
    (betal betastarl : list (list F)) (g g' : rng F) :
  HSMMStatesPython.sample_forwards self betal betastarl g = mret (self', g') →
  self' = set_stateseq_norep (stateseq_norep self')
            (set_durations (durations self')
               (set_stateseq (stateseq self') self)).
Proof.
  intros Hrun. unfold HSMMStatesPython.sample_forwards in Hrun.
  apply bind_inv in Hrun as (apmf & _ & Hrun).
  apply bind_inv in Hrun as ([[[ss nr] ds] g1] & _ & Hrun).
  cbn [mret result_ret] in Hrun. by injection Hrun as <- <-.
Qed.

Lemma hsmm_resample_frame (self self' : states F Obs) (dat : list Obs)
    (g g' : rng F) :
  data self = Some dat →
  HSMMStatesPython.resample HSMMStatesPython.cls self g = mret (self', g') →
  trunc self' = Some (default (T self) (trunc self)) ∧
  aBl self' = Some (Some (HMMStatesPython.get_aBl self dat)) ∧
  length (stateseq self') = T self ∧
  self' = set_stateseq_norep (stateseq_norep self')
            (set_durations (durations self')
               (set_stateseq (stateseq self')
                  (set_aBl (aBl self') (set_trunc (trunc self') self)))).
Proof.
  intros Hd Hrun. unfold HSMMStatesPython.resample in Hrun.
  rewrite Hd in Hrun. cbn [HSMMStatesPython.cls
    HSMMStatesPython.m_get_aBl HSMMStatesPython.m_messages_backwards
    HSMMStatesPython.m_sample_forwards mbind result_bind mret result_ret]
    in Hrun.
  apply bind_inv in Hrun as ([s1 [betal betastarl]] & Hmb & Hrun).
  apply bind_inv in Hmb as (r & _ & Hmb).
  cbn [mret result_ret] in Hmb. injection Hmb as <- _.
  pose proof (hsmm_sample_forwards_frame _ _ _ _ _ _ Hrun) as Hframe.
  apply hsmm_sample_forwards_rle in Hrun
    as (_ & Hlen & Hsum & _ & _ & Hexp & _).
  simpl in Hsum, Hexp.
  rewrite Hframe. simpl. repeat split.
  rewrite Hexp, length_take, expand_length by done. lia.
Qed.

(** [HSMMStatesPython.resample] asserts that the object has data.  When
    it returns, [self.trunc] is [T] if it was [None] and is unchanged
    otherwise, [self.aBl] holds the likelihood table of the data, the
    state sequence has [T] entries, and apart from these two attributes,
    [stateseq], [stateseq_norep] and [durations] the object is as
    before. *)
Theorem hsmm_resample_attributes (self : states F Obs) (g : rng F) :
  (data self = None →
   HSMMStatesPython.resample HSMMStatesPython.cls self g
   = raise AssertionError) ∧
  (∀ dat self' g',
     data self = Some dat →
     HSMMStatesPython.resample HSMMStatesPython.cls self g
     = mret (self', g') →
     trunc self' = Some (default (T self) (trunc self)) ∧
     aBl self' = Some (Some (HMMStatesPython.get_aBl self dat)) ∧
     length (stateseq self') = T self ∧
     self' = set_stateseq_norep (stateseq_norep self')
               (set_durations (durations self')
                  (set_stateseq (stateseq self')
                     (set_aBl (aBl self') (set_trunc (trunc self') self))))).
Proof.
  split.
  - intros Hd. unfold HSMMStatesPython.resample. by rewrite Hd.
  - intros dat self' g' Hd Hrun.
    by apply (hsmm_resample_frame self self' dat g g').
Qed.
End HSMMResample.

(** ** The likelihood helpers of the HSMM class *)

Section LikelihoodHelpers.
Context {F : Type} `{!FloatOps F} {Obs : Type}.
Implicit Types (M : list (list F)) (v r : list F).

(** [messages_backwards] reads the likelihoods that [resample] caches in
    [self.aBl]: on an object without the attribute it raises
    [AttributeError], after the block class has set it to [None] it
    raises [TypeError]; and with no duration rows at all ([T = 0]) the
    assignment [betal[-1] = 0.] raises [IndexError]. *)
Theorem hsmm_messages_backwards_errors (self : states F Obs)
    (Al aDl aDsl : list (list F)) (trunc : option nat) :
  (aDl = [] →
   HSMMStatesPython.messages_backwards self Al aDl aDsl trunc
   = raise IndexError) ∧
  (aDl ≠ [] → aBl self = None →
   HSMMStatesPython.messages_backwards self Al aDl aDsl trunc
   = raise (AttributeError "aBl")) ∧
  (aDl ≠ [] → aBl self = Some None →
   HSMMStatesPython.messages_backwards self Al aDl aDsl trunc
   = raise TypeError).
Proof.
  split; [|split].
  - intros ->. reflexivity.
  - intros Hne Hself. destruct aDl as [|r aDl]; [done|].
    unfold HSMMStatesPython.messages_backwards.
    cbn [length down_loopM HSMMStatesPython.backwards_step].
    unfold HSMMStatesPython.cumulative_likelihoods, get_self_aBl.
    by rewrite Hself.
  - intros Hne Hself. destruct aDl as [|r aDl]; [done|].
    unfold HSMMStatesPython.messages_backwards.
    cbn [length down_loopM HSMMStatesPython.backwards_step].
    unfold HSMMStatesPython.cumulative_likelihoods, get_self_aBl.
    by rewrite Hself.
Qed.

(** The four likelihood helpers agree: on a cached table of [K] columns,
    for [start < stop] inside the table, [likelihood_block(start,stop)]
    is the last row of [cumulative_likelihoods(start,stop)], and the
    [_state] variants are column [state] of the two. *)
Theorem hsmm_likelihood_helpers_agree (self : states F Obs)
    (aBl0 : list (list F)) (K start stop state : nat) :
  aBl self = Some (Some aBl0) →
  Forall (λ v, length v = K) aBl0 →
  start < stop → stop ≤ length aBl0 → state < K →
  ∃ cl lb cls lbs,
    HSMMStatesPython.cumulative_likelihoods self start stop = mret cl ∧
    HSMMStatesPython.likelihood_block self start (Some stop) = mret lb ∧
    HSMMStatesPython.cumulative_likelihood_state self start stop state
    = mret cls ∧
    HSMMStatesPython.likelihood_block_state self start stop state
    = mret lbs ∧
    length cl = stop - start ∧ length cls = stop - start ∧
    at2 cl (stop - start - 1) state = at_ lb state ∧
    lbs = at_ lb state ∧
    ∀ d, d < stop - start → at_ cls d = at2 cl d state.
Proof.
  intros Hself HF Hlt Hstop Hst.
  unfold HSMMStatesPython.cumulative_likelihoods,
    HSMMStatesPython.likelihood_block,
    HSMMStatesPython.cumulative_likelihood_state,
    HSMMStatesPython.likelihood_block_state, get_self_aBl.
  rewrite Hself. cbn [mbind result_bind mret result_ret slice_from].
  do 4 eexists. do 4 (split; [reflexivity|]).
  assert (length (slice aBl0 start stop) = stop - start) as Hsl
    by (rewrite slice_length; lia).
  assert (length (row aBl0 0) = K) as HK by (apply row_length; [done|lia]).
  assert (Forall (λ v, length v = K) (slice aBl0 start stop)) as HFs
    by by apply slice_Forall.
  split; [by rewrite cumsum_axis0_length|].
  split.
  { destruct (column (slice aBl0 start stop) state) as [|x l] eqn:Hc.
    - apply (f_equal length) in Hc. rewrite column_length in Hc.
      simpl in Hc. lia.
    - simpl. rewrite scan_length. apply (f_equal length) in Hc.
      rewrite column_length in Hc. simpl in Hc. lia. }
  rewrite HK. split; [|split].
  - rewrite (at2_cumulative_likelihoods K) by (done || lia).
    rewrite at_sum_axis0 by done. unfold cumulative_loglik.
    do 3 f_equal. lia.
  - by rewrite at_sum_axis0.
  - intros d Hd.
    rewrite (at2_cumulative_likelihoods K) by (done || lia).
    unfold at_ at 1. rewrite cumsum_lookup by (rewrite column_length; lia).
    simpl. unfold cumulative_loglik. rewrite <- column_take.
    rewrite take_slice by lia. do 3 f_equal. lia.
Qed.
End LikelihoodHelpers.

(** ** The block sampler *)

Section BlockSampler.
Context {F : Type} `{!FloatOps F} {Obs : Type}.

Lemma fill_lookup {A : Type} (l : list A) (a b t : nat) (x : A) :
  a ≤ b →
  fill l a b x !! t
  = if decide (a ≤ t < b ∧ t < length l) then Some x else l !! t.
Proof.
  intros Hab. unfold fill. rewrite slice_length.
  destruct (decide (t < a `min` length l)) as [H1|H1].
  - rewrite lookup_app_l by (rewrite length_take; lia).
    rewrite lookup_take_lt by lia.
    destruct (decide _) as [?|_]; [lia|done].
  - rewrite lookup_app_r by (rewrite length_take; lia).
    rewrite length_take.
    destruct (decide (t - a `min` length l
                      < (b - a) `min` (length l - a))) as [H2|H2].
    + rewrite lookup_app_l by (rewrite length_replicate; lia).
      rewrite lookup_replicate_2 by lia.
      destruct (decide _) as [_|?]; [done|lia].
    + rewrite lookup_app_r by (rewrite length_replicate; lia).
      rewrite length_replicate, lookup_drop.
      destruct (decide _) as [?|_]; [lia|].
      destruct (decide (t < length l)) as [Ht|Ht].
      * f_equal. lia.
      * rewrite !lookup_ge_None_2; [done|lia|lia].
Qed.

(** The state sequence the block sampler builds from the block states. *)
Lemma cp_sample_forwards_result (self self' : states F Obs)
    (betal betastarl : list (list F)) (g g' : rng F) :
  HSMMStatesPossibleChangepoints.sample_forwards self betal betastarl g
  = mret (self', g') →
  ∃ bss : list nat,
    aDl self ≠ None ∧ length betal = length (changepoints self) ∧
    stateseq self'
    = foldl (λ ss sc, fill ss (fst (snd sc)) (snd (snd sc)) (fst sc))
        (replicate (T self) 0) (zip bss (changepoints self)) ∧
    self' = set_aDl None
              (set_durations (rle (stateseq self')).2
                 (set_stateseq_norep (rle (stateseq self')).1
                    (set_stateseq (stateseq self') self))).
Proof.
  unfold HSMMStatesPossibleChangepoints.sample_forwards. intros Hrun.
  apply bind_inv in Hrun as (aD & HaD & Hrun).
  apply bind_inv in Hrun as ([] & Hlen & Hrun).
  apply py_assert_inv, Nat.eqb_eq in Hlen.
  apply bind_inv in Hrun as ([bss g1] & _ & Hrun).
  exists bss. destruct (rle _) as [nr ds] eqn:Hrle.
  cbn [mret result_ret] in Hrun. injection Hrun as <- <-. simpl.
  split.
  { unfold get_self_aDl in HaD. by destruct (aDl self). }
  split; [done|]. split; [done|]. by rewrite Hrle.
Qed.

Lemma foldl_fill_length (cps : list (nat * (nat * nat))) :
  ∀ ss : list nat,
  Forall (λ sc, sc.2.1 ≤ sc.2.2) cps →
  length (foldl (λ ss sc, fill ss (fst (snd sc)) (snd (snd sc)) (fst sc))
            ss cps) = length ss.
Proof.
  induction cps as [|sc cps IH]; intros ss HF; [done|].
  apply Forall_cons in HF as [Hsc HF]. simpl.
  rewrite IH by done. by apply fill_length.
Qed.

Lemma zip_intervals (bss : list nat) (cps : list (nat * nat)) :
  intervals cps → Forall (λ sc, sc.2.1 ≤ sc.2.2) (zip bss cps).
Proof.
  intros Hint. apply Forall_lookup. intros i sc Hi.
  apply lookup_zip_with_Some in Hi as (s & c & -> & _ & Hc).
  unfold intervals in Hint. rewrite Forall_lookup in Hint.
  by apply (Hint i c).
Qed.

(** [del self.aDl]: the sampler of the block class uses up the attribute
    that [messages_backwards] leaves for it. *)
Theorem cp_sample_forwards_consumes_aDl (self : states F Obs)
    (betal betastarl : list (list F)) (g : rng F) :
  (aDl self = None →
   HSMMStatesPossibleChangepoints.sample_forwards self betal betastarl g
   = raise (AttributeError "aDl")) ∧
  (aDl self ≠ None → length betal ≠ length (changepoints self) →
   HSMMStatesPossibleChangepoints.sample_forwards self betal betastarl g
   = raise AssertionError) ∧
  (∀ Al aDl0 aDsl trunc self1 r,
     HSMMStatesPossibleChangepoints.messages_backwards self Al aDl0 aDsl trunc
     = mret (self1, r) →
     aDl self1 = Some aDl0) ∧
  (∀ self' g',
     HSMMStatesPossibleChangepoints.sample_forwards self betal betastarl g
     = mret (self', g') →
     aDl self' = None ∧
     ∀ betal' betastarl' g1,
       HSMMStatesPossibleChangepoints.sample_forwards self' betal' betastarl'
         g1
       = raise (AttributeError "aDl")).
Proof.
  split; [|split; [|split]].
  - intros HaD. unfold HSMMStatesPossibleChangepoints.sample_forwards,
      get_self_aDl. by rewrite HaD.
  - intros HaD Hlen. unfold HSMMStatesPossibleChangepoints.sample_forwards,
      get_self_aDl.
    destruct (aDl self) as [aD|]; [|done].
    cbn [mbind result_bind mret result_ret].
    apply Nat.eqb_neq in Hlen. by rewrite Hlen.
  - intros Al aDl0 aDsl trunc self1 r Hrun.
    by apply cp_messages_backwards_self in Hrun as ->.
  - intros self' g' Hrun.
    apply cp_sample_forwards_result in Hrun as (bss & _ & _ & _ & ->).
    split; [done|]. intros. reflexivity.
Qed.

(** After the block sampler, on changepoints that are intervals, the
    state sequence has [T] entries and [stateseq_norep], [durations] are
    its run-length encoding: as many states as durations, consecutive
    states different, positive durations that sum to [T] exactly. *)
Theorem cp_sample_forwards_run_lengths (self self' : states F Obs)
    (betal betastarl : list (list F)) (g g' : rng F) :
  intervals (changepoints self) →
  HSMMStatesPossibleChangepoints.sample_forwards self betal betastarl g
  = mret (self', g') →
  length (stateseq self') = T self ∧
  length (stateseq_norep self') = length (durations self') ∧
  no_repeat (stateseq_norep self') ∧
  Forall (λ d, 0 < d) (durations self') ∧
  sum_list (durations self') = T self ∧
  expand (stateseq_norep self') (durations self') = stateseq self'.
Proof.
  intros Hint Hrun.
  apply cp_sample_forwards_result in Hrun as (bss & _ & _ & Hss & Hself).
  assert (length (stateseq self') = T self) as Hlen.
  { rewrite Hss, foldl_fill_length by by apply zip_intervals.
    by rewrite length_replicate. }
  destruct (rle_spec (stateseq self')) as (Hl & Hexp & Hnr & Hpos).
  rewrite Hself. cbn [stateseq stateseq_norep durations set_aDl set_durations
                      set_stateseq_norep set_stateseq].
  split; [done|]. split; [done|]. split; [done|]. split; [done|].
  split; [|done].
  rewrite <- (expand_length _ _ Hl), Hexp. done.
Qed.
End BlockSampler.

Section BlockStates.
Context {F : Type} `{!FloatOps F} {Obs : Type}.

Lemma foldl_fill_lookup (scs : list (nat * (nat * nat))) (ss : list nat) :
  Forall (λ sc, sc.2.1 ≤ sc.2.2) scs →
  (∀ i j sc sc', i < j → scs !! i = Some sc → scs !! j = Some sc' →
                 sc.2.2 ≤ sc'.2.1) →
  ∀ i sc t, scs !! i = Some sc → sc.2.1 ≤ t < sc.2.2 → t < length ss →
    foldl (λ ss sc, fill ss (fst (snd sc)) (snd (snd sc)) (fst sc)) ss scs
      !! t = Some sc.1.
Proof.
  induction scs as [|last scs IH] using rev_ind;
    intros HF Hord i sc t Hi Ht Hlen; [done|].
  apply Forall_app in HF as [HF Hlast]. rewrite Forall_singleton in Hlast.
  rewrite foldl_app. simpl. rewrite fill_lookup by done.
  rewrite foldl_fill_length by done.
  destruct (decide (i = length scs)) as [->|Hne].
  - rewrite lookup_app_r in Hi by lia.
    replace (length scs - length scs) with 0 in Hi by lia.
    simpl in Hi. injection Hi as <-.
    destruct (decide _) as [_|Hn]; [done|lia].
  - assert (i < length scs) as Hlt.
    { apply lookup_lt_Some in Hi. rewrite length_app in Hi. simpl in Hi. lia. }
    assert (sc.2.2 ≤ last.2.1) as Hle.
    { apply (Hord i (length scs)); [done|done|].
      rewrite lookup_app_r by lia.
      by replace (length scs - length scs) with 0 by lia. }
    destruct (decide _) as [?|_]; [lia|].
    rewrite lookup_app_l in Hi by done.
    apply (IH HF) with (i := i); try done.
    intros i' j' sc1 sc2 Hij H1 H2. apply (Hord i' j'); [done| |].
    + rewrite lookup_app_l; [done|]. apply lookup_lt_Some in H1. lia.
    + rewrite lookup_app_l; [done|]. by apply lookup_lt_Some in H2.
Qed.

Lemma block_loop_length (self : states F Obs)
    (aDl0 betal betastarl : list (list F)) (Tb trunc fuel : nat) :
  ∀ tblock bss nu g bss' g',
  HSMMStatesPossibleChangepoints.block_loop self aDl0 betal betastarl Tb
    trunc fuel tblock bss nu g = mret (bss', g') →
  length bss' = length bss.
Proof.
  induction fuel as [|fuel IH]; intros tblock bss nu g bss' g' Hrun;
    cbn [HSMMStatesPossibleChangepoints.block_loop] in Hrun;
    destruct (tblock <? Tb); try done;
    try (cbn [mret result_ret] in Hrun; by injection Hrun as <- <-).
  apply bind_inv in Hrun as (bs & _ & Hrun).
  apply bind_inv in Hrun as ([state g1] & _ & Hrun).
  apply bind_inv in Hrun as (pd & _ & Hrun).
  apply bind_inv in Hrun as ([blockdur g2] & _ & Hrun).
  apply bind_inv in Hrun as (nu' & _ & Hrun).
  apply IH in Hrun. rewrite Hrun. apply fill_length. lia.
Qed.

(** The state sequence of the block sampler changes state at
    changepoints only: on changepoints that are intervals, in order and
    not overlapping, two time steps of the same block have the same
    state. *)
Theorem cp_sample_forwards_block_states (self self' : states F Obs)
    (betal betastarl : list (list F)) (g g' : rng F) :
  intervals (changepoints self) → ordered (changepoints self) →
  HSMMStatesPossibleChangepoints.sample_forwards self betal betastarl g
  = mret (self', g') →
  changepoints self' = changepoints self ∧
  ∀ i c t t', changepoints self !! i = Some c →
    c.1 ≤ t < c.2 → c.1 ≤ t' < c.2 → t < T self → t' < T self →
    stateseq self' !! t = stateseq self' !! t'.
Proof.
  intros Hint Hord Hrun.
  split.
  { by apply cp_sample_forwards_result in Hrun as (bss & _ & _ & _ & ->). }
  intros i c t t' Hc Ht Ht' HtT Ht'T.
  unfold HSMMStatesPossibleChangepoints.sample_forwards in Hrun.
  apply bind_inv in Hrun as (aD & _ & Hrun).
  apply bind_inv in Hrun as ([] & Hlen & Hrun).
  apply py_assert_inv, Nat.eqb_eq in Hlen.
  apply bind_inv in Hrun as ([bss g1] & Hloop & Hrun).
  apply block_loop_length in Hloop. rewrite length_replicate in Hloop.
  destruct (rle _) as [nr ds].
  cbn [mret result_ret] in Hrun. injection Hrun as <- <-. simpl.
  assert (i < length bss) as Hi
    by (apply lookup_lt_Some in Hc; lia).
  destruct (lookup_lt_is_Some_2 bss i Hi) as [s Hs].
  assert (zip bss (changepoints self) !! i = Some (s, c)) as Hz.
  { apply lookup_zip_with_Some. by exists s, c. }
  assert (∀ i j sc sc', i < j →
            zip bss (changepoints self) !! i = Some sc →
            zip bss (changepoints self) !! j = Some sc' →
            sc.2.2 ≤ sc'.2.1) as Hord'.
  { intros i' j' sc sc' Hij H1 H2.
    apply lookup_zip_with_Some in H1 as (s1 & c1 & -> & _ & Hc1).
    apply lookup_zip_with_Some in H2 as (s2 & c2 & -> & _ & Hc2).
    simpl. by apply (Hord i' j'). }
  rewrite !(foldl_fill_lookup _ _ (zip_intervals bss _ Hint) Hord' i (s, c));
    try done; by rewrite length_replicate.
Qed.
End BlockStates.

Lemma cp_sample_forwards_run_lengths_witness :
  length (stateseq Examples.cp_sampled) = T Examples.cp_ready ∧
  length (stateseq_norep Examples.cp_sampled)
  = length (durations Examples.cp_sampled) ∧
  no_repeat (stateseq_norep Examples.cp_sampled) ∧
  Forall (λ d, 0 < d) (durations Examples.cp_sampled) ∧
  sum_list (durations Examples.cp_sampled) = T Examples.cp_ready ∧
  expand (stateseq_norep Examples.cp_sampled) (durations Examples.cp_sampled)
  = stateseq Examples.cp_sampled.
Proof.
  apply (cp_sample_forwards_run_lengths Examples.cp_ready Examples.cp_sampled
           Examples.cp_betal Examples.cp_betal Examples.thirds
           (Examples.thirds_after 2)).
  - unfold intervals. repeat constructor.
  - vm_compute. reflexivity.
Defined.

Lemma cp_sample_forwards_block_states_witness :
  changepoints Examples.cp_sampled = changepoints Examples.cp_ready ∧
  ∀ i c t t', changepoints Examples.cp_ready !! i = Some c →
    c.1 ≤ t < c.2 → c.1 ≤ t' < c.2 →
    t < T Examples.cp_ready → t' < T Examples.cp_ready →
    stateseq Examples.cp_sampled !! t = stateseq Examples.cp_sampled !! t'.
Proof.
  apply (cp_sample_forwards_block_states Examples.cp_ready
           Examples.cp_sampled Examples.cp_betal Examples.cp_betal
           Examples.thirds (Examples.thirds_after 2)).
  - unfold intervals. repeat constructor.
  - intros [|[|i]] [|[|j]] c c' Hij Hc Hc'; simpl in *; try lia;
      try discriminate.
    injection Hc as <-. injection Hc' as <-. simpl. lia.
  - vm_compute. reflexivity.
Defined.

Lemma hsmm_likelihood_helpers_agree_witness :
  ∃ cl lb cls lbs,
    HSMMStatesPython.cumulative_likelihoods Examples.cens_cached 0 2 = mret cl ∧
    HSMMStatesPython.likelihood_block Examples.cens_cached 0 (Some 2)
    = mret lb ∧
    HSMMStatesPython.cumulative_likelihood_state Examples.cens_cached 0 2 1
    = mret cls ∧
    HSMMStatesPython.likelihood_block_state Examples.cens_cached 0 2 1
    = mret lbs ∧
    length cl = 2 - 0 ∧ length cls = 2 - 0 ∧
    at2 cl (2 - 0 - 1) 1 = at_ lb 1 ∧
    lbs = at_ lb 1 ∧
    ∀ d, d < 2 - 0 → at_ cls d = at2 cl d 1.
Proof.
  apply (hsmm_likelihood_helpers_agree Examples.cens_cached
           [[ExactReal.Lin 0; ExactReal.Lin 0];
            [ExactReal.Lin 0; ExactReal.Lin 0]] 2 0 2 1).
  - reflexivity.
  - repeat constructor.
  - lia.
  - simpl. lia.
  - lia.
Defined.

(** ** Blocks and their possible durations *)

Section BlockDurations.
Context {F : Type} `{!FloatOps F} {Obs : Type}.

Lemma tiles_scan (a : nat) (cps : list (nat * nat)) :
  ∀ s len, tiles s len cps → a ≤ s →
  scan Nat.add (s - a) ((λ c, c.2 - c.1) <$> cps) = (λ c, c.2 - a) <$> cps.
Proof.
  induction cps as [|c cps IH]; intros s len Ht Ha; [done|].
  destruct Ht as (Hc & Hle & Ht). simpl. f_equal; [lia|].
  replace (s - a + (c.2 - c.1)) with (c.2 - a) by lia.
  apply (IH _ len); [done|lia].
Qed.

Lemma tiles_sum (cps : list (nat * nat)) :
  ∀ s len, tiles s len cps →
  s ≤ len ∧ sum_list ((λ c, c.2 - c.1) <$> cps) = len - s.
Proof.
  induction cps as [|c cps IH]; intros s len Ht.
  - simpl in *. subst. lia.
  - destruct Ht as (Hc & Hle & Ht). destruct (IH _ _ Ht) as [Hle' Hsum].
    change (sum_list ((λ c, c.2 - c.1) <$> c :: cps))
      with ((c.2 - c.1) + sum_list ((λ c, c.2 - c.1) <$> cps)).
    rewrite Hsum. lia.
Qed.

Lemma tiles_drop (cps : list (nat * nat)) :
  ∀ s len i c, tiles s len cps → cps !! i = Some c →
  tiles c.1 len (drop i cps).
Proof.
  induction cps as [|c0 cps IH]; intros s len i c Ht Hi; [done|].
  destruct Ht as (Hc & Hle & Ht). destruct i as [|i]; simpl in *.
  - injection Hi as <-. by rewrite Hc.
  - by apply (IH c0.2).
Qed.

(** The attributes [__init__] derives from changepoints that tile
    [[0,T)]: there is one block per changepoint, the block lengths sum to
    [T], and the possible durations of a segment that starts with block
    [tblock] are the distances from the start of that block to the end of
    each block from it on, cut down to those below
    [max(trunc, first + 1)]: the first one is always possible.  Past the
    last block the computation raises [IndexError]. *)
Theorem cp_possible_durations (self : states F Obs)
    (cps : list (nat * nat)) (len trunc : nat) :
  tiles 0 len cps →
  Tblock (HSMMStatesPossibleChangepoints.init_changepoints cps self)
  = length cps ∧
  sum_list (blocklens
              (HSMMStatesPossibleChangepoints.init_changepoints cps self))
  = len ∧
  (∀ tblock, length cps ≤ tblock →
     HSMMStatesPossibleChangepoints.possible_durations
       (HSMMStatesPossibleChangepoints.init_changepoints cps self)
       trunc tblock
     = raise IndexError) ∧
  (∀ tblock c, cps !! tblock = Some c →
     ∃ rest,
       HSMMStatesPossibleChangepoints.possible_durations
         (HSMMStatesPossibleChangepoints.init_changepoints cps self)
         trunc tblock
       = mret ((c.2 - c.1) :: rest) ∧
       (c.2 - c.1) :: rest
       = filter (λ d, d < trunc `max` (c.2 - c.1 + 1))
           ((λ c', c'.2 - c.1) <$> drop tblock cps)).
Proof.
  intros Ht. split; [done|]. split.
  { destruct (tiles_sum cps 0 len Ht) as [_ Hsum]. simpl. rewrite Hsum. lia. }
  split.
  - intros tblock Hge.
    unfold HSMMStatesPossibleChangepoints.possible_durations. simpl.
    rewrite drop_ge by (rewrite length_fmap; lia). done.
  - intros tblock c Hc.
    unfold HSMMStatesPossibleChangepoints.possible_durations. simpl.
    rewrite <- fmap_drop.
    pose proof (tiles_drop cps 0 len tblock c Ht Hc) as Htd.
    destruct (drop tblock cps) as [|c0 rest] eqn:Hd.
    { apply (f_equal length) in Hd. rewrite length_drop in Hd.
      apply lookup_lt_Some in Hc. simpl in Hd. lia. }
    assert (c0 = c) as ->.
    { apply (f_equal (λ l, l !! 0)) in Hd. rewrite lookup_drop in Hd.
      replace (tblock + 0) with tblock in Hd by lia.
      rewrite Hc in Hd. simpl in Hd. by injection Hd as <-. }
    destruct Htd as (_ & Hle & Htd).
    cbn [fmap list_fmap HSMMStatesPossibleChangepoints.cumsum_int getitem
         lookup list_lookup mbind result_bind mret result_ret].
    rewrite (tiles_scan c.1 rest c.2 len Htd Hle).
    rewrite !filter_cons.
    destruct (decide _) as [_|Hn]; [|lia].
    eexists. split; reflexivity.
Qed.
End BlockDurations.

Lemma cp_possible_durations_witness :
  Tblock (HSMMStatesPossibleChangepoints.init_changepoints [(0, 2); (2, 3)]
            Examples.cp_self)
  = length [(0, 2); (2, 3)] ∧
  sum_list (blocklens
              (HSMMStatesPossibleChangepoints.init_changepoints
                 [(0, 2); (2, 3)] Examples.cp_self))
  = 3 ∧
  (∀ tblock, length [(0, 2); (2, 3)] ≤ tblock →
     HSMMStatesPossibleChangepoints.possible_durations
       (HSMMStatesPossibleChangepoints.init_changepoints [(0, 2); (2, 3)]
          Examples.cp_self) 3 tblock
     = raise IndexError) ∧
  (∀ tblock c, [(0, 2); (2, 3)] !! tblock = Some c →
     ∃ rest,
       HSMMStatesPossibleChangepoints.possible_durations
         (HSMMStatesPossibleChangepoints.init_changepoints [(0, 2); (2, 3)]
            Examples.cp_self) 3 tblock
       = mret ((c.2 - c.1) :: rest) ∧
       (c.2 - c.1) :: rest
       = filter (λ d, d < 3 `max` (c.2 - c.1 + 1))
           ((λ c', c'.2 - c.1) <$> drop tblock [(0, 2); (2, 3)])).
Proof.
  apply (cp_possible_durations Examples.cp_self [(0, 2); (2, 3)] 3 3).
  simpl. repeat split; lia.
Defined.

(** ** The geometric-tail pass on an object as constructed *)

Section GeoAttributes.
Context {F : Type} `{!FloatOps F} {Obs : Type}.

(** No method of the class hierarchy sets [self.state_dim], and
    [HMMStates.__init__] sets no [transition_distn]: while either
    attribute is missing, [messages_backwards] of the geometric-tail
    class returns no messages.  It raises [AssertionError] unless
    [trunc > 1]; without [self.state_dim] it then raises
    [AttributeError] where it reads the attribute. *)
Theorem geo_messages_backwards_missing_attribute
    (σ : gmap nat (list (list F)))
    (self : HSMMStatesGeoApproximation.geo_states (F := F) (Obs := Obs))
    (Al aDl aDsl : list (list F)) (trunc : option nat) :
  HSMMStatesGeoApproximation.g_state_dim self = None ∨
  (∃ hs, HSMMStatesGeoApproximation.g_hmm_states self = Some hs ∧
         HSMMStatesGeoApproximation.hs_transition_distn hs = None) →
  (∀ r, HSMMStatesGeoApproximation.messages_backwards σ self Al aDl aDsl trunc
        ≠ mret r) ∧
  (default 0 trunc ≤ 1 →
   HSMMStatesGeoApproximation.messages_backwards σ self Al aDl aDsl trunc
   = raise AssertionError) ∧
  (∀ A, HSMMStatesGeoApproximation.g_state_dim self = None →
     1 < default 0 trunc →
     σ !! trans_distn (HSMMStatesGeoApproximation.g_model self) = Some A →
     HSMMStatesGeoApproximation.messages_backwards σ self Al aDl aDsl trunc
     = raise (AttributeError "state_dim")).
Proof.
  intros Hmiss.
  assert (Hsmall : default 0 trunc ≤ 1 →
            HSMMStatesGeoApproximation.messages_backwards σ self Al aDl aDsl
              trunc = raise AssertionError).
  { intros Hle. unfold HSMMStatesGeoApproximation.messages_backwards.
    destruct trunc as [[|[|tr]]|]; simpl in *; done || lia. }
  assert (Hbig : ∀ A, 1 < default 0 trunc →
            σ !! trans_distn (HSMMStatesGeoApproximation.g_model self)
            = Some A →
            HSMMStatesGeoApproximation.messages_backwards σ self Al aDl aDsl
              trunc
            = raise (AttributeError
                       (match HSMMStatesGeoApproximation.g_state_dim self with
                        | Some _ => "transition_distn"
                        | None => "state_dim"
                        end))).
  { intros A Hlt HA. unfold HSMMStatesGeoApproximation.messages_backwards.
    destruct trunc as [tr|]; simpl in Hlt; [|lia].
    cbn [mbind result_bind mret result_ret].
    assert ((0 <? tr) = true) as -> by (apply Nat.ltb_lt; lia).
    assert ((1 <? tr) = true) as -> by (apply Nat.ltb_lt; lia).
    cbn [py_assert mbind result_bind mret result_ret].
    assert (HgA : HSMMStatesGeoApproximation.get_A σ
                    (HSMMStatesGeoApproximation.g_model self) = mret A).
    { unfold HSMMStatesGeoApproximation.get_A. by rewrite HA. }
    rewrite HgA. cbn [mbind result_bind mret result_ret].
    destruct Hmiss as [Hsd|(hs & Hhs & Htd)].
    - by rewrite Hsd.
    - destruct (HSMMStatesGeoApproximation.g_state_dim self); [|done].
      cbn [mbind result_bind mret result_ret]. rewrite Hhs.
      cbn [mbind result_bind mret result_ret]. by rewrite Htd. }
  split; [|split; [done|]].
  2:{ intros A Hsd Hlt HA. rewrite (Hbig A) by done. by rewrite Hsd. }
  intros r Hr.
  destruct (decide (default 0 trunc ≤ 1)) as [Hle|Hgt].
  { rewrite Hsmall in Hr by done. done. }
  destruct (σ !! trans_distn (HSMMStatesGeoApproximation.g_model self))
    as [A|] eqn:HA.
  { rewrite (Hbig A) in Hr by (done || lia). done. }
  unfold HSMMStatesGeoApproximation.messages_backwards in Hr.
  destruct trunc as [tr|]; [|done]. simpl in Hgt.
  cbn [mbind result_bind mret result_ret] in Hr.
  assert ((0 <? tr) = true) as Hr0 by (apply Nat.ltb_lt; lia).
  assert ((1 <? tr) = true) as Hr1 by (apply Nat.ltb_lt; lia).
  rewrite Hr0, Hr1 in Hr.
  cbn [py_assert mbind result_bind mret result_ret] in Hr.
  assert (HgA : HSMMStatesGeoApproximation.get_A σ
                  (HSMMStatesGeoApproximation.g_model self)
                = raise (AttributeError "A")).
  { unfold HSMMStatesGeoApproximation.get_A. by rewrite HA. }
  rewrite HgA in Hr. done.
Qed.
End GeoAttributes.

Lemma geo_messages_backwards_missing_attribute_witness :
  (∀ r, HSMMStatesGeoApproximation.messages_backwards Examples.geo_store
          Examples.geo_fresh Examples.geo_Al Examples.geo_aDl
          Examples.geo_aDsl (Some 2) ≠ mret r) ∧
  (default 0 (Some 2) ≤ 1 →
   HSMMStatesGeoApproximation.messages_backwards Examples.geo_store
     Examples.geo_fresh Examples.geo_Al Examples.geo_aDl Examples.geo_aDsl
     (Some 2)
   = raise AssertionError) ∧
  (∀ A, HSMMStatesGeoApproximation.g_state_dim Examples.geo_fresh = None →
     1 < default 0 (Some 2) →
     Examples.geo_store
       !! trans_distn (HSMMStatesGeoApproximation.g_model Examples.geo_fresh)
     = Some A →
     HSMMStatesGeoApproximation.messages_backwards Examples.geo_store
       Examples.geo_fresh Examples.geo_Al Examples.geo_aDl Examples.geo_aDsl
       (Some 2)
     = raise (AttributeError "state_dim")).
Proof.
  apply (geo_messages_backwards_missing_attribute Examples.geo_store
           Examples.geo_fresh Examples.geo_Al Examples.geo_aDl
           Examples.geo_aDsl (Some 2)).
  left. reflexivity.
Defined.

(** ** Truncation horizons beyond the data *)

Section TruncBeyond.
Context {F : Type} `{!FloatOps F} {Obs : Type}.

Lemma down_loopM_ext_inv {S : Type} (P : S → Prop)
    (body body' : nat → S → result S) (n : nat) (s : S) :
  P s →
  (∀ t s, t < n → P s → body t s = body' t s) →
  (∀ t s s', t < n → P s → body' t s = mret s' → P s') →
  down_loopM n body s = down_loopM n body' s.
Proof.
  revert s. induction n as [|n IH]; intros s Hs Hext Hpres; simpl; [done|].
  rewrite Hext by (done || lia).
  destruct (body' n s) as [e|s'] eqn:Hb; simpl; [done|].
  apply IH.
  - apply (Hpres n s); [lia|done|done].
  - intros t s'' Ht. apply Hext. lia.
  - intros t s1 s2 Ht. apply Hpres. lia.
Qed.

Lemma hsmm_backwards_step_length (self : states F Obs)
    (Al aDl aDsl : list (list F)) (len tr K t : nat)
    (s s' : list (list F) * list (list F)) :
  HSMMStatesPython.backwards_step self Al aDl aDsl len tr K t s = mret s' →
  length s'.1 = length s.1.
Proof.
  destruct s as [betal betastarl]. unfold HSMMStatesPython.backwards_step.
  intros Hrun.
  apply bind_inv in Hrun as (cl & _ & Hrun).
  apply bind_inv in Hrun as (bs & _ & Hrun).
  cbn [mret result_ret] in Hrun. injection Hrun as <-. simpl.
  by rewrite length_insert.
Qed.

Lemma slice_beyond {A : Type} (l : list A) (t n : nat) :
  length l ≤ t + n → slice l t (t + n) = drop t l.
Proof.
  intros Hn. unfold slice. apply take_ge. rewrite length_drop. lia.
Qed.

Lemma hsmm_backwards_step_beyond (self : states F Obs)
    (Al aDl aDsl : list (list F)) (K tr tr' t : nat)
    (s : list (list F) * list (list F)) :
  length aDl ≤ tr → length aDl ≤ tr' →
  censoring self = false ∨ (length aDl < tr ↔ length aDl < tr') →
  (∀ aBl0, aBl self = Some (Some aBl0) → length aBl0 ≤ length aDl) →
  t < length aDl → length s.1 = length aDl →
  HSMMStatesPython.backwards_step self Al aDl aDsl (length aDl) tr K t s
  = HSMMStatesPython.backwards_step self Al aDl aDsl (length aDl) tr' K t s.
Proof.
  intros Htr Htr' Hc HaBl Ht Hlen. destruct s as [betal betastarl].
  simpl in Hlen. unfold HSMMStatesPython.backwards_step.
  rewrite !slice_beyond by lia.
  replace (tr `min` (length aDl - t)) with (length aDl - t) by lia.
  replace (tr' `min` (length aDl - t)) with (length aDl - t) by lia.
  assert (HSMMStatesPython.cumulative_likelihoods self t (t + tr)
          = HSMMStatesPython.cumulative_likelihoods self t (t + tr')) as ->.
  { unfold HSMMStatesPython.cumulative_likelihoods, get_self_aBl.
    destruct (aBl self) as [[aBl0|]|] eqn:Hself; [|done|done].
    cbn [mbind result_bind mret result_ret].
    specialize (HaBl aBl0 eq_refl). by rewrite !slice_beyond by lia. }
  assert (((length aDl - t <? tr) && censoring self)
          = ((length aDl - t <? tr') && censoring self)) as ->; [|done].
  destruct Hc as [->|Hiff]; [by rewrite !andb_false_r|].
  f_equal.
  destruct (Nat.ltb_spec (length aDl - t) tr),
    (Nat.ltb_spec (length aDl - t) tr'); try done; lia.
Qed.

Lemma hsmm_messages_backwards_beyond (self : states F Obs)
    (Al aDl aDsl : list (list F)) (tr tr' : nat) :
  length aDl ≤ tr → length aDl ≤ tr' →
  censoring self = false ∨ (length aDl < tr ↔ length aDl < tr') →
  (∀ aBl0, aBl self = Some (Some aBl0) → length aBl0 ≤ length aDl) →
  HSMMStatesPython.messages_backwards self Al aDl aDsl (Some tr)
  = HSMMStatesPython.messages_backwards self Al aDl aDsl (Some tr').
Proof.
  intros Htr Htr' Hc HaBl. unfold HSMMStatesPython.messages_backwards.
  cbn [default].
  rewrite (down_loopM_ext_inv (λ s, length s.1 = length aDl) _
             (HSMMStatesPython.backwards_step self Al aDl aDsl (length aDl)
                tr' (length Al))); [done|..].
  - simpl. by destruct (zeros2_shape (F := F) (length aDl) (length Al)).
  - intros t s Ht Hs. by apply hsmm_backwards_step_beyond.
  - intros t s s' Ht Hs Hrun.
    apply hsmm_backwards_step_length in Hrun. by rewrite Hrun.
Qed.

(** A truncation horizon beyond the length of the data changes nothing:
    for every [trunc >= T], [HSMMStatesPython.messages_backwards] returns
    what it returns for [trunc = None] (which stands for [T]) when
    censoring is off, and what it returns for any other horizon above [T]
    when censoring is on.  (The censored term of row 0 is added for
    [trunc > T] and not for [trunc = T].) *)
Theorem hsmm_trunc_beyond_data (self : states F Obs)
    (Al aDl aDsl : list (list F)) (tr : nat) :
  length aDl ≤ tr →
  (∀ aBl0, aBl self = Some (Some aBl0) → length aBl0 ≤ length aDl) →
  (censoring self = false →
   HSMMStatesPython.messages_backwards self Al aDl aDsl (Some tr)
   = HSMMStatesPython.messages_backwards self Al aDl aDsl None) ∧
  (∀ tr', length aDl < tr → length aDl < tr' →
     HSMMStatesPython.messages_backwards self Al aDl aDsl (Some tr)
     = HSMMStatesPython.messages_backwards self Al aDl aDsl (Some tr')).
Proof.
  intros Htr HaBl. split.
  - intros Hc.
    change (HSMMStatesPython.messages_backwards self Al aDl aDsl None)
      with (HSMMStatesPython.messages_backwards self Al aDl aDsl
              (Some (length aDl))).
    apply hsmm_messages_backwards_beyond; (done || lia || by left).
  - intros tr' Hlt Hlt'.
    apply hsmm_messages_backwards_beyond; try (done || lia).
    all: right; done.
Qed.
End TruncBeyond.

Lemma hsmm_trunc_beyond_data_witness :
  (censoring Examples.cens_cached = false →
   HSMMStatesPython.messages_backwards Examples.cens_cached Examples.hsmm_Al
     Examples.hsmm_aDl Examples.hsmm_aDsl (Some 5)
   = HSMMStatesPython.messages_backwards Examples.cens_cached Examples.hsmm_Al
       Examples.hsmm_aDl Examples.hsmm_aDsl None) ∧
  (∀ tr', length Examples.hsmm_aDl < 5 → length Examples.hsmm_aDl < tr' →
     HSMMStatesPython.messages_backwards Examples.cens_cached Examples.hsmm_Al
       Examples.hsmm_aDl Examples.hsmm_aDsl (Some 5)
     = HSMMStatesPython.messages_backwards Examples.cens_cached
         Examples.hsmm_Al Examples.hsmm_aDl Examples.hsmm_aDsl (Some tr')).
Proof.
  apply (hsmm_trunc_beyond_data Examples.cens_cached Examples.hsmm_Al
           Examples.hsmm_aDl Examples.hsmm_aDsl 5).
  - simpl. lia.
  - intros aBl0 Heq. injection Heq as <-. simpl. lia.
Defined.

(** With censoring on, the horizon [T] itself and a horizon above it
    differ in row 0 of [betastarl]. *)
Lemma hsmm_trunc_at_T_example :
  HSMMStatesPython.messages_backwards Examples.cens_cached Examples.hsmm_Al
    Examples.hsmm_aDl Examples.hsmm_aDsl None
  = mret ([[ExactReal.Lin 0; ExactReal.Lin 0];
           [ExactReal.Lin 0; ExactReal.Lin 0]],
          [[ExactReal.Lin 0; ExactReal.Log (1 # 2)];
           [ExactReal.Lin 0; ExactReal.Lin 0]]) ∧
  HSMMStatesPython.messages_backwards Examples.cens_cached Examples.hsmm_Al
    Examples.hsmm_aDl Examples.hsmm_aDsl (Some 3)
  = mret ([[ExactReal.Lin 0; ExactReal.Lin 0];
           [ExactReal.Lin 0; ExactReal.Lin 0]],
          [[ExactReal.Lin 0; ExactReal.Lin 0];
           [ExactReal.Lin 0; ExactReal.Lin 0]]).
Proof. split; vm_compute; reflexivity. Qed.

(** ** Forward and backward tables together *)

Section StateSumFacts.
Context {F : Type} `{!FloatOps F}.
Variable logaddexp_assoc : ∀ x y z : F,
  logaddexp (logaddexp x y) z = logaddexp x (logaddexp y z).
Variable logaddexp_comm : ∀ x y : F, logaddexp x y = logaddexp y x.
Variable fadd_logaddexp_distr : ∀ x y z : F,
  fadd (logaddexp x y) z = logaddexp (fadd x z) (fadd y z).
Variable fadd_comm : ∀ x y : F, fadd x y = fadd y x.

Lemma fmap_seq_nonempty (K : nat) (f : nat → F) :
  0 < K → f <$> seq 0 K ≠ [].
Proof. destruct K; [lia|done]. Qed.

Lemma lse_ext (K : nat) (f f' : nat → F) :
  (∀ i, i < K → f i = f' i) → lse K f = lse K f'.
Proof.
  intros Hf. unfold lse. f_equal. apply list_fmap_ext.
  intros i j Hj. apply lookup_seq in Hj as [-> Hj]. by apply Hf.
Qed.

Lemma lse_one (f : nat → F) : lse 1 f = f 0.
Proof. done. Qed.

Lemma lse_S (K : nat) (f : nat → F) :
  0 < K → lse (S K) f = logaddexp (lse K f) (f K).
Proof.
  intros HK. unfold lse. rewrite seq_S, fmap_app.
  rewrite (logsumexp_app logaddexp_assoc).
  - done.
  - by apply fmap_seq_nonempty.
  - done.
Qed.

Lemma lse_logaddexp (K : nat) (u v : nat → F) :
  0 < K →
  lse K (λ i, logaddexp (u i) (v i)) = logaddexp (lse K u) (lse K v).
Proof.
  intros HK. destruct K as [|K]; [lia|]. clear HK.
  induction K as [|K IH]; [done|].
  rewrite !(lse_S (S K)) by lia. rewrite IH.
  rewrite !logaddexp_assoc. f_equal.
  rewrite <- !logaddexp_assoc. f_equal. apply logaddexp_comm.
Qed.

Lemma lse_exchange (K M : nat) (f : nat → nat → F) :
  0 < K → 0 < M →
  lse K (λ j, lse M (λ k, f j k)) = lse M (λ k, lse K (λ j, f j k)).
Proof.
  intros HK HM. destruct K as [|K]; [lia|]. clear HK.
  induction K as [|K IH].
  - rewrite lse_one. apply lse_ext. intros k _. by rewrite lse_one.
  - rewrite (lse_S (S K)) by lia. rewrite IH.
    rewrite <- lse_logaddexp by done.
    apply lse_ext. intros k _. by rewrite (lse_S (S K)) by lia.
Qed.

Lemma lse_fadd_r (K : nat) (f : nat → F) (z : F) :
  0 < K → fadd (lse K f) z = lse K (λ i, fadd (f i) z).
Proof.
  intros HK. unfold lse.
  rewrite (logsumexp_fadd logaddexp_assoc fadd_logaddexp_distr).
  - by rewrite <- list_fmap_compose.
  - by apply fmap_seq_nonempty.
Qed.

Lemma lse_fadd_l (K : nat) (f : nat → F) (z : F) :
  0 < K → fadd z (lse K f) = lse K (λ i, fadd z (f i)).
Proof.
  intros HK. rewrite fadd_comm, lse_fadd_r by done.
  apply lse_ext. intros i _. apply fadd_comm.
Qed.

Lemma logsumexp_vadd_lse (K : nat) (v r : list F) :
  length v = K → length r = K →
  logsumexp (vadd v r) = lse K (λ j, fadd (at_ v j) (at_ r j)).
Proof. intros Hv Hr. unfold lse. by rewrite (vadd_as_map K). Qed.
End StateSumFacts.

Section ForwardBackward.
Context {F : Type} `{!FloatOps F} {Obs : Type}.

Lemma at_zeros (K k : nat) : at_ (zeros (F := F) K) k = fzero.
Proof.
  unfold at_, zeros. destruct (decide (k < K)).
  - by rewrite lookup_replicate_2.
  - by rewrite lookup_ge_None_2 by (rewrite length_replicate; lia).
Qed.

Lemma mlog_shape (K : nat) (A : list (list F)) :
  has_shape K K A = true →
  length (mlog A) = K ∧ Forall (λ v, length v = K) (mlog A).
Proof.
  intros HA. apply has_shape_spec in HA as [HL HF]. unfold mlog, vlog.
  split; [by rewrite length_fmap|].
  apply Forall_fmap. eapply Forall_impl; [exact HF|].
  intros v Hv. simpl. by rewrite length_fmap.
Qed.

(** [logsumexp_k(alphal[t,k] + betal[t,k])] does not depend on [t]: for
    tables of [T >= 1] rows and [K >= 1] columns it is
    [logsumexp(alphal[T-1])], the log marginal likelihood, at every [t],
    where [logaddexp] and [+] are associative and commutative, [+]
    distributes over [logaddexp] and [x + 0 = x]. *)
Theorem hmm_forward_backward_constant (self : states F Obs)
    (aBl : list (list F)) (K : nat) :
  (∀ x y z : F, logaddexp (logaddexp x y) z = logaddexp x (logaddexp y z)) →
  (∀ x y : F, logaddexp x y = logaddexp y x) →
  (∀ x y z : F, fadd (logaddexp x y) z = logaddexp (fadd x z) (fadd y z)) →
  (∀ x y z : F, fadd (fadd x y) z = fadd x (fadd y z)) →
  (∀ x y : F, fadd x y = fadd y x) →
  (∀ x : F, fadd x fzero = x) →
  state_dim (model self) = K →
  length (pi_0 (model self)) = K →
  has_shape K K (trans_distn (model self)) = true →
  has_shape (length aBl) K aBl = true →
  0 < length aBl → 0 < K →
  ∃ alphal,
    HMMStatesPython.messages_forwards self aBl = mret alphal ∧
    ∀ t, t < length aBl →
      logsumexp (vadd (row alphal t)
                      (row (HMMStatesPython.messages_backwards self aBl) t))
      = logsumexp (row alphal (length aBl - 1)).
Proof.
  intros Hassoc Hcomm Hdistr Hfassoc Hfcomm Hzero Hsd Hpi HA HaBl HT HK.
  destruct (hmm_messages_forwards_spec self aBl K)
    as (alphal & Hrun & Hshape & _ & Hfw); try done.
  exists alphal. split; [done|].
  set (Al := mlog (trans_distn (model self))) in *.
  destruct (mlog_shape K _ HA) as [HAlL HAlF]. fold Al in HAlL, HAlF.
  assert (length (trans_distn (model self)) = K) as HAL
    by (by apply has_shape_spec in HA as [? _]).
  destruct (hmm_messages_backwards_spec self aBl K HaBl HAL HT)
    as (Hbshape & Hblast & Hbw).
  fold Al in Hbw.
  set (betal := HMMStatesPython.messages_backwards self aBl) in *.
  apply has_shape_spec in Hshape as [HaL HaF].
  apply has_shape_spec in Hbshape as [HbL HbF].
  apply has_shape_spec in HaBl as [_ HBF].
  set (len := length aBl) in *.
  pose (Z := λ t, lse K (λ j, fadd (at2 alphal t j) (at2 betal t j))).
  assert (HZ : ∀ t, t < len →
            logsumexp (vadd (row alphal t) (row betal t)) = Z t).
  { intros t Ht. unfold Z.
    rewrite (logsumexp_vadd_lse K); [done| |]; apply row_length; (done || lia). }
  assert (Hstep : ∀ t, S t < len → Z t = Z (S t)).
  { intros t Ht. unfold Z.
    transitivity
      (lse K (λ k, lse K (λ j,
         fadd (fadd (fadd (at2 alphal t j) (at2 Al j k)) (at2 aBl (S t) k))
              (at2 betal (S t) k)))).
    - rewrite <- (lse_exchange Hassoc Hcomm) by done.
      apply lse_ext. intros j Hj. rewrite Hbw by done.
      rewrite (logsumexp_vadd_lse K).
      2:{ unfold vadd. rewrite length_zip_with.
          rewrite !(row_length K); (done || lia). }
      2:{ apply row_length; (done || lia). }
      rewrite (lse_fadd_l Hassoc Hdistr Hfcomm) by done.
      apply lse_ext. intros k Hk. unfold vadd.
      rewrite at_zip_with by (rewrite !(row_length K); (done || lia)).
      fold (at2 Al j k). fold (at2 betal (S t) k). fold (at2 aBl (S t) k).
      rewrite <- !Hfassoc. rewrite (Hfassoc (fadd _ _) (at2 betal (S t) k)).
      rewrite (Hfcomm (at2 betal (S t) k)). by rewrite <- !Hfassoc.
    - apply lse_ext. intros k Hk. rewrite Hfw by done.
      unfold forward_mix. rewrite (logsumexp_vadd_lse K).
      2:{ apply row_length; (done || lia). }
      2:{ by rewrite column_length. }
      rewrite !(lse_fadd_r Hassoc Hdistr) by done.
      apply lse_ext. intros j Hj.
      unfold at_ at 2. rewrite column_lookup by lia. done. }
  assert (Hconst : ∀ d t, t + d = len - 1 → Z t = Z (len - 1)).
  { induction d as [|d IH]; intros t Ht.
    - by replace t with (len - 1) by lia.
    - rewrite Hstep by lia. apply IH. lia. }
  intros t Ht. rewrite HZ by done.
  rewrite (Hconst (len - 1 - t) t) by lia. unfold Z.
  rewrite (row_as_map K alphal (len - 1)) by (apply row_length; (done || lia)).
  unfold lse. f_equal. apply list_fmap_ext. intros i j Hj.
  apply lookup_seq in Hj as [-> Hj]. simpl.
  unfold at2 at 2. rewrite Hblast. rewrite at_zeros. apply Hzero.
Qed.
End ForwardBackward.

Lemma hmm_forward_backward_constant_witness :
  ∃ alphal,
    HMMStatesPython.messages_forwards Examples.hmm_self Examples.hmm_aBl
    = mret alphal ∧
    ∀ t, t < length Examples.hmm_aBl →
      logsumexp
        (vadd (row alphal t)
              (row (HMMStatesPython.messages_backwards Examples.hmm_self
                      Examples.hmm_aBl) t))
      = logsumexp (row alphal (length Examples.hmm_aBl - 1)).
Proof.
  apply (hmm_forward_backward_constant Examples.hmm_self Examples.hmm_aBl 2).
  - intros x y z. symmetry. apply Qcplus_assoc.
  - intros x y. apply Qcplus_comm.
  - intros x y z. apply Qcmult_plus_distr_l.
  - intros x y z. symmetry. apply Qcmult_assoc.
  - intros x y. apply Qcmult_comm.
  - intros x. apply Qcmult_1_r.
  - reflexivity.
  - reflexivity.
  - reflexivity.
  - reflexivity.
  - simpl. lia.
  - lia.
Defined.

(** ** Generating state sequences from the prior *)

Section HSMMGenerate.
Context {F : Type} `{!FloatOps F} {Obs : Type}.
Variable rvs : DurDistn F → rng F → nat * rng F.

Lemma drawn_segments_snoc (m : Model F Obs) (sts ds : list nat) :
  ∀ nd g nd1 g1 s d g2 dd row,
  drawn_segments rvs m nd g sts ds nd1 g1 →
  sample_discrete nd1 g1 = mret (s, g2) →
  dur_distns m !! s = Some dd → (rvs dd g2).1 = d →
  trans_distn m !! s = Some row →
  drawn_segments rvs m nd g (sts ++ [s]) (ds ++ [d]) row (rvs dd g2).2.
Proof.
  revert ds. induction sts as [|s0 sts IH]; intros [|d0 ds];
    intros nd g nd1 g1 s d g2 dd row Hseg Hs Hdd Hd Hrow; try done.
  - destruct Hseg as [-> ->]. simpl. by exists g2, dd, row.
  - destruct Hseg as (g3 & dd0 & row0 & Hs0 & Hdd0 & Hd0 & Hrow0 & Hseg).
    simpl. exists g3, dd0, row0. repeat split; try done.
    by apply (IH ds _ _ nd1 g1 s d g2 dd row).
Qed.

Lemma generate_loop_inv (self : states F Obs) (nd0 : list F) (g0 : rng F)
    (fuel : nat) :
  ∀ idx ss ds sts nu g ss' ds' g',
  HSMMStatesPython.generate_loop rvs self fuel idx ss ds nu g
  = mret (ss', ds', g') →
  length ss = T self → length sts = length ds → sum_list ds = idx →
  take idx ss = take (T self) (expand sts ds) →
  (∀ ds0 d, ds = ds0 ++ [d] → sum_list ds0 < T self) →
  drawn_segments rvs (model self) nd0 g0 sts ds nu g →
  ∃ sts' nu', length sts' = length ds' ∧ T self ≤ sum_list ds' ∧
          ss' = take (T self) (expand sts' ds') ∧
          (∀ ds0 d, ds' = ds0 ++ [d] → sum_list ds0 < T self) ∧
          drawn_segments rvs (model self) nd0 g0 sts' ds' nu' g'.
Proof.
  assert (Hexit : ∀ idx ss ds sts nu (g : rng F) ss' ds' g',
    (idx <? T self) = false →
    @mret result _ _ (ss, ds, g) = mret (ss', ds', g') →
    length ss = T self → length sts = length ds → sum_list ds = idx →
    take idx ss = take (T self) (expand sts ds) →
    (∀ ds0 d, ds = ds0 ++ [d] → sum_list ds0 < T self) →
    drawn_segments rvs (model self) nd0 g0 sts ds nu g →
    ∃ sts' nu', length sts' = length ds' ∧ T self ≤ sum_list ds' ∧
            ss' = take (T self) (expand sts' ds') ∧
            (∀ ds0 d, ds' = ds0 ++ [d] → sum_list ds0 < T self) ∧
            drawn_segments rvs (model self) nd0 g0 sts' ds' nu' g').
  { intros idx ss ds sts nu g ss' ds' g' Hlt Hrun Hss Hlen Hsum Hexp Hprev
      Hseg.
    apply Nat.ltb_ge in Hlt.
    cbn [mret result_ret] in Hrun. injection Hrun as <- <- <-.
    exists sts, nu. split; [done|]. split; [lia|]. split; [|done].
    rewrite <- Hexp. by rewrite take_ge by lia. }
  induction fuel as [|fuel IH];
    intros idx ss ds sts nu g ss' ds' g' Hrun Hss Hlen Hsum Hexp Hprev Hseg.
  - cbn [HSMMStatesPython.generate_loop] in Hrun.
    destruct (idx <? T self) eqn:Hlt; [done|]. by eapply Hexit.
  - cbn [HSMMStatesPython.generate_loop] in Hrun.
    destruct (idx <? T self) eqn:Hlt; [|by eapply Hexit].
    apply Nat.ltb_lt in Hlt.
    apply bind_inv in Hrun as ([state g1] & Hstate & Hrun).
    apply bind_inv in Hrun as (dd & Hdd & Hrun).
    destruct (rvs dd g1) as [duration g2] eqn:Hrvs.
    apply bind_inv in Hrun as (nu' & Hnu & Hrun).
    unfold getitem in Hdd, Hnu.
    destruct (dur_distns (model self) !! state) as [dd'|] eqn:Hdd'; [|done].
    destruct (trans_distn (model self) !! state) as [row'|] eqn:Hrow';
      [|done].
    cbn [mret result_ret] in Hdd, Hnu.
    injection Hdd as ->. injection Hnu as ->.
    apply (IH _ _ _ (sts ++ [state])) in Hrun; [done|..].
    + rewrite fill_length; [done|lia].
    + rewrite !length_app. simpl. lia.
    + rewrite sum_list_snoc. lia.
    + rewrite expand_snoc by done.
      apply fill_take; [done|lia| |].
      * by rewrite expand_length.
      * rewrite Hexp. apply take_ge. rewrite expand_length by done. lia.
    + intros ds0 d Heq. apply app_inj_tail in Heq as [<- _]. lia.
    + replace g2 with (rvs dd g1).2 by (by rewrite Hrvs).
      apply (drawn_segments_snoc _ _ _ _ _ nu g state duration g1 dd);
        try done.
      by rewrite Hrvs.
Qed.

Lemma generate_loop_in_fuel (self : states F Obs) (fuel : nat) :
  (∀ d g0, 0 < (rvs d g0).1) →
  ∀ idx ss ds nu g,
  T self ≤ idx + fuel →
  in_fuel (HSMMStatesPython.generate_loop rvs self fuel idx ss ds nu g).
Proof.
  intros Hpos.
  induction fuel as [|fuel IH]; intros idx ss ds nu g Hfuel;
    cbn [HSMMStatesPython.generate_loop];
    destruct (idx <? T self) eqn:Hlt; try done.
  { apply Nat.ltb_lt in Hlt. lia. }
  apply in_fuel_bind; [apply in_fuel_sample_discrete|]. intros [state g1] _.
  apply in_fuel_bind; [apply in_fuel_getitem|]. intros dd _.
  pose proof (Hpos dd g1) as Hd. destruct (rvs dd g1) as [duration g2].
  simpl in Hd.
  apply in_fuel_bind; [apply in_fuel_getitem|]. intros nu' _.
  apply IH. lia.
Qed.

(** [HSMMStatesPython.generate_states]: when every duration drawn is at
    least 1 the loop ends within [T] passes.  When it returns, the states
    and durations of the segments are the successive draws: each state
    the draw of [sample_discrete] from [pi_0] or from the row of [A] of
    the state before, each duration the draw [rvs()] of the duration
    distribution of its state, on the generator threaded through.  The
    durations stored are the ones drawn; they sum to at least [T], and
    only the last segment can run off the end.  The state sequence is the
    states drawn, each repeated for its duration, cut at [T]: it has [T]
    entries whatever [np.empty] held.  [stateseq_norep] is the run-length
    encoding of the state sequence, not the list of the states drawn. *)
Theorem hsmm_generate_states_durations (fuel : nat) (np_empty : nat → list nat)
    (self : states F Obs) (g : rng F) :
  length (np_empty (T self)) = T self →
  ((∀ d g0, 0 < (rvs d g0).1) → T self ≤ fuel →
   in_fuel (HSMMStatesPython.generate_states rvs fuel np_empty self g)) ∧
  (∀ self' g',
     HSMMStatesPython.generate_states rvs fuel np_empty self g
     = mret (self', g') →
     length (stateseq self') = T self ∧
     T self ≤ sum_list (durations self') ∧
     (∀ ds0 d, durations self' = ds0 ++ [d] → sum_list ds0 < T self) ∧
     stateseq_norep self' = (rle (stateseq self')).1 ∧
     self' = set_durations (durations self')
               (set_stateseq_norep (stateseq_norep self')
                  (set_stateseq (stateseq self') self)) ∧
     ∃ drawn nd',
       drawn_segments rvs (model self) (pi_0 (model self)) g
         drawn (durations self') nd' g' ∧
       length drawn = length (durations self') ∧
       stateseq self' = take (T self) (expand drawn (durations self'))).
Proof.
  intros Hlen. split.
  - intros Hpos Hfuel. unfold HSMMStatesPython.generate_states.
    apply in_fuel_bind; [apply generate_loop_in_fuel; (done || lia)|].
    by intros [[ss ds] g1] _.
  - intros self' g' Hrun. unfold HSMMStatesPython.generate_states in Hrun.
    apply bind_inv in Hrun as ([[ss ds] g1] & Hloop & Hrun).
    cbn [mret result_ret] in Hrun. injection Hrun as <- <-. simpl.
    apply (generate_loop_inv _ (pi_0 (model self)) g _ _ _ _ []) in Hloop
      as (sts & nd' & Hl & Hsum & Hexp & Hprev & Hseg); try done.
    + split.
      { rewrite Hexp, length_take, expand_length by done. lia. }
      split; [done|]. split; [done|]. split; [done|]. split; [done|].
      by exists sts, nd'.
    + unfold expand. simpl. by rewrite take_0, take_nil.
    + intros [|??] ? ?; done.
Qed.
End HSMMGenerate.

Lemma hsmm_generate_states_durations_witness :
  ((∀ d g0, 0 < (Examples.one_or_two d g0).1) → T Examples.ov_self ≤ 2 →
   in_fuel (HSMMStatesPython.generate_states Examples.one_or_two 2
              Examples.sevens Examples.ov_self Examples.five_draws)) ∧
  (∀ self' g',
     HSMMStatesPython.generate_states Examples.one_or_two 2 Examples.sevens
       Examples.ov_self Examples.five_draws
     = mret (self', g') →
     length (stateseq self') = T Examples.ov_self ∧
     T Examples.ov_self ≤ sum_list (durations self') ∧
     (∀ ds0 d, durations self' = ds0 ++ [d] →
        sum_list ds0 < T Examples.ov_self) ∧
     stateseq_norep self' = (rle (stateseq self')).1 ∧
     self' = set_durations (durations self')
               (set_stateseq_norep (stateseq_norep self')
                  (set_stateseq (stateseq self') Examples.ov_self)) ∧
     ∃ drawn nd',
       drawn_segments Examples.one_or_two (model Examples.ov_self)
         (pi_0 (model Examples.ov_self)) Examples.five_draws
         drawn (durations self') nd' g' ∧
       length drawn = length (durations self') ∧
       stateseq self'
       = take (T Examples.ov_self) (expand drawn (durations self'))).
Proof.
  apply (hsmm_generate_states_durations Examples.one_or_two 2 Examples.sevens
           Examples.ov_self Examples.five_draws).
  reflexivity.
Defined.

(** A run on two time steps with the draws 1/2, 1/4, 1/2, 3/4: state 0
    for the duration 1, then state 1 for the duration 2, which runs one
    step past the end. *)
Lemma hsmm_generate_states_example :
  match HSMMStatesPython.generate_states Examples.one_or_two 2
          Examples.sevens Examples.ov_self Examples.five_draws with
  | inr (s, g) => Some (stateseq s, stateseq_norep s, durations s, pos g)
  | inl _ => None
  end
  = Some ([0; 1], [0; 1], [1; 2], 4) ∧
  drawn_segments Examples.one_or_two Examples.ov_model
    (pi_0 Examples.ov_model) Examples.five_draws [0; 1] [1; 2]
    [ExactReal.Lin 1; ExactReal.Lin 0]
    {| draws := draws Examples.five_draws; pos := 4 |}.
Proof.
  split; [vm_compute; reflexivity|].
  simpl. eexists _, _, _. split; [vm_compute; reflexivity|].
  split; [reflexivity|]. split; [vm_compute; reflexivity|].
  split; [reflexivity|].
  eexists _, _, _. split; [vm_compute; reflexivity|].
  split; [reflexivity|]. split; [vm_compute; reflexivity|].
  split; [reflexivity|]. split; reflexivity.
Qed.

(** ** Constructors *)

Section Constructors.
Context {F : Type} `{!FloatOps F} {Obs : Type}.
Variable rvs : DurDistn F → rng F → nat * rng F.

Lemma generate_loop_length (self : states F Obs) (fuel : nat) :
  ∀ idx ss ds nu g ss' ds' g',
  HSMMStatesPython.generate_loop rvs self fuel idx ss ds nu g
  = mret (ss', ds', g') →
  length ss' = length ss.
Proof.
  induction fuel as [|fuel IH]; intros idx ss ds nu g ss' ds' g' Hrun;
    cbn [HSMMStatesPython.generate_loop] in Hrun;
    destruct (idx <? T self); try done;
    try (cbn [mret result_ret] in Hrun; by injection Hrun as <- <- <-).
  apply bind_inv in Hrun as ([state g1] & _ & Hrun).
  apply bind_inv in Hrun as (dd & _ & Hrun).
  destruct (rvs dd g1) as [duration g2].
  apply bind_inv in Hrun as (nu' & _ & Hrun).
  apply IH in Hrun. rewrite Hrun. apply fill_length. lia.
Qed.

Lemma hsmm_generate_states_frame (fuel : nat) (np_empty : nat → list nat)
    (self self' : states F Obs) (g g' : rng F) :
  HSMMStatesPython.generate_states rvs fuel np_empty self g
  = mret (self', g') →
  length (stateseq self') = length (np_empty (T self)) ∧
  self' = set_durations (durations self')
            (set_stateseq_norep (stateseq_norep self')
               (set_stateseq (stateseq self') self)).
Proof.
  intros Hrun. unfold HSMMStatesPython.generate_states in Hrun.
  apply bind_inv in Hrun as ([[ss ds] g1] & Hloop & Hrun).
  cbn [mret result_ret] in Hrun. injection Hrun as <- <-. simpl.
  split; [|done]. by apply generate_loop_length in Hloop.
Qed.

Lemma set_rle_spec (self : states F Obs) :
  (stateseq_norep (HSMMStatesPython.set_rle self),
   durations (HSMMStatesPython.set_rle self))
  = rle (stateseq self) ∧
  HSMMStatesPython.set_rle self
  = set_durations (durations (HSMMStatesPython.set_rle self))
      (set_stateseq_norep (stateseq_norep (HSMMStatesPython.set_rle self))
         self).
Proof. unfold HSMMStatesPython.set_rle. by destruct (rle (stateseq self)). Qed.

Lemma hmm_init_inv (icls : HMMStatesPython.init_methods (F := F) (Obs := Obs))
    (self0 self' : states F Obs) (m : Model F Obs)
    (len : option nat) (dat : option (list Obs)) (ss : option (list nat))
    (ifp : bool) (g g' : rng F) :
  HMMStatesPython.init icls self0 m len dat ss ifp g = mret (self', g') →
  let self1 := HMMStatesPython.set_model_T_data m
                 (match dat with
                  | Some d => length d
                  | None => default 0 len
                  end) dat self0 in
  ((dat = None ∧ len ≠ None) ∨ (dat ≠ None ∧ len = None)) ∧
  match ss with
  | Some ss => self' = set_stateseq ss self1 ∧ g' = g
  | None =>
      if (if dat is Some _ then true else false) && negb ifp
      then HMMStatesPython.i_resample icls self1 g = mret (self', g')
      else HMMStatesPython.i_generate_states icls self1 g = mret (self', g')
  end.
Proof.
  unfold HMMStatesPython.init. intros Hrun.
  apply bind_inv in Hrun as ([] & Hx & Hrun). apply py_assert_inv in Hx.
  split.
  { destruct dat, len; simpl in Hx; try done; [right|left]; done. }
  destruct ss as [ss|].
  - cbn [mret result_ret] in Hrun. by injection Hrun as <- <-.
  - destruct dat as [d|]; [|done]. simpl. by destruct ifp.
Qed.

(** [HSMMStatesPython.__init__] asserts that exactly one of [data] and
    [T] is given.  When it returns, whether it was given the state
    sequence, resampled it from the data or generated it from the prior,
    [T] is the number of observations or the [T] given, and
    [stateseq_norep], [durations] are the run-length encoding of
    [stateseq]: the durations sum to its length, also where
    [generate_states] had drawn a last duration past the end.  A state
    sequence that is given is stored as it is, whatever its length, and
    no draw is made; a sequence that is sampled has [T] entries. *)
Theorem hsmm_init_run_lengths (fuel : nat) (np_empty : nat → list nat)
    (self0 : states F Obs) (m : Model F Obs) (c : bool) (tr : option nat)
    (len : option nat) (dat : option (list Obs)) (ss : option (list nat))
    (ifp : bool) (g : rng F) :
  (∀ n, length (np_empty n) = n) →
  ((dat = None ↔ len = None) →
   HSMMStatesPython.init (HSMMStatesPython.init_cls rvs fuel np_empty)
     self0 m c tr len dat ss ifp g
   = raise AssertionError) ∧
  (∀ self' g',
     HSMMStatesPython.init (HSMMStatesPython.init_cls rvs fuel np_empty)
       self0 m c tr len dat ss ifp g
     = mret (self', g') →
     model self' = m ∧ data self' = dat ∧ censoring self' = c ∧
     T self' = match dat with
               | Some d => length d
               | None => default 0 len
               end ∧
     (stateseq_norep self', durations self') = rle (stateseq self') ∧
     sum_list (durations self') = length (stateseq self') ∧
     match ss with
     | Some ss => stateseq self' = ss ∧ g' = g ∧ trunc self' = tr
     | None => length (stateseq self') = T self'
     end).
Proof.
  intros Hempty. split.
  - intros Hiff. unfold HSMMStatesPython.init, HMMStatesPython.init.
    destruct dat as [d|], len as [n|]; try done.
    + by destruct Hiff as [_ Hc]; specialize (Hc eq_refl).
    + by destruct Hiff as [Hc _]; specialize (Hc eq_refl).
  - intros self' g' Hrun. unfold HSMMStatesPython.init in Hrun.
    apply bind_inv in Hrun as ([self2 g2] & Hinit & Hrun).
    cbn [mret result_ret] in Hrun. injection Hrun as <- <-.
    destruct (set_rle_spec self2) as [Hrle Hset].
    destruct (rle_spec (stateseq self2)) as (Hl & Hexp & _ & _).
    assert (sum_list (durations (HSMMStatesPython.set_rle self2))
            = length (stateseq self2)) as Hsum.
    { apply (f_equal snd) in Hrle as Hd. simpl in Hd. rewrite Hd.
      rewrite <- (expand_length (rle (stateseq self2)).1) by done.
      by rewrite Hexp. }
    assert (stateseq (HSMMStatesPython.set_rle self2) = stateseq self2 ∧
            model (HSMMStatesPython.set_rle self2) = model self2 ∧
            data (HSMMStatesPython.set_rle self2) = data self2 ∧
            censoring (HSMMStatesPython.set_rle self2) = censoring self2 ∧
            T (HSMMStatesPython.set_rle self2) = T self2 ∧
            trunc (HSMMStatesPython.set_rle self2) = trunc self2)
      as (E1 & E2 & E3 & E4 & E5 & E6) by (by rewrite Hset).
    rewrite E1, E2, E3, E4, E5, E6.
    apply hmm_init_inv in Hinit as [_ Hinit]. cbn zeta in Hinit.
    set (self1 := HMMStatesPython.set_model_T_data m _ dat _) in Hinit.
    assert (model self1 = m ∧ data self1 = dat ∧ censoring self1 = c ∧
            trunc self1 = tr ∧
            T self1 = match dat with
                      | Some d => length d
                      | None => default 0 len
                      end) as (M1 & M2 & M3 & M4 & M5) by done.
    destruct ss as [ss|].
    + destruct Hinit as [-> ->]. repeat split; done.
    + assert (length (stateseq self2) = T self1 ∧
              model self2 = model self1 ∧ data self2 = data self1 ∧
              censoring self2 = censoring self1 ∧ T self2 = T self1)
        as (Hlen & F1 & F2 & F3 & F4).
      { destruct ((if dat is Some _ then true else false) && negb ifp)
          eqn:Hb.
        - cbn [HSMMStatesPython.init_cls HMMStatesPython.i_resample]
            in Hinit.
          destruct dat as [d|]; [|done].
          apply (hsmm_resample_frame self1 self2 d) in Hinit
            as (_ & _ & Hlen & Hframe); [|done].
          split; [done|]. by rewrite Hframe.
        - cbn [HSMMStatesPython.init_cls
               HMMStatesPython.i_generate_states] in Hinit.
          apply hsmm_generate_states_frame in Hinit as [Hlen Hframe].
          rewrite Hempty in Hlen. split; [done|]. by rewrite Hframe. }
      rewrite Hsum, F1, F2, F3, F4, Hlen, M1, M2, M3, M5. repeat split; done.
Qed.
End Constructors.

Lemma hsmm_init_run_lengths_witness :
  (((None : option (list unit)) = None ↔ Some 2 = None) →
   HSMMStatesPython.init
     (HSMMStatesPython.init_cls Examples.three_steps 2 Examples.sevens)
     (HMMStatesPython.blank Examples.ov_model) Examples.ov_model true None
     (Some 2) (None : option (list unit)) None true Examples.thirds
   = raise AssertionError) ∧
  (∀ self' g',
     HSMMStatesPython.init
       (HSMMStatesPython.init_cls Examples.three_steps 2 Examples.sevens)
       (HMMStatesPython.blank Examples.ov_model) Examples.ov_model true None
       (Some 2) None None true Examples.thirds
     = mret (self', g') →
     model self' = Examples.ov_model ∧ data self' = None ∧
     censoring self' = true ∧ T self' = 2 ∧
     (stateseq_norep self', durations self') = rle (stateseq self') ∧
     sum_list (durations self') = length (stateseq self') ∧
     length (stateseq self') = T self').
Proof.
  apply (hsmm_init_run_lengths Examples.three_steps 2 Examples.sevens
           (HMMStatesPython.blank Examples.ov_model) Examples.ov_model true
           None (Some 2) None None true Examples.thirds).
  intros n. unfold Examples.sevens. apply length_replicate.
Defined.

(** A run of the constructor on [T = 2]: [generate_states] draws one
    segment of duration 3, and the constructor leaves the duration 2. *)
Lemma hsmm_init_example :
  match HSMMStatesPython.init
          (HSMMStatesPython.init_cls Examples.three_steps 2 Examples.sevens)
          (HMMStatesPython.blank Examples.ov_model) Examples.ov_model true
          None (Some 2) (None : option (list unit)) None true
          Examples.thirds with
  | inr (s, g) => Some (stateseq s, stateseq_norep s, durations s, T s)
  | inl _ => None
  end = Some ([0; 0], [0], [2], 2).
Proof. reflexivity. Qed.

(** ** [HMMStatesPython.generate_states] and [__init__] *)

Section HMMGenerate.
Context {F : Type} `{!FloatOps F} {Obs : Type}.

Lemma up_loopM_seq_inv {St : Type} (P : nat → St → Prop)
    (body : nat → St → result St) (n : nat) :
  ∀ a s s', P a s →
  (∀ t s s', a ≤ t < a + n → body t s = mret s' → P t s → P (S t) s') →
  HMMStatesPython.up_loopM body (seq a n) s = mret s' → P (a + n) s'.
Proof.
  induction n as [|n IH]; intros a s s' Hs Hstep Hrun.
  - cbn [seq HMMStatesPython.up_loopM mret result_ret] in Hrun.
    injection Hrun as <-. by rewrite Nat.add_0_r.
  - cbn [seq HMMStatesPython.up_loopM] in Hrun.
    apply bind_inv in Hrun as (s1 & Hbody & Hrun).
    replace (a + S n) with (S a + n) by lia.
    apply (IH (S a) s1 s'); [|intros t s2 s3 Ht; apply Hstep; lia|done].
    apply (Hstep a s); [lia|done|done].
Qed.

Lemma hmm_generate_loop_inv (self : states F Obs) (g : rng F)
    (ss : list nat) (nd : list F) (g' : rng F) :
  HMMStatesPython.up_loopM (HMMStatesPython.generate_step self)
    (seq 0 (T self)) (replicate (T self) 0, pi_0 (model self), g)
  = mret (ss, nd, g') →
  length ss = T self ∧ chain (model self) g (T self) ss.
Proof.
  intros Hrun.
  apply (up_loopM_seq_inv (λ idx s,
           length s.1.1 = T self ∧ chain (model self) g idx s.1.1 ∧
           (idx = 0 → s.1.2 = pi_0 (model self) ∧ s.2 = g) ∧
           (∀ t st, idx = S t → s.1.1 !! t = Some st →
              trans_distn (model self) !! st = Some s.1.2))) in Hrun.
  - simpl in Hrun. by destruct Hrun as (Hlen & Hchain & _).
  - simpl. rewrite length_replicate. split; [done|].
    split; [|split; [done|intros; lia]].
    split; [intros; lia|]. split; intros; lia.
  - intros t [[ss0 nd0] g0] [[ss1 nd1] g1] Ht Hstep
      (Hlen & (Hv & Hfirst & Hnext) & Hinit & Hprev). simpl in *.
    unfold HMMStatesPython.generate_step in Hstep.
    apply bind_inv in Hstep as ([state g2] & Hdraw & Hstep).
    apply bind_inv in Hstep as (row & Hrow & Hstep).
    cbn [mret result_ret] in Hstep. injection Hstep as <- <- <-.
    unfold getitem in Hrow.
    destruct (trans_distn (model self) !! state) as [row'|] eqn:Hrow';
      [|done].
    cbn [mret result_ret] in Hrow. injection Hrow as ->.
    assert (Hat : <[t := state]> ss0 !! t = Some state)
      by (apply list_lookup_insert_eq; lia).
    assert (Hbelow : ∀ u, u < t → <[t := state]> ss0 !! u = ss0 !! u)
      by (intros u Hu; apply list_lookup_insert_ne; lia).
    rewrite length_insert. split; [done|]. split; [split; [|split]|split].
    + intros u s Hu Hs. destruct (decide (u = t)) as [->|Hne].
      * rewrite Hat in Hs. injection Hs as <-. by rewrite Hrow'.
      * rewrite Hbelow in Hs by lia. apply (Hv u); [lia|done].
    + intros s _ Hs. destruct (decide (t = 0)) as [->|Hne].
      * rewrite Hat in Hs. injection Hs as <-.
        destruct Hinit as [-> ->]; [done|]. by exists g2.
      * rewrite Hbelow in Hs by lia. apply Hfirst; [lia|done].
    + intros u s s' Hu Hs Hs'. destruct (decide (S u = t)) as [<-|Hne].
      * rewrite Hat in Hs'. injection Hs' as <-.
        rewrite Hbelow in Hs by lia.
        exists nd0, g0, g2. split; [|done]. by apply (Hprev u).
      * rewrite !Hbelow in Hs, Hs' by lia. apply (Hnext u); [lia|done|done].
    + done.
    + intros u st Hu Hst. injection Hu as <-. rewrite Hat in Hst.
      by injection Hst as <-.
Qed.

Lemma hmm_generate_states_inv (self self' : states F Obs) (ss : list nat)
    (g g' : rng F) :
  HMMStatesPython.generate_states self g = mret (self', ss, g') →
  self' = set_stateseq ss self ∧ length ss = T self ∧
  chain (model self) g (T self) ss.
Proof.
  intros Hrun. unfold HMMStatesPython.generate_states in Hrun.
  apply bind_inv in Hrun as ([[ss0 nd] g1] & Hloop & Hrun).
  cbn [mret result_ret] in Hrun. injection Hrun as <- <- <-.
  split; [done|]. by apply hmm_generate_loop_inv in Hloop.
Qed.

(** [HMMStatesPython.generate_states] returns the state sequence that it
    stores in [self.stateseq], and changes nothing else in the object.
    The sequence has [T] entries; every state in it indexes a row of the
    transition matrix [A]; its first state is what [sample_discrete] draws
    from [pi_0] on the generator handed in, and each later state is a draw
    of [sample_discrete] from the row of [A] of the state before it. *)
Theorem hmm_generate_states_chain (self : states F Obs) (g : rng F) :
  ∀ self' ss g',
    HMMStatesPython.generate_states self g = mret (self', ss, g') →
    self' = set_stateseq ss self ∧ length ss = T self ∧
    (∀ t s, ss !! t = Some s → is_Some (trans_distn (model self) !! s)) ∧
    (∀ s, ss !! 0 = Some s →
       ∃ g2, sample_discrete (pi_0 (model self)) g = mret (s, g2)) ∧
    (∀ t s s', ss !! t = Some s → ss !! S t = Some s' →
       ∃ row g1 g2, trans_distn (model self) !! s = Some row ∧
                    sample_discrete row g1 = mret (s', g2)).
Proof.
  intros self' ss g' Hrun.
  apply hmm_generate_states_inv in Hrun
    as (Hself & Hlen & Hv & Hfirst & Hnext).
  split; [done|]. split; [done|]. split; [|split].
  - intros t s Hs. apply (Hv t); [|done].
    apply lookup_lt_Some in Hs. lia.
  - intros s Hs. apply Hfirst; [|done]. apply lookup_lt_Some in Hs. lia.
  - intros t s s' Hs Hs'. apply (Hnext t); [|done|done].
    apply lookup_lt_Some in Hs'. lia.
Qed.

(** [HMMStatesPython.__init__] asserts that exactly one of [data] and
    [T] is given.  When it returns, [T] is the number of observations or
    the [T] given; a state sequence that is given is stored as it is,
    whatever its length, and no draw is made; otherwise the state
    sequence has [T] entries.  With [initialize_from_prior] true, as it
    is by default, the observations are stored but not read: the call
    does what the call with [T = len(data)] and no data does. *)
Theorem hmm_init_stateseq (self0 : states F Obs) (m : Model F Obs)
    (len : option nat) (dat : option (list Obs)) (ss : option (list nat))
    (ifp : bool) (g : rng F) :
  ((dat = None ↔ len = None) →
   HMMStatesPython.init HMMStatesPython.init_cls self0 m len dat ss ifp g
   = raise AssertionError) ∧
  (∀ self' g',
     HMMStatesPython.init HMMStatesPython.init_cls self0 m len dat ss ifp g
     = mret (self', g') →
     model self' = m ∧ data self' = dat ∧
     T self' = match dat with
               | Some d => length d
               | None => default 0 len
               end ∧
     match ss with
     | Some ss => stateseq self' = ss ∧ g' = g
     | None => length (stateseq self') = T self'
     end) ∧
  (∀ d, dat = Some d → len = None → ifp = true →
     HMMStatesPython.init HMMStatesPython.init_cls self0 m len dat ss ifp g
     = '(s, g) ← HMMStatesPython.init HMMStatesPython.init_cls self0 m
                   (Some (length d)) None ss ifp g;
       mret (HMMStatesPython.set_model_T_data m (length d) (Some d) s, g)).
Proof.
  split; [|split].
  - intros Hiff. unfold HMMStatesPython.init.
    destruct dat as [d|], len as [n|]; try done.
    + by destruct Hiff as [_ Hc]; specialize (Hc eq_refl).
    + by destruct Hiff as [Hc _]; specialize (Hc eq_refl).
  - intros self' g' Hrun. apply hmm_init_inv in Hrun as [_ Hrun].
    cbn zeta in Hrun.
    set (self1 := HMMStatesPython.set_model_T_data m _ dat _) in Hrun.
    assert (model self1 = m ∧ data self1 = dat ∧
            T self1 = match dat with
                      | Some d => length d
                      | None => default 0 len
                      end) as (M1 & M2 & M3) by done.
    destruct ss as [ss|].
    { destruct Hrun as [-> ->]. repeat split; done. }
    assert (self' = set_stateseq (stateseq self') self1 ∧
            length (stateseq self') = T self1) as [Hframe Hlen].
    { destruct ((if dat is Some _ then true else false) && negb ifp)
        eqn:Hb.
      - cbn [HMMStatesPython.init_cls HMMStatesPython.i_resample] in Hrun.
        destruct dat as [d|]; [|done].
        unfold HMMStatesPython.resample in Hrun. rewrite M2 in Hrun.
        apply hmm_sample_forwards_length in Hrun as [Hframe Hlen].
        split; [done|]. rewrite Hlen, M3. unfold HMMStatesPython.get_aBl.
        by rewrite length_fmap, length_seq.
      - cbn [HMMStatesPython.init_cls HMMStatesPython.i_generate_states]
          in Hrun.
        apply bind_inv in Hrun as ([[s1 ss1] g1] & Hgen & Hrun).
        cbn [mret result_ret] in Hrun. injection Hrun as <- <-.
        apply hmm_generate_states_inv in Hgen as (-> & Hlen & _). done. }
    rewrite Hlen. rewrite Hframe. simpl. repeat split; done.
  - intros d -> -> ->. unfold HMMStatesPython.init.
    cbn [py_assert xorb mbind result_bind mret result_ret].
    destruct ss as [ss|]; [done|].
    cbn [HMMStatesPython.init_cls HMMStatesPython.i_generate_states negb].
    unfold HMMStatesPython.generate_states. simpl.
    destruct (HMMStatesPython.up_loopM _ _ _) as [e|[[ss1 nd] g1]]; done.
Qed.
End HMMGenerate.

Lemma hmm_generate_states_chain_witness :
  Examples.chain_generated = set_stateseq [0; 1; 0] Examples.chain_self ∧
  length [0; 1; 0] = T Examples.chain_self ∧
  (∀ t s, [0; 1; 0] !! t = Some s →
     is_Some (trans_distn (model Examples.chain_self) !! s)) ∧
  (∀ s, [0; 1; 0] !! 0 = Some s →
     ∃ g2, sample_discrete (pi_0 (model Examples.chain_self)) Examples.thirds
           = mret (s, g2)) ∧
  (∀ t s s', [0; 1; 0] !! t = Some s → [0; 1; 0] !! S t = Some s' →
     ∃ row g1 g2, trans_distn (model Examples.chain_self) !! s = Some row ∧
                  sample_discrete row g1 = mret (s', g2)).
Proof.
  apply (hmm_generate_states_chain Examples.chain_self Examples.thirds
           Examples.chain_generated [0; 1; 0] (Examples.thirds_after 3)).
  reflexivity.
Defined.

(** A run of [HMMStatesPython.generate_states] on three time steps. *)
Lemma hmm_generate_states_example :
  match HMMStatesPython.generate_states
          (HMMStatesPython.set_model_T_data Examples.ov_model 3 None
             (HMMStatesPython.blank Examples.ov_model)) Examples.thirds with
  | inr (s, ss, g) => Some (stateseq s, ss, pos g)
  | inl _ => None
  end = Some ([0; 1; 0], [0; 1; 0], 3).
Proof. reflexivity. Qed.

(** ** [HSMMStatesPossibleChangepoints.generate_states] and [__init__] *)

Section BlockGenerate.
Context {F : Type} `{!FloatOps F} {Obs : Type}.

Lemma foldl_fill_blocks (bss : list nat) (cps : list (nat * nat)) (len : nat) :
  length bss = length cps → intervals cps → ordered cps →
  ∀ i c t t', cps !! i = Some c →
    c.1 ≤ t < c.2 → c.1 ≤ t' < c.2 → t < len → t' < len →
    foldl (λ ss sc, fill ss (fst (snd sc)) (snd (snd sc)) (fst sc))
      (replicate len 0) (zip bss cps) !! t
    = foldl (λ ss sc, fill ss (fst (snd sc)) (snd (snd sc)) (fst sc))
        (replicate len 0) (zip bss cps) !! t'.
Proof.
  intros Hlen Hint Hord i c t t' Hc Ht Ht' HtT Ht'T.
  assert (i < length bss) as Hi by (apply lookup_lt_Some in Hc; lia).
  destruct (lookup_lt_is_Some_2 bss i Hi) as [s Hs].
  assert (zip bss cps !! i = Some (s, c)) as Hz.
  { apply lookup_zip_with_Some. by exists s, c. }
  assert (∀ i j sc sc', i < j →
            zip bss cps !! i = Some sc → zip bss cps !! j = Some sc' →
            sc.2.2 ≤ sc'.2.1) as Hord'.
  { intros i' j' sc sc' Hij H1 H2.
    apply lookup_zip_with_Some in H1 as (s1 & c1 & -> & _ & Hc1).
    apply lookup_zip_with_Some in H2 as (s2 & c2 & -> & _ & Hc2).
    simpl. by apply (Hord i' j'). }
  rewrite !(foldl_fill_lookup _ _ (zip_intervals bss _ Hint) Hord' i (s, c));
    try done; by rewrite length_replicate.
Qed.

Lemma cp_generate_loop_length (self : states F Obs) (Tb fuel : nat) :
  ∀ tblock bss nd g bss' g',
  HSMMStatesPossibleChangepoints.generate_loop self Tb fuel tblock bss nd g
  = mret (bss', g') →
  length bss' = length bss.
Proof.
  induction fuel as [|fuel IH]; intros tblock bss nd g bss' g' Hrun;
    cbn [HSMMStatesPossibleChangepoints.generate_loop] in Hrun;
    destruct (tblock <? Tb); try done;
    try (cbn [mret result_ret] in Hrun; by injection Hrun as <- <-).
  apply bind_inv in Hrun as ([state g1] & _ & Hrun).
  apply bind_inv in Hrun as (dur_distn & _ & Hrun).
  apply bind_inv in Hrun as ([k g2] & _ & Hrun).
  apply bind_inv in Hrun as (nd' & _ & Hrun).
  apply IH in Hrun. rewrite Hrun. apply fill_length. lia.
Qed.

Lemma cp_generate_loop_in_fuel (self : states F Obs) (Tb fuel : nat) :
  ∀ tblock bss nd g,
  Tb ≤ tblock + fuel →
  in_fuel (HSMMStatesPossibleChangepoints.generate_loop self Tb fuel tblock
             bss nd g).
Proof.
  induction fuel as [|fuel IH]; intros tblock bss nd g Hfuel;
    cbn [HSMMStatesPossibleChangepoints.generate_loop];
    destruct (tblock <? Tb) eqn:Hlt; try done.
  { apply Nat.ltb_lt in Hlt. lia. }
  apply in_fuel_bind; [apply in_fuel_sample_discrete|]. intros [state g1] _.
  apply in_fuel_bind; [apply in_fuel_getitem|]. intros dur_distn _.
  apply in_fuel_bind; [apply in_fuel_sample_discrete|]. intros [k g2] _.
  apply in_fuel_bind; [apply in_fuel_getitem|]. intros nd' _.
  apply IH. lia.
Qed.

Lemma cp_generate_states_inv (self self' : states F Obs) (ss : list nat)
    (g g' : rng F) :
  intervals (changepoints self) →
  HSMMStatesPossibleChangepoints.generate_states self g
  = mret (self', ss, g') →
  Tblock self = length (changepoints self) ∧
  self' = set_durations (rle ss).2
            (set_stateseq_norep (rle ss).1 (set_stateseq ss self)) ∧
  length ss = T self ∧
  (ordered (changepoints self) →
   ∀ i c t t', changepoints self !! i = Some c →
     c.1 ≤ t < c.2 → c.1 ≤ t' < c.2 → t < T self → t' < T self →
     ss !! t = ss !! t').
Proof.
  intros Hint Hrun.
  unfold HSMMStatesPossibleChangepoints.generate_states in Hrun.
  apply bind_inv in Hrun as ([] & HTb & Hrun).
  apply py_assert_inv, Nat.eqb_eq in HTb.
  apply bind_inv in Hrun as ([bss g1] & Hloop & Hrun).
  apply cp_generate_loop_length in Hloop. rewrite length_replicate in Hloop.
  destruct (rle _) as [nr ds] eqn:Hrle.
  cbn [mret result_ret] in Hrun. injection Hrun as <- <- <-.
  rewrite Hrle. simpl. split; [done|]. split; [done|]. split.
  - rewrite foldl_fill_length; [by rewrite length_replicate|].
    by apply zip_intervals.
  - intros Hord. apply foldl_fill_blocks; [lia|done|done].
Qed.

(** [HSMMStatesPossibleChangepoints.generate_states] asserts that
    [Tblock] is the number of changepoints.  Its loop over the blocks
    ends within [Tblock] iterations, since a block duration is at least
    1.  When it returns, on changepoints that are intervals, it has set
    [stateseq] to the sequence it returns, of [T] entries, and
    [stateseq_norep], [durations] to the run-length encoding of that
    sequence, whose durations sum to [T], and nothing else; if the
    changepoints are also in order and do not overlap, the sequence is
    constant on every block. *)
Theorem cp_generate_states_blocks (self : states F Obs) (g : rng F) :
  intervals (changepoints self) →
  (Tblock self ≠ length (changepoints self) →
   HSMMStatesPossibleChangepoints.generate_states self g
   = raise AssertionError) ∧
  in_fuel (HSMMStatesPossibleChangepoints.generate_states self g) ∧
  (∀ self' ss g',
     HSMMStatesPossibleChangepoints.generate_states self g
     = mret (self', ss, g') →
     self' = set_durations (rle ss).2
               (set_stateseq_norep (rle ss).1 (set_stateseq ss self)) ∧
     length ss = T self ∧
     sum_list (durations self') = T self ∧
     (ordered (changepoints self) →
      ∀ i c t t', changepoints self !! i = Some c →
        c.1 ≤ t < c.2 → c.1 ≤ t' < c.2 → t < T self → t' < T self →
        ss !! t = ss !! t')).
Proof.
  intros Hint. split; [|split].
  - intros Hne. unfold HSMMStatesPossibleChangepoints.generate_states.
    apply Nat.eqb_neq in Hne. by rewrite Hne.
  - unfold HSMMStatesPossibleChangepoints.generate_states.
    apply in_fuel_bind; [apply in_fuel_assert|]. intros _ _.
    apply in_fuel_bind; [apply cp_generate_loop_in_fuel; lia|].
    intros [bss g1] _. by destruct (rle _).
  - intros self' ss g' Hrun.
    apply cp_generate_states_inv in Hrun as (_ & Hself & Hlen & Hblocks);
      [|done].
    split; [done|]. split; [done|]. split; [|done].
    rewrite Hself. simpl. destruct (rle_spec ss) as (Hl & Hexp & _ & _).
    rewrite <- Hlen. rewrite <- (expand_length (rle ss).1) by done.
    by rewrite Hexp.
Qed.
End BlockGenerate.

Lemma cp_generate_states_blocks_witness :
  (Tblock Examples.cp_self ≠ length (changepoints Examples.cp_self) →
   HSMMStatesPossibleChangepoints.generate_states Examples.cp_self
     Examples.thirds
   = raise AssertionError) ∧
  in_fuel (HSMMStatesPossibleChangepoints.generate_states Examples.cp_self
             Examples.thirds) ∧
  (∀ self' ss g',
     HSMMStatesPossibleChangepoints.generate_states Examples.cp_self
       Examples.thirds
     = mret (self', ss, g') →
     self' = set_durations (rle ss).2
               (set_stateseq_norep (rle ss).1
                  (set_stateseq ss Examples.cp_self)) ∧
     length ss = T Examples.cp_self ∧
     sum_list (durations self') = T Examples.cp_self ∧
     (ordered (changepoints Examples.cp_self) →
      ∀ i c t t', changepoints Examples.cp_self !! i = Some c →
        c.1 ≤ t < c.2 → c.1 ≤ t' < c.2 →
        t < T Examples.cp_self → t' < T Examples.cp_self →
        ss !! t = ss !! t')).
Proof.
  apply (cp_generate_states_blocks Examples.cp_self Examples.thirds).
  unfold intervals. repeat constructor.
Defined.

(** A run of the block [generate_states] on the changepoints
    [[(0,2),(2,3)]]. *)
Lemma cp_generate_states_example :
  match HSMMStatesPossibleChangepoints.generate_states Examples.cp_self
          Examples.thirds with
  | inr (s, ss, g) =>
      Some (stateseq s, ss, stateseq_norep s, durations s, pos g)
  | inl _ => None
  end = Some ([0; 0; 1], [0; 0; 1], [0; 1], [2; 1], 4).
Proof. vm_compute. reflexivity. Qed.

Section BlockConstructor.
Context {F : Type} `{!FloatOps F} {Obs : Type}.

Lemma cp_resample_inv (self self' : states F Obs) (dat : list Obs)
    (g g' : rng F) :
  Tblock self = length (changepoints self) →
  data self = Some dat →
  HSMMStatesPossibleChangepoints.resample self g = mret (self', g') →
  ∃ self3 betal betastarl,
    HSMMStatesPossibleChangepoints.sample_forwards self3 betal betastarl g
    = mret (self', g') ∧
    self3 = set_aDl (aDl self3)
              (set_aBBl (aBBl self3)
                 (set_aBl (aBl self3) (set_trunc (trunc self3) self))).
Proof.
  intros HTb Hdata.
  unfold HSMMStatesPossibleChangepoints.resample, HSMMStatesPython.resample.
  rewrite Hdata.
  cbn [HSMMStatesPython.m_get_aBl HSMMStatesPython.m_messages_backwards
       HSMMStatesPython.m_sample_forwards HSMMStatesPossibleChangepoints.cls].
  rewrite get_aBl_spec by done.
  cbn [mbind result_bind mret result_ret]. intros Hrun.
  apply bind_inv in Hrun as ([self3 [betal betastarl]] & Hmb & Hrun).
  apply cp_messages_backwards_self in Hmb as ->.
  eexists _, betal, betastarl. split; [exact Hrun|done].
Qed.

Lemma cp_sample_forwards_blocks (self self' : states F Obs)
    (betal betastarl : list (list F)) (g g' : rng F) :
  HSMMStatesPossibleChangepoints.sample_forwards self betal betastarl g
  = mret (self', g') →
  ∃ bss : list nat,
    length bss = length (changepoints self) ∧
    stateseq self'
    = foldl (λ ss sc, fill ss (fst (snd sc)) (snd (snd sc)) (fst sc))
        (replicate (T self) 0) (zip bss (changepoints self)) ∧
    self' = set_aDl None
              (set_durations (durations self')
                 (set_stateseq_norep (stateseq_norep self')
                    (set_stateseq (stateseq self') self))).
Proof.
  unfold HSMMStatesPossibleChangepoints.sample_forwards. intros Hrun.
  apply bind_inv in Hrun as (aD & _ & Hrun).
  apply bind_inv in Hrun as ([] & Hlen & Hrun).
  apply py_assert_inv, Nat.eqb_eq in Hlen.
  apply bind_inv in Hrun as ([bss g1] & Hloop & Hrun).
  apply block_loop_length in Hloop. rewrite length_replicate in Hloop.
  exists bss. destruct (rle _) as [nr ds].
  cbn [mret result_ret] in Hrun. injection Hrun as <- <-. simpl.
  split; [lia|done].
Qed.

Lemma hsmm_init_inv (icls : HMMStatesPython.init_methods (F := F) (Obs := Obs))
    (self0 self' : states F Obs) (m : Model F Obs) (c : bool)
    (tr len : option nat) (dat : option (list Obs)) (ss : option (list nat))
    (ifp : bool) (g g' : rng F) :
  HSMMStatesPython.init icls self0 m c tr len dat ss ifp g
  = mret (self', g') →
  ∃ self2,
    HMMStatesPython.init icls (HSMMStatesPython.set_censoring_trunc c tr self0)
      m len dat ss ifp g = mret (self2, g') ∧
    (stateseq_norep self', durations self') = rle (stateseq self2) ∧
    self' = set_durations (durations self')
              (set_stateseq_norep (stateseq_norep self') self2).
Proof.
  intros Hrun. unfold HSMMStatesPython.init in Hrun.
  apply bind_inv in Hrun as ([self2 g2] & Hinit & Hrun).
  cbn [mret result_ret] in Hrun. injection Hrun as <- <-.
  exists self2. split; [done|]. apply set_rle_spec.
Qed.

(** [HSMMStatesPossibleChangepoints.__init__] on changepoints
    [(start,stop)] with [start <= stop].  When it returns, the object
    holds the changepoints it was given, their start points, their
    lengths [stop - start] and their number [Tblock]; [T] is the number
    of observations or the [T] given; [stateseq_norep] and [durations]
    are the run-length encoding of [stateseq].  A state sequence that the
    constructor samples, from the data or from the prior, has [T]
    entries, and is constant on every block if the changepoints are in
    order and do not overlap. *)
Theorem cp_init_blocks (m : Model F Obs) (cps : list (nat * nat)) (c : bool)
    (tr len : option nat) (dat : option (list Obs)) (ss : option (list nat))
    (ifp : bool) (g : rng F) :
  intervals cps →
  ∀ self' g',
    HSMMStatesPossibleChangepoints.init
      HSMMStatesPossibleChangepoints.init_cls m cps c tr len dat ss ifp g
    = mret (self', g') →
    changepoints self' = cps ∧ startpoints self' = fst <$> cps ∧
    blocklens self' = (λ c, c.2 - c.1) <$> cps ∧
    Tblock self' = length cps ∧
    model self' = m ∧ data self' = dat ∧ censoring self' = c ∧
    T self' = match dat with
              | Some d => length d
              | None => default 0 len
              end ∧
    (stateseq_norep self', durations self') = rle (stateseq self') ∧
    (ss = None →
     length (stateseq self') = T self' ∧
     (ordered cps →
      ∀ i c t t', cps !! i = Some c →
        c.1 ≤ t < c.2 → c.1 ≤ t' < c.2 → t < T self' → t' < T self' →
        stateseq self' !! t = stateseq self' !! t')).
Proof.
  intros Hint self' g' Hrun.
  unfold HSMMStatesPossibleChangepoints.init in Hrun.
  apply hsmm_init_inv in Hrun as (self2 & Hinit & Hrle & Hself).
  apply hmm_init_inv in Hinit as [_ Hinit]. cbn zeta in Hinit.
  set (self1 := HMMStatesPython.set_model_T_data m _ dat _) in Hinit.
  assert (changepoints self1 = cps ∧ startpoints self1 = fst <$> cps ∧
          blocklens self1 = (λ c, c.2 - c.1) <$> cps ∧
          Tblock self1 = length cps ∧
          model self1 = m ∧ data self1 = dat ∧ censoring self1 = c ∧
          T self1 = match dat with
                    | Some d => length d
                    | None => default 0 len
                    end) as (M1 & M2 & M3 & M4 & M5 & M6 & M7 & M8) by done.
  assert (changepoints self2 = changepoints self1 ∧
          startpoints self2 = startpoints self1 ∧
          blocklens self2 = blocklens self1 ∧
          Tblock self2 = Tblock self1 ∧
          model self2 = model self1 ∧ data self2 = data self1 ∧
          censoring self2 = censoring self1 ∧ T self2 = T self1 ∧
          (ss = None → intervals cps →
           length (stateseq self2) = T self1 ∧
           (ordered cps →
            ∀ i c t t', cps !! i = Some c →
              c.1 ≤ t < c.2 → c.1 ≤ t' < c.2 → t < T self1 → t' < T self1 →
              stateseq self2 !! t = stateseq self2 !! t')))
    as (F1 & F2 & F3 & F4 & F5 & F6 & F7 & F8 & Hss).
  { destruct ss as [ss|].
    { destruct Hinit as [-> ->]. repeat split; done. }
    destruct ((if dat is Some _ then true else false) && negb ifp) eqn:Hb.
    - cbn [HSMMStatesPossibleChangepoints.init_cls
           HMMStatesPython.i_resample] in Hinit.
      destruct dat as [d|]; [|done].
      apply (cp_resample_inv self1 self2 d) in Hinit
        as (self3 & betal & betastarl & Hrun & Hself3);
        [|by rewrite M4, M1|done].
      apply cp_sample_forwards_blocks in Hrun as (bss & Hlen & Hseq & Hself2).
      assert (changepoints self3 = changepoints self1 ∧ T self3 = T self1)
        as [E1 E2] by (by rewrite Hself3).
      rewrite E1, E2, M1 in *.
      rewrite Hself2. simpl. rewrite Hself3. simpl.
      repeat split; try done.
      + rewrite Hseq, foldl_fill_length, length_replicate; [done|].
        by apply zip_intervals.
      + intros Hord. rewrite Hseq. by apply foldl_fill_blocks.
    - cbn [HSMMStatesPossibleChangepoints.init_cls
           HMMStatesPython.i_generate_states] in Hinit.
      apply bind_inv in Hinit as ([[s1 ss1] g1] & Hgen & Hinit).
      cbn [mret result_ret] in Hinit. injection Hinit as <- <-.
      unfold HSMMStatesPossibleChangepoints.generate_states in Hgen.
      apply bind_inv in Hgen as ([] & HTb & Hgen).
      apply bind_inv in Hgen as ([bss g2] & Hloop & Hgen).
      apply cp_generate_loop_length in Hloop.
      rewrite length_replicate, M4 in Hloop.
      destruct (rle _) as [nr ds] eqn:Hrle'.
      cbn [mret result_ret] in Hgen. injection Hgen as <- <- <-. simpl.
      repeat split; try done.
      + rewrite foldl_fill_length, length_replicate; [done|].
        by apply zip_intervals.
      + intros Hord. by apply foldl_fill_blocks. }
  rewrite Hself. simpl. rewrite Hself in Hrle. simpl in Hrle.
  rewrite F1, F2, F3, F4, F5, F6, F7, F8, M1, M2, M3, M4, M5, M6, M7.
  rewrite <- M8. repeat split; try done.
  - by apply Hss.
  - by apply Hss.
Qed.
End BlockConstructor.

Lemma cp_init_blocks_witness :
  changepoints Examples.cp_built = [(0, 2); (2, 3)] ∧
  startpoints Examples.cp_built = fst <$> [(0, 2); (2, 3)] ∧
  blocklens Examples.cp_built = (λ c, c.2 - c.1) <$> [(0, 2); (2, 3)] ∧
  Tblock Examples.cp_built = length [(0, 2); (2, 3)] ∧
  model Examples.cp_built = Examples.cp_model ∧
  data Examples.cp_built = None ∧ censoring Examples.cp_built = true ∧
  T Examples.cp_built = default 0 (Some 3) ∧
  (stateseq_norep Examples.cp_built, durations Examples.cp_built)
  = rle (stateseq Examples.cp_built) ∧
  ((None : option (list nat)) = None →
   length (stateseq Examples.cp_built) = T Examples.cp_built ∧
   (ordered [(0, 2); (2, 3)] →
    ∀ i c t t', [(0, 2); (2, 3)] !! i = Some c →
      c.1 ≤ t < c.2 → c.1 ≤ t' < c.2 →
      t < T Examples.cp_built → t' < T Examples.cp_built →
      stateseq Examples.cp_built !! t = stateseq Examples.cp_built !! t')).
Proof.
  refine (cp_init_blocks Examples.cp_model [(0, 2); (2, 3)] true None
            (Some 3) None None true Examples.thirds _ Examples.cp_built
            (Examples.thirds_after 4) _).
  - unfold intervals. repeat constructor.
  - vm_compute. reflexivity.
Defined.

(** The block constructor on [T = 3] and the changepoints
    [[(0,2),(2,3)]]. *)
Lemma cp_init_example :
  match HSMMStatesPossibleChangepoints.init
          HSMMStatesPossibleChangepoints.init_cls Examples.cp_model
          [(0, 2); (2, 3)] true None (Some 3) None None true
          Examples.thirds with
  | inr (s, g) =>
      Some (stateseq s, stateseq_norep s, durations s, blocklens s, Tblock s)
  | inl _ => None
  end = Some ([0; 0; 1], [0; 1], [2; 1], [2; 1], 2).
Proof. vm_compute. reflexivity. Qed.

(** ** [HSMMStatesGeoApproximation.__init__] needs data *)

Section GeoConstructor.
Context {F : Type} `{!FloatOps F} {Obs : Type}.
Variable rvs : DurDistn F → rng F → nat * rng F.

(** [HSMMStatesGeoApproximation.__init__] builds [self._hmm_states] from
    [self.data] and no [T]: on an object built from [T] and no data the
    constructor of [HMMStates] fails its assertion, after the inherited
    constructor has returned, so that the class cannot be instantiated
    without data.  With data and a state sequence given it returns
    without a draw, and [_hmm_states] holds the model, the data, their
    number as [T] and the state sequence. *)
Theorem geo_init_needs_data (fuel : nat) (np_empty : nat → list nat)
    (resample : states F Obs → rng F → result (states F Obs * rng F))
    (self0 : states F Obs) (m : Model F Obs) (c : bool)
    (tr len : option nat) (ss : option (list nat)) (ifp : bool) (g : rng F) :
  (∀ x,
     HSMMStatesPython.init
       (HSMMStatesGeoApproximation.init_cls rvs fuel np_empty resample)
       self0 m c tr len None ss ifp g = mret x →
     HSMMStatesGeoApproximation.init
       (HSMMStatesGeoApproximation.init_cls rvs fuel np_empty resample)
       self0 m c tr len None ss ifp g = raise AssertionError) ∧
  (∀ r,
     HSMMStatesGeoApproximation.init
       (HSMMStatesGeoApproximation.init_cls rvs fuel np_empty resample)
       self0 m c tr len None ss ifp g ≠ mret r) ∧
  (∀ d ss0,
     ss = Some ss0 →
     ∃ self' hs,
       HSMMStatesGeoApproximation.init
         (HSMMStatesGeoApproximation.init_cls rvs fuel np_empty resample)
         self0 m c tr None (Some d) ss ifp g = mret (self', hs, g) ∧
       stateseq self' = ss0 ∧ data self' = Some d ∧ T self' = length d ∧
       model hs = m ∧ data hs = Some d ∧ T hs = length d ∧
       stateseq hs = ss0).
Proof.
  assert (∀ x,
     HSMMStatesPython.init
       (HSMMStatesGeoApproximation.init_cls rvs fuel np_empty resample)
       self0 m c tr len None ss ifp g = mret x →
     HSMMStatesGeoApproximation.init
       (HSMMStatesGeoApproximation.init_cls rvs fuel np_empty resample)
       self0 m c tr len None ss ifp g = raise AssertionError) as Hassert.
  { intros [self' g'] Hrun. unfold HSMMStatesGeoApproximation.init.
    rewrite Hrun.
    apply hsmm_init_inv in Hrun as (self2 & Hinit & _ & Hself).
    apply hmm_init_inv in Hinit as [_ Hinit]. cbn zeta in Hinit.
    assert (data self2 = None) as Hdata.
    { destruct ss as [ss0|]; [by destruct Hinit as [-> _]|].
      cbn [andb HSMMStatesGeoApproximation.init_cls
           HMMStatesPython.i_generate_states] in Hinit.
      apply hsmm_generate_states_frame in Hinit as [_ Hframe].
      by rewrite Hframe. }
    assert (data self' = None) as Hdata' by (by rewrite Hself).
    unfold HMMStatesPython.init, HSMMStatesGeoApproximation.get_data.
    cbn [mret result_ret mbind result_bind]. by rewrite Hdata'. }
  split; [done|]. split.
  - intros r Hr.
    destruct (HSMMStatesPython.init _ self0 m c tr len None ss ifp g)
      as [e|x] eqn:Hrun.
    + unfold HSMMStatesGeoApproximation.init in Hr. by rewrite Hrun in Hr.
    + rewrite (Hassert x) in Hr; [done|]. by rewrite <- Hrun.
  - intros d ss0 ->.
    unfold HSMMStatesGeoApproximation.init, HSMMStatesPython.init,
      HMMStatesPython.init, HSMMStatesPython.set_rle. simpl.
    destruct (rle ss0) as [nr ds]. simpl.
    eexists _, _. split; [reflexivity|]. done.
Qed.
End GeoConstructor.

(** The inherited constructor returns on [T = 2] and no data, and the
    constructor of the class then fails. *)
Lemma geo_init_example :
  HSMMStatesGeoApproximation.init
    (HSMMStatesGeoApproximation.init_cls Examples.three_steps 2
       Examples.sevens (λ _ _, raise (AttributeError "state_dim")))
    (HMMStatesPython.blank Examples.ov_model) Examples.ov_model true None
    (Some 2) (None : option (list unit)) None true Examples.thirds
  = raise AssertionError.
Proof. reflexivity. Qed.
